(** * clean_rss.py: aggregation of a Weibo hotlist feed into one item

    A shallow embedding of [src/clean_rss.py] and of the parts of the Python
    standard library it calls ([str] methods, [html.escape], [urllib.parse],
    [datetime], [_strptime], [xml.etree.ElementTree]), followed by the
    properties of the specification stated and settled on that embedding.

    Conventions.
    - A Python [str] is a list of Unicode code points ([pystr]).
    - A call that can raise returns a [result]; [except ValueError] is a
      match on the [ValueError] constructor.
    - The library models follow CPython 3.11 (Unicode 14.0.0, C locale,
      glibc [strftime]); the messages of library exceptions are abbreviated. *)

From Stdlib Require Import ZArith List String Ascii Bool Lia.
From stdpp Require Import gmap strings.
Import ListNotations.
Local Open Scope Z_scope.

(** ** Exceptions and results *)

Inductive exn : Type :=
| ValueError (msg : string)
| OverflowError (msg : string)
| UnicodeEncodeError
| IndexError
| FileNotFoundError
| ParseError
| PermissionError.

Inductive result (A : Type) : Type :=
| Ok (a : A)
| Raise (e : exn).
Arguments Ok {A} a.
Arguments Raise {A} e.

Definition bind {A B : Type} (r : result A) (k : A -> result B) : result B :=
  match r with
  | Ok a => k a
  | Raise e => Raise e
  end.

Notation "x <- e ;; k" := (bind e (fun x => k))
  (at level 100, e at next level, right associativity, only parsing).

Definition is_ok {A : Type} (r : result A) : bool :=
  match r with Ok _ => true | Raise _ => false end.

(** ** Python strings *)

Abbreviation char := Z (only parsing).
Abbreviation pystr := (list Z) (only parsing).

Fixpoint bytes_of (s : string) : list Z :=
  match s with
  | EmptyString => []
  | String a s' => Z.of_N (N_of_ascii a) :: bytes_of s'
  end.

Definition is_cont (b : Z) : bool := (128 <=? b) && (b <? 192).

Definition REPLACEMENT : char := 65533.

(** [bytes.decode("utf-8", "replace")]: every maximal ill-formed prefix that
    the decoder reports becomes one U+FFFD; a truncated sequence at the end
    of the input is reported once, up to the end. *)
Fixpoint utf8_decode_replace (bs : list Z) : pystr :=
  match bs with
  | [] => []
  | b0 :: t1 =>
    if b0 <? 128 then b0 :: utf8_decode_replace t1
    else if b0 <? 194 then REPLACEMENT :: utf8_decode_replace t1
    else if b0 <? 224 then
      match t1 with
      | [] => [REPLACEMENT]
      | b1 :: t2 =>
        if is_cont b1
        then ((b0 - 192) * 64 + (b1 - 128)) :: utf8_decode_replace t2
        else REPLACEMENT :: utf8_decode_replace t1
      end
    else if b0 <? 240 then
      match t1 with
      | [] => [REPLACEMENT]
      | b1 :: t2 =>
        if negb (is_cont b1)
           || (if b1 <? 160 then b0 =? 224 else b0 =? 237)
        then REPLACEMENT :: utf8_decode_replace t1
        else
          match t2 with
          | [] => [REPLACEMENT]
          | b2 :: t3 =>
            if is_cont b2
            then ((b0 - 224) * 4096 + (b1 - 128) * 64 + (b2 - 128))
                   :: utf8_decode_replace t3
            else REPLACEMENT :: utf8_decode_replace t2
          end
      end
    else if b0 <? 245 then
      match t1 with
      | [] => [REPLACEMENT]
      | b1 :: t2 =>
        if negb (is_cont b1)
           || (if b1 <? 144 then b0 =? 240 else b0 =? 244)
        then REPLACEMENT :: utf8_decode_replace t1
        else
          match t2 with
          | [] => [REPLACEMENT]
          | b2 :: t3 =>
            if negb (is_cont b2) then REPLACEMENT :: utf8_decode_replace t2
            else
              match t3 with
              | [] => [REPLACEMENT]
              | b3 :: t4 =>
                if is_cont b3
                then ((b0 - 240) * 262144 + (b1 - 128) * 4096
                      + (b2 - 128) * 64 + (b3 - 128))
                       :: utf8_decode_replace t4
                else REPLACEMENT :: utf8_decode_replace t3
              end
          end
      end
    else REPLACEMENT :: utf8_decode_replace t1
  end.

(** A literal of the source text: the code points of a UTF-8 string. *)
Definition str (s : string) : pystr := utf8_decode_replace (bytes_of s).

(** [str.encode("utf-8")] with [errors="strict"]: lone surrogates raise. *)
Definition utf8_encode_char (c : char) : option (list Z) :=
  if c <? 0 then None
  else if c <? 128 then Some [c]
  else if c <? 2048 then Some [192 + c / 64; 128 + c mod 64]
  else if (55296 <=? c) && (c <=? 57343) then None
  else if c <? 65536
       then Some [224 + c / 4096; 128 + (c / 64) mod 64; 128 + c mod 64]
  else if c <? 1114112
       then Some [240 + c / 262144; 128 + (c / 4096) mod 64;
                  128 + (c / 64) mod 64; 128 + c mod 64]
  else None.

Fixpoint utf8_encode (s : pystr) : result (list Z) :=
  match s with
  | [] => Ok []
  | c :: s' =>
    match utf8_encode_char c with
    | None => Raise UnicodeEncodeError
    | Some bs => rest <- utf8_encode s' ;; Ok (bs ++ rest)
    end
  end.

Definition char_eqb (a b : char) : bool := a =? b.

Fixpoint str_eqb (a b : pystr) : bool :=
  match a, b with
  | [], [] => true
  | x :: a', y :: b' => char_eqb x y && str_eqb a' b'
  | _, _ => false
  end.

Definition char_in (c : char) (set : pystr) : bool := existsb (char_eqb c) set.

(** [str.isspace] for one character, the class of [str.strip()],
    [str.split()] and of [\s] in [re]. *)
Definition py_isspace (c : char) : bool :=
  ((9 <=? c) && (c <=? 13)) || ((28 <=? c) && (c <=? 32))
  || (c =? 133) || (c =? 160) || (c =? 5760)
  || ((8192 <=? c) && (c <=? 8202))
  || (c =? 8232) || (c =? 8233) || (c =? 8239) || (c =? 8287) || (c =? 12288).

Fixpoint lstrip_by (p : char -> bool) (s : pystr) : pystr :=
  match s with
  | c :: s' => if p c then lstrip_by p s' else s
  | [] => []
  end.

Fixpoint rstrip_by (p : char -> bool) (s : pystr) : pystr :=
  match s with
  | [] => []
  | c :: s' =>
    match rstrip_by p s' with
    | [] => if p c then [] else [c]
    | r => c :: r
    end
  end.

(** [s.strip()] *)
Definition strip (s : pystr) : pystr := rstrip_by py_isspace (lstrip_by py_isspace s).

(** [s.split()]: the maximal runs of non-whitespace characters. *)
Fixpoint split_ws_aux (cur : pystr) (s : pystr) : list pystr :=
  match s with
  | [] => match cur with [] => [] | _ :: _ => [rev cur] end
  | c :: s' =>
    if py_isspace c
    then match cur with
         | [] => split_ws_aux [] s'
         | _ :: _ => rev cur :: split_ws_aux [] s'
         end
    else split_ws_aux (c :: cur) s'
  end.

Definition split_ws (s : pystr) : list pystr := split_ws_aux [] s.

(** [sep.join(parts)] *)
Fixpoint join (sep : pystr) (parts : list pystr) : pystr :=
  match parts with
  | [] => []
  | [p] => p
  | p :: ps => p ++ sep ++ join sep ps
  end.

(** [s.replace(c, rep)] for a one-character pattern. *)
Definition replace_char (c : char) (rep : pystr) (s : pystr) : pystr :=
  flat_map (fun x => if char_eqb x c then rep else [x]) s.

(** [s.partition(c)]: [Some (before, after)] at the first occurrence. *)
Fixpoint partition_at (c : char) (s : pystr) : option (pystr * pystr) :=
  match s with
  | [] => None
  | x :: s' =>
    if char_eqb x c then Some ([], s')
    else match partition_at c s' with
         | Some (a, b) => Some (x :: a, b)
         | None => None
         end
  end.

(** [s.split(c)] for a one-character separator. *)
Fixpoint split_char_aux (c : char) (cur : pystr) (s : pystr) : list pystr :=
  match s with
  | [] => [rev cur]
  | x :: s' =>
    if char_eqb x c then rev cur :: split_char_aux c [] s'
    else split_char_aux c (x :: cur) s'
  end.

Definition split_char (c : char) (s : pystr) : list pystr := split_char_aux c [] s.

(** [s.split(c, 1)] *)
Definition split_once (c : char) (s : pystr) : list pystr :=
  match partition_at c s with
  | Some (a, b) => [a; b]
  | None => [s]
  end.

Definition is_ascii_upper (c : char) : bool := (65 <=? c) && (c <=? 90).
Definition is_ascii_lower (c : char) : bool := (97 <=? c) && (c <=? 122).
Definition is_ascii_alpha (c : char) : bool := is_ascii_upper c || is_ascii_lower c.
Definition is_ascii_digit (c : char) : bool := (48 <=? c) && (c <=? 57).

(** ** html.escape *)

(** [html.escape(s, quote=True)]: five successive [str.replace] calls, the
    ampersand first. *)
Definition html_escape (s : pystr) : pystr :=
  let s := replace_char 38 (str "&amp;") s in
  let s := replace_char 60 (str "&lt;") s in
  let s := replace_char 62 (str "&gt;") s in
  let s := replace_char 34 (str "&quot;") s in
  replace_char 39 (str "&#x27;") s.


(** What [html.escape] makes of one character. *)
Definition esc_char (c : char) : pystr :=
  if c =? 38 then str "&amp;"
  else if c =? 60 then str "&lt;"
  else if c =? 62 then str "&gt;"
  else if c =? 34 then str "&quot;"
  else if c =? 39 then str "&#x27;"
  else [c].

(** The characters that open or close markup: less-than, greater-than and
    the double and single quotes. *)
Definition markup_char (c : char) : bool :=
  (c =? 60) || (c =? 62) || (c =? 34) || (c =? 39).

Definition ENTITIES : list (list Z) :=
  map str ["&amp;"; "&lt;"; "&gt;"; "&quot;"; "&#x27;"]%string.

(** Text in which every ampersand opens one of the five entities and no
    markup character occurs. *)
Inductive escaped : list Z -> Prop :=
| escaped_nil : escaped []
| escaped_plain c r :
    markup_char c = false -> c <> 38 -> escaped r -> escaped (c :: r)
| escaped_entity e r : In e ENTITIES -> escaped r -> escaped (e ++ r).

(** ** urllib.parse *)

(** The always-safe bytes of [quote]: letters, digits and [_.-~]. *)
Definition ALWAYS_SAFE (b : Z) : bool :=
  is_ascii_alpha b || is_ascii_digit b || char_in b (str "_.-~").

Definition hex_upper (n : Z) : char := if n <? 10 then 48 + n else 55 + n.

(** One byte through the quoter: itself when safe, else [%XX]. *)
Definition quote_byte (safe : pystr) (b : Z) : pystr :=
  if ALWAYS_SAFE b || ((b <? 128) && char_in b safe) then [b]
  else [37; hex_upper (b / 16); hex_upper (b mod 16)].

Definition quote_from_bytes (bs : list Z) (safe : pystr) : pystr :=
  flat_map (quote_byte safe) bs.

(** [quote(string, safe)]; the encoding is UTF-8 with [errors="strict"]. *)
Definition quote (s : pystr) (safe : pystr) : result pystr :=
  match s with
  | [] => Ok []
  | _ :: _ => bs <- utf8_encode s ;; Ok (quote_from_bytes bs safe)
  end.

Definition hexval (c : char) : option Z :=
  if is_ascii_digit c then Some (c - 48)
  else if (65 <=? c) && (c <=? 70) then Some (c - 55)
  else if (97 <=? c) && (c <=? 102) then Some (c - 87)
  else None.

(** One piece after a [%]: two hex digits give a byte, anything else keeps
    the percent sign. *)
Definition unquote_item (item : list Z) : list Z :=
  match item with
  | a :: b :: rest =>
    match hexval a, hexval b with
    | Some x, Some y => (16 * x + y) :: rest
    | _, _ => 37 :: item
    end
  | _ => 37 :: item
  end.

Definition unquote_to_bytes (s : list Z) : list Z :=
  match split_char 37 s with
  | [] => []
  | first :: items => first ++ flat_map unquote_item items
  end.

(** [unquote]: every maximal run of ASCII characters is percent-decoded and
    read back as UTF-8 with replacement; other characters are kept. [run]
    holds the current ASCII run, reversed. *)
Fixpoint unquote_runs (run : pystr) (s : pystr) : pystr :=
  match s with
  | [] => utf8_decode_replace (unquote_to_bytes (rev run))
  | c :: s' =>
    if c <? 128 then unquote_runs (c :: run) s'
    else utf8_decode_replace (unquote_to_bytes (rev run)) ++ c :: unquote_runs [] s'
  end.

Definition unquote (s : pystr) : pystr :=
  if char_in 37 s then unquote_runs [] s else s.

(** [parse_qsl(qs)] with the defaults ([keep_blank_values=False],
    [strict_parsing=False], separator [&]). *)
Definition parse_qsl_field (name_value : pystr) : list (pystr * pystr) :=
  match name_value with
  | [] => []
  | _ :: _ =>
    match split_once 61 name_value with
    | [n; v] =>
      match v with
      | [] => []
      | _ :: _ => [(unquote (replace_char 43 [32] n), unquote (replace_char 43 [32] v))]
      end
    | _ => []
    end
  end.

Definition parse_qsl (qs : pystr) : list (pystr * pystr) :=
  match qs with
  | [] => []
  | _ :: _ => flat_map parse_qsl_field (split_char 38 qs)
  end.

(** [parse_qs(qs)]: a dict from names to the list of their values, in the
    order of the query. *)
Definition parse_qs_add (d : gmap (list Z) (list (list Z))) (nv : pystr * pystr)
  : gmap (list Z) (list (list Z)) :=
  match d !! fst nv with
  | Some vs => <[fst nv := vs ++ [snd nv]]> d
  | None => <[fst nv := [snd nv]]> d
  end.

Definition parse_qs (qs : pystr) : gmap (list Z) (list (list Z)) :=
  fold_left parse_qs_add (parse_qsl qs) ∅.

(** The values a query gives to one name, in the order of the query. *)
Definition values_of (name : pystr) (pairs : list (list Z * list Z)) : list (list Z) :=
  map snd (List.filter (fun nv => str_eqb (fst nv) name) pairs).

(** Percent-encoding with no additional safe character. *)
Definition percent_encoded (bs : list Z) : pystr :=
  flat_map (fun b => if ALWAYS_SAFE b then [b]
                     else [37; hex_upper (b / 16); hex_upper (b mod 16)]) bs.

Record ParseResult : Type := mkParseResult {
  scheme : pystr; netloc : pystr; path : pystr;
  params : pystr; query : pystr; fragment : pystr }.

Definition scheme_char (c : char) : bool :=
  is_ascii_alpha c || is_ascii_digit c || char_in c (str "+-.").

Definition ascii_lower (c : char) : char := if is_ascii_upper c then c + 32 else c.

(** The code points whose NFKC form contains one of [/?#@:] (Unicode
    14.0.0): the characters [_checknetloc] rejects in a network location. *)
Definition NFKC_DELIMITER_LOOKALIKES : list Z :=
  [8263; 8264; 8265; 8448; 8449; 8453; 8454; 10868; 65043; 65046; 65109;
   65110; 65119; 65131; 65283; 65295; 65306; 65311; 65312].

Definition checknetloc (nl : pystr) : result unit :=
  if existsb (fun c => char_in c NFKC_DELIMITER_LOOKALIKES) nl
  then Raise (ValueError "netloc contains invalid characters under NFKC normalization")
  else Ok tt.

(** [_splitnetloc(url, 2)] on the text after the two slashes. *)
Fixpoint splitnetloc (s : pystr) : pystr * pystr :=
  match s with
  | [] => ([], [])
  | c :: s' =>
    if char_in c (str "/?#") then ([], s)
    else let '(a, b) := splitnetloc s' in (c :: a, b)
  end.

(** [_splitparams(url)], called when [url] contains a semicolon. *)
Fixpoint last_segment (cur : pystr) (s : pystr) : pystr * pystr :=
  match s with
  | [] => ([], rev cur)
  | c :: s' =>
    if char_eqb c 47
    then let '(a, b) := last_segment [c] s' in (rev cur ++ a, b)
    else last_segment (c :: cur) s'
  end.

Definition splitparams (url : pystr) : pystr * pystr :=
  if char_in 47 url then
    let '(before, seg) := last_segment [] url in
    match partition_at 59 seg with
    | Some (a, b) => (before ++ a, b)
    | None => (url, [])
    end
  else
    match partition_at 59 url with
    | Some (a, b) => (a, b)
    | None => (removelast url, url)
    end.

Definition uses_params : list (list Z) :=
  [] :: map str ["ftp"; "hdl"; "prospero"; "http"; "imap"; "https"; "shttp";
           "rtsp"; "rtspu"; "sip"; "sips"; "mms"; "sftp"; "tel"]%string.

Section UrlSplit.

(** The validation of a bracketed host ([_check_bracketed_netloc]) rests on
    the [ipaddress] module and differs between Python releases; it is a
    parameter of the model: [true] when the network location is accepted. *)
Variable bracketed_netloc_ok : list Z -> bool.

(** [urlsplit(url)] with the default [scheme=''] and
    [allow_fragments=True]; the result carries an empty [params]. *)
Definition urlsplit (url : pystr) : result ParseResult :=
  let url := lstrip_by (fun c => c <=? 32) url in
  let url := List.filter (fun c => negb (char_in c [9; 13; 10])) url in
  let '(sch, url) :=
    match partition_at 58 url with
    | Some (c0 :: pre, rest) =>
      if is_ascii_alpha c0 && forallb scheme_char (c0 :: pre)
      then (map ascii_lower (c0 :: pre), rest)
      else ([], url)
    | _ => ([], url)
    end in
  split <-
    match url with
    | 47 :: 47 :: after =>
      let '(nl, rest) := splitnetloc after in
      if xorb (char_in 91 nl) (char_in 93 nl)
      then Raise (ValueError "Invalid IPv6 URL")
      else if char_in 91 nl && char_in 93 nl && negb (bracketed_netloc_ok nl)
      then Raise (ValueError "Invalid IPv6 URL")
      else Ok (nl, rest)
    | _ => Ok ([], url)
    end ;;
  let '(nl, url) := split in
  let '(url, frag) :=
    match partition_at 35 url with
    | Some (a, b) => (a, b)
    | None => (url, [])
    end in
  let '(url, qry) :=
    match partition_at 63 url with
    | Some (a, b) => (a, b)
    | None => (url, [])
    end in
  _ <- checknetloc nl ;;
  Ok (mkParseResult sch nl url [] qry frag).

(** [urlparse(url)] *)
Definition urlparse (url : pystr) : result ParseResult :=
  r <- urlsplit url ;;
  if existsb (str_eqb (scheme r)) uses_params && char_in 59 (path r)
  then let '(p, prm) := splitparams (path r) in
       Ok (mkParseResult (scheme r) (netloc r) p prm (query r) (fragment r))
  else Ok r.

End UrlSplit.

(** ** datetime: the proleptic Gregorian calendar *)

Definition b2z (b : bool) : Z := if b then 1 else 0.

Definition idx (l : list Z) (i : Z) : Z := nth (Z.to_nat i) l 0.

Definition MINYEAR : Z := 1.
Definition MAXYEAR : Z := 9999.
Definition MAXORDINAL : Z := 3652059.

Definition DAYS_IN_MONTH : list Z :=
  [-1; 31; 28; 31; 30; 31; 30; 31; 31; 30; 31; 30; 31].

Definition DAYS_BEFORE_MONTH : list Z :=
  [-1; 0; 31; 59; 90; 120; 151; 181; 212; 243; 273; 304; 334].

Definition is_leap (year : Z) : bool :=
  (year mod 4 =? 0) && (negb (year mod 100 =? 0) || (year mod 400 =? 0)).

Definition days_before_year (year : Z) : Z :=
  let y := year - 1 in y * 365 + y / 4 - y / 100 + y / 400.

Definition days_in_month (year month : Z) : Z :=
  if (month =? 2) && is_leap year then 29 else idx DAYS_IN_MONTH month.

Definition days_before_month (year month : Z) : Z :=
  idx DAYS_BEFORE_MONTH month + b2z ((2 <? month) && is_leap year).

Definition ymd2ord (year month day : Z) : Z :=
  days_before_year year + days_before_month year month + day.

Definition DI400Y : Z := 146097.
Definition DI100Y : Z := 36524.
Definition DI4Y : Z := 1461.

(** The month and day of the [n]-th day (from 0) of a year. *)
Definition month_day (leapyear : bool) (n : Z) : Z * Z :=
  let month := Z.shiftr (n + 50) 5 in
  let preceding := idx DAYS_BEFORE_MONTH month + b2z ((2 <? month) && leapyear) in
  if n <? preceding
  then let month := month - 1 in
       let preceding :=
         preceding - (idx DAYS_IN_MONTH month + b2z ((month =? 2) && leapyear)) in
       (month, n - preceding + 1)
  else (month, n - preceding + 1).

Definition ord2ymd (n : Z) : Z * Z * Z :=
  let n := n - 1 in
  let n400 := n / DI400Y in
  let n := n mod DI400Y in
  let year := n400 * 400 + 1 in
  let n100 := n / DI100Y in
  let n := n mod DI100Y in
  let n4 := n / DI4Y in
  let n := n mod DI4Y in
  let n1 := n / 365 in
  let n := n mod 365 in
  let year := year + n100 * 100 + n4 * 4 + n1 in
  if (n1 =? 4) || (n100 =? 4) then (year - 1, 12, 31)
  else
    let leapyear := (n1 =? 3) && (negb (n4 =? 24) || (n100 =? 3)) in
    let '(month, day) := month_day leapyear n in
    (year, month, day).

(** What [month_day] must deliver: a month, a day of that month, and the
    right number of days before it. *)
Definition month_day_ok (leapyear : bool) (n : Z) : bool :=
  let '(m, d) := month_day leapyear n in
  (1 <=? m) && (m <=? 12) && (1 <=? d)
  && (d <=? (if (m =? 2) && leapyear then 29 else idx DAYS_IN_MONTH m))
  && (idx DAYS_BEFORE_MONTH m + b2z ((2 <? m) && leapyear) + d =? n + 1).

(** ** datetime: naive and aware values *)

Record naive : Type := mknaive {
  year : Z; month : Z; day : Z;
  hour : Z; minute : Z; second : Z; microsecond : Z }.

(** A [tzinfo] object, as far as this program observes it: the offset its
    [utcoffset] method reports for a datetime it is attached to, in
    seconds. *)
Record tzinfo : Type := mktzinfo { tzname : string; tz_utcoffset : Z }.

Record aware : Type := mkaware { wall : naive; tz : tzinfo }.

(** [pytz.timezone("Asia/Shanghai")]. The object pytz returns carries the
    first entry of the zone's transition table, local mean time, which pytz
    rounds to the minute: LMT+8:06:00. This is the offset of a datetime the
    object is attached to with [replace(tzinfo=...)]; only [localize] and
    [fromutc] select the entry in force (CST+8:00:00 today). *)
Definition BEIJING_TZ : tzinfo := mktzinfo "Asia/Shanghai LMT" 29160.

(** [datetime.timezone.utc] *)
Definition UTC_TZ : tzinfo := mktzinfo "UTC" 0.

(** [_check_date_fields] and [_check_time_fields] *)
Definition check_fields (d : naive) : result naive :=
  if negb ((MINYEAR <=? year d) && (year d <=? MAXYEAR))
  then Raise (ValueError "year is out of range")
  else if negb ((1 <=? month d) && (month d <=? 12))
  then Raise (ValueError "month must be in 1..12")
  else if negb ((1 <=? day d) && (day d <=? days_in_month (year d) (month d)))
  then Raise (ValueError "day is out of range for month")
  else if negb ((0 <=? hour d) && (hour d <=? 23))
  then Raise (ValueError "hour must be in 0..23")
  else if negb ((0 <=? minute d) && (minute d <=? 59))
  then Raise (ValueError "minute must be in 0..59")
  else if negb ((0 <=? second d) && (second d <=? 59))
  then Raise (ValueError "second must be in 0..59")
  else if negb ((0 <=? microsecond d) && (microsecond d <=? 999999))
  then Raise (ValueError "microsecond must be in 0..999999")
  else Ok d.

Definition toordinal (d : naive) : Z := ymd2ord (year d) (month d) (day d).

(** Seconds from the start of day 0 of the ordinal count to the wall time. *)
Definition wall_seconds (d : naive) : Z :=
  toordinal d * 86400 + hour d * 3600 + minute d * 60 + second d.

(** [d + timedelta(seconds=delta)] *)
Definition add_seconds (d : naive) (delta : Z) : result naive :=
  let total := wall_seconds d + delta in
  let days := total / 86400 in
  let secs := total mod 86400 in
  if (0 <? days) && (days <=? MAXORDINAL)
  then let '(y, m, dd) := ord2ymd days in
       Ok (mknaive y m dd (secs / 3600) ((secs mod 3600) / 60)
                   ((secs mod 3600) mod 60) (microsecond d))
  else Raise (OverflowError "date value out of range").

(** [naive_dt.replace(tzinfo=tz)] *)
Definition replace_tzinfo (d : naive) (z : tzinfo) : aware := mkaware d z.

(** [timezone.fromutc(dt)] of a fixed-offset zone: [dt + offset]. *)
Definition fromutc (z : tzinfo) (utc : naive) : result aware :=
  w <- add_seconds utc (tz_utcoffset z) ;; Ok (mkaware w z).

(** [self.astimezone(tz)]: [(self - myoffset).replace(tzinfo=tz)], then
    [tz.fromutc]. *)
Definition astimezone (self : aware) (z : tzinfo) : result aware :=
  utc <- add_seconds (wall self) (- tz_utcoffset (tz self)) ;;
  fromutc z utc.

(** The instant an aware datetime denotes, in microseconds; two aware
    datetimes are equal in Python when these agree. *)
Definition instant (a : aware) : Z :=
  (wall_seconds (wall a) - tz_utcoffset (tz a)) * 1000000 + microsecond (wall a).

(** ** strftime *)

Definition DAYNAMES : list (list Z) :=
  map str ["Mon"; "Tue"; "Wed"; "Thu"; "Fri"; "Sat"; "Sun"]%string.

Definition MONTHNAMES : list (list Z) :=
  map str ["Jan"; "Feb"; "Mar"; "Apr"; "May"; "Jun";
           "Jul"; "Aug"; "Sep"; "Oct"; "Nov"; "Dec"]%string.

(** [(toordinal + 6) % 7], Monday is 0. *)
Definition weekday (d : naive) : Z := (toordinal d + 6) mod 7.

(** ["%02d" % n] for [0 <= n < 100] *)
Definition pad2 (n : Z) : pystr := [48 + n / 10; 48 + n mod 10].

Fixpoint decimal_aux (fuel : nat) (n : Z) (acc : pystr) : pystr :=
  match fuel with
  | O => acc
  | S f =>
    let acc' := (48 + n mod 10) :: acc in
    if n <? 10 then acc' else decimal_aux f (n / 10) acc'
  end.

(** [str(n)] for [n >= 0] *)
Definition decimal (n : Z) : pystr := decimal_aux (S (Z.to_nat (Z.log2 n))) n [].

(** One conversion of the C library's [strftime] in the C locale; [%Y] is
    not padded by glibc. Conversions this program does not use stay as they
    are written. *)
Definition strftime_directive (d : naive) (c : char) : pystr :=
  if c =? 97 then nth (Z.to_nat (weekday d)) DAYNAMES []
  else if c =? 98 then nth (Z.to_nat (month d - 1)) MONTHNAMES []
  else if c =? 100 then pad2 (day d)
  else if c =? 109 then pad2 (month d)
  else if c =? 89 then decimal (year d)
  else if c =? 72 then pad2 (hour d)
  else if c =? 77 then pad2 (minute d)
  else if c =? 83 then pad2 (second d)
  else if c =? 37 then [37]
  else [37; c].

Fixpoint strftime (fmt : pystr) (d : naive) : pystr :=
  match fmt with
  | [] => []
  | 37 :: c :: rest => strftime_directive d c ++ strftime rest d
  | c :: rest => c :: strftime rest d
  end.

(** ** Regular expressions, as far as [_strptime] builds them *)

(** The first code points of the runs of ten decimal digits (Unicode 14.0.0):
    the class [\d] of [re] and the digits [int] accepts. *)
Definition DECIMAL_ZEROS : list Z :=
  [48; 1632; 1776; 1984; 2406; 2534; 2662; 2790; 2918; 3046; 3174; 3302;
   3430; 3558; 3664; 3792; 3872; 4160; 4240; 6112; 6160; 6470; 6608; 6784;
   6800; 6992; 7088; 7232; 7248; 42528; 43216; 43264; 43472; 43504; 43600;
   44016; 65296; 66720; 68912; 69734; 69872; 69942; 70096; 70384; 70736;
   70864; 71248; 71360; 71472; 71904; 72016; 72784; 73040; 73120; 92768;
   92864; 93008; 120782; 120792; 120802; 120812; 120822; 123200; 123632;
   125264; 130032].

Fixpoint decimal_value_in (zeros : list Z) (c : char) : option Z :=
  match zeros with
  | [] => None
  | z :: zs => if (z <=? c) && (c <? z + 10) then Some (c - z)
               else decimal_value_in zs c
  end.

Definition decimal_value (c : char) : option Z := decimal_value_in DECIMAL_ZEROS c.

Definition py_isdecimal (c : char) : bool :=
  match decimal_value c with Some _ => true | None => false end.

Inductive charclass : Type :=
| CLit (c : char)            (* a literal, under IGNORECASE *)
| CRange (lo hi : char)      (* [lo-hi] *)
| CDigit                     (* \d *)
| CSpace.                    (* \s *)

(** A literal under [re.IGNORECASE]: the two ASCII cases, and the code
    points that case-fold to the letter ([i]: U+0130, U+0131; [s]: U+017F;
    [k]: U+212A). *)
Definition ci_match (lit c : char) : bool :=
  (ascii_lower c =? ascii_lower lit)
  || ((ascii_lower lit =? 105) && ((c =? 304) || (c =? 305)))
  || ((ascii_lower lit =? 115) && (c =? 383))
  || ((ascii_lower lit =? 107) && (c =? 8490)).

Definition class_match (cl : charclass) (c : char) : bool :=
  match cl with
  | CLit l => ci_match l c
  | CRange lo hi => (lo <=? c) && (c <=? hi)
  | CDigit => py_isdecimal c
  | CSpace => py_isspace c
  end.

Inductive regex : Type :=
| REmpty
| RChar (cl : charclass)
| RPlus (cl : charclass)                 (* cl+, greedy *)
| RSeq (r1 r2 : regex)
| RAlt (r1 r2 : regex)
| RGroup (name : char) (r : regex).      (* (?P<name>r) *)

Abbreviation captures := (list (Z * list Z)) (only parsing).

Section Matcher.
Context {A : Type}.

(** [cl+] at [s]: the longest run first, then shorter ones. [acc] is the
    text matched so far, reversed. *)
Fixpoint plus_match (cl : charclass) (s : pystr) (acc : pystr)
         (k : pystr -> pystr -> option A) : option A :=
  match s with
  | [] => None
  | c :: s' =>
    if class_match cl c
    then match plus_match cl s' (c :: acc) k with
         | Some x => Some x
         | None => k (rev (c :: acc)) s'
         end
    else None
  end.

(** Backtracking match of [r] at the start of [s]; the continuation gets
    the matched text, the groups captured so far and the rest, and the
    first alternative whose continuation succeeds wins. *)
Fixpoint rmatch (r : regex) (s : pystr) (caps : captures)
         (k : pystr -> captures -> pystr -> option A) : option A :=
  match r with
  | REmpty => k [] caps s
  | RChar cl =>
    match s with
    | c :: s' => if class_match cl c then k [c] caps s' else None
    | [] => None
    end
  | RPlus cl => plus_match cl s [] (fun m s' => k m caps s')
  | RSeq r1 r2 =>
    rmatch r1 s caps (fun m1 caps1 s1 =>
      rmatch r2 s1 caps1 (fun m2 caps2 s2 => k (m1 ++ m2) caps2 s2))
  | RAlt r1 r2 =>
    match rmatch r1 s caps k with
    | Some x => Some x
    | None => rmatch r2 s caps k
    end
  | RGroup name r1 =>
    rmatch r1 s caps (fun m caps1 s1 => k m ((name, m) :: caps1) s1)
  end.
End Matcher.

(** [regex.match(s)]: the groups and the unconsumed rest of the first match. *)
Definition re_match (r : regex) (s : pystr) : option (captures * pystr) :=
  rmatch r s [] (fun _ caps rest => Some (caps, rest)).

Fixpoint group (caps : captures) (name : char) : option pystr :=
  match caps with
  | [] => None
  | (n, m) :: caps' => if n =? name then Some m else group caps' name
  end.

(** ** _strptime *)

Definition digit_range (lo hi : Z) : regex := RChar (CRange (48 + lo) (48 + hi)).
Definition any_digit : regex := RChar CDigit.

Fixpoint literal (s : pystr) : regex :=
  match s with
  | [] => REmpty
  | [c] => RChar (CLit c)
  | c :: s' => RSeq (RChar (CLit c)) (literal s')
  end.

Fixpoint alternatives (rs : list regex) : regex :=
  match rs with
  | [] => REmpty
  | [r] => r
  | r :: rs' => RAlt r (alternatives rs')
  end.

Definition a_weekday : list (list Z) :=
  map str ["mon"; "tue"; "wed"; "thu"; "fri"; "sat"; "sun"]%string.

Definition a_month : list (list Z) :=
  [] :: map str ["jan"; "feb"; "mar"; "apr"; "may"; "jun";
           "jul"; "aug"; "sep"; "oct"; "nov"; "dec"]%string.

(** The table of [TimeRE], for the directives of this program's formats. *)
Definition directive_regex (c : char) : option regex :=
  if c =? 100 then  (* d: 3[0-1]|[1-2]\d|0[1-9]|[1-9]| [1-9] *)
    Some (RGroup c (alternatives
      [RSeq (digit_range 3 3) (digit_range 0 1);
       RSeq (digit_range 1 2) any_digit;
       RSeq (digit_range 0 0) (digit_range 1 9);
       digit_range 1 9;
       RSeq (RChar (CLit 32)) (digit_range 1 9)]))
  else if c =? 72 then  (* H: 2[0-3]|[0-1]\d|\d *)
    Some (RGroup c (alternatives
      [RSeq (digit_range 2 2) (digit_range 0 3);
       RSeq (digit_range 0 1) any_digit;
       any_digit]))
  else if c =? 109 then  (* m: 1[0-2]|0[1-9]|[1-9] *)
    Some (RGroup c (alternatives
      [RSeq (digit_range 1 1) (digit_range 0 2);
       RSeq (digit_range 0 0) (digit_range 1 9);
       digit_range 1 9]))
  else if c =? 77 then  (* M: [0-5]\d|\d *)
    Some (RGroup c (alternatives
      [RSeq (digit_range 0 5) any_digit; any_digit]))
  else if c =? 83 then  (* S: 6[0-1]|[0-5]\d|\d *)
    Some (RGroup c (alternatives
      [RSeq (digit_range 6 6) (digit_range 0 1);
       RSeq (digit_range 0 5) any_digit;
       any_digit]))
  else if c =? 89 then  (* Y: \d\d\d\d *)
    Some (RGroup c (RSeq any_digit (RSeq any_digit (RSeq any_digit any_digit))))
  else if c =? 97 then  (* a *)
    Some (RGroup c (alternatives (map literal a_weekday)))
  else if c =? 98 then  (* b *)
    Some (RGroup c (alternatives (map literal (tl a_month))))
  else if c =? 37 then Some (RChar (CLit 37))
  else None.

(** [TimeRE.pattern(format)]: a run of whitespace becomes [\s+], a directive
    its group, any other character itself. [ws] tells that the previous
    character of the format was whitespace. *)
Fixpoint pattern_aux (ws : bool) (fmt : pystr) : option regex :=
  match fmt with
  | [] => Some REmpty
  | 37 :: c :: rest =>
    match directive_regex c, pattern_aux false rest with
    | Some r, Some r' => Some (RSeq r r')
    | _, _ => None
    end
  | c :: rest =>
    if py_isspace c
    then if ws then pattern_aux true rest
         else match pattern_aux true rest with
              | Some r' => Some (RSeq (RPlus CSpace) r')
              | None => None
              end
    else if c =? 37 then None
    else match pattern_aux false rest with
         | Some r' => Some (RSeq (RChar (CLit c)) r')
         | None => None
         end
  end.

Definition pattern (fmt : pystr) : option regex := pattern_aux false fmt.

Fixpoint digits_value (s : pystr) (acc : Z) : option Z :=
  match s with
  | [] => Some acc
  | c :: s' =>
    match decimal_value c with
    | Some v => digits_value s' (10 * acc + v)
    | None => None
    end
  end.

(** [int(s)] on an unsigned decimal literal, surrounding whitespace allowed. *)
Definition py_int (s : pystr) : result Z :=
  match strip s with
  | [] => Raise (ValueError "invalid literal for int()")
  | t => match digits_value t 0 with
         | Some v => Ok v
         | None => Raise (ValueError "invalid literal for int()")
         end
  end.

(** [str.lower()] on the text a name alternative can match. *)
Definition lower_char (c : char) : pystr :=
  if c =? 304 then [105; 775]
  else if c =? 8490 then [107]
  else [ascii_lower c].

Definition py_lower (s : pystr) : pystr := flat_map lower_char s.

(** [l.index(x)] *)
Fixpoint index_of (x : pystr) (l : list (list Z)) (i : Z) : result Z :=
  match l with
  | [] => Raise (ValueError "x is not in list")
  | y :: l' => if str_eqb x y then Ok i else index_of x l' (i + 1)
  end.

Definition group_int (caps : captures) (name : char) (default : Z) : result Z :=
  match group caps name with
  | Some m => py_int m
  | None => Ok default
  end.

(** [datetime.strptime(data_string, format)] for formats made of the
    directives above. *)
Definition strptime (data_string fmt : pystr) : result naive :=
  match pattern fmt with
  | None => Raise (ValueError "bad directive in format")
  | Some re =>
    match re_match re data_string with
    | None => Raise (ValueError "time data does not match format")
    | Some (caps, _ :: _) => Raise (ValueError "unconverted data remains")
    | Some (caps, []) =>
      _ <- match group caps 97 with
           | Some m => index_of (py_lower m) a_weekday 0
           | None => Ok 0
           end ;;
      d <- group_int caps 100 1 ;;
      mo <- match group caps 98 with
            | Some m => index_of (py_lower m) a_month 0
            | None => group_int caps 109 1
            end ;;
      y <- group_int caps 89 1900 ;;
      h <- group_int caps 72 0 ;;
      mi <- group_int caps 77 0 ;;
      s <- group_int caps 83 0 ;;
      check_fields (mknaive y mo d h mi s 0)
    end
  end.

(** ** parse_last_build_date *)

Definition FORMATS : list (list Z) :=
  map str ["%a, %d %b %Y %H:%M:%S GMT"; "%a, %d %b %Y %H:%M:%S"]%string.

Section Clock.

(** The value [datetime.now(BEIJING_TZ)] returns at the time of the call:
    the reading of the clock, in the zone entry pytz selects for it. *)
Variable bj_now : aware.

(** The two fallback paths: [return bj_now, bj_now.astimezone(UTC_TZ)]. *)
Definition now_pair : result (aware * aware) :=
  gmt <- astimezone bj_now UTC_TZ ;; Ok (bj_now, gmt).

(** The body of the [try], for one format. *)
Definition parse_as (text fmt : pystr) : result (aware * aware) :=
  naive_dt <- strptime text fmt ;;
  let bj_dt := replace_tzinfo naive_dt BEIJING_TZ in
  gmt <- astimezone bj_dt UTC_TZ ;;
  Ok (bj_dt, gmt).

(** The [for fmt in ...] loop: a [ValueError] moves on to the next format,
    any other exception leaves the function. *)
Fixpoint try_formats (text : pystr) (fmts : list (list Z)) : result (aware * aware) :=
  match fmts with
  | [] => now_pair
  | fmt :: fmts' =>
    match parse_as text fmt with
    | Raise (ValueError _) => try_formats text fmts'
    | r => r
    end
  end.

Definition parse_last_build_date (value : option (list Z)) : result (aware * aware) :=
  match value with
  | None => now_pair
  | Some [] => now_pair
  | Some v => try_formats (strip v) FORMATS
  end.

End Clock.

(** ** xml.etree.ElementTree *)

(** An element: tag, attributes, text, tail and children. A [text] or
    [tail] of [None] is the empty string; nothing here tells them apart. *)
Local Unset Elimination Schemes.
Inductive Element : Type :=
| Elem (tag : list Z) (attrib : list (list Z * list Z))
       (text tail : list Z) (children : list Element).
Local Set Elimination Schemes.

Definition el_tag (e : Element) : pystr := let 'Elem t _ _ _ _ := e in t.
Definition el_attrib (e : Element) : list (list Z * list Z) := let 'Elem _ a _ _ _ := e in a.
Definition el_text (e : Element) : pystr := let 'Elem _ _ t _ _ := e in t.
Definition el_tail (e : Element) : pystr := let 'Elem _ _ _ t _ := e in t.
Definition el_children (e : Element) : list Element := let 'Elem _ _ _ _ c := e in c.

Definition set_tail (e : Element) (t : pystr) : Element :=
  let 'Elem tg a tx _ c := e in Elem tg a tx t c.

(** [ET.SubElement(parent, tag).text = text], for a leaf. *)
Definition leaf (tag : pystr) (attrib : list (list Z * list Z)) (text : pystr) : Element :=
  Elem tag attrib text [] [].

(** [elem.find(tag)] and [elem.findall(tag)] for a plain tag name: the
    children with that tag, in document order. *)
Definition find (e : Element) (tag : pystr) : option Element :=
  List.find (fun c => str_eqb (el_tag c) tag) (el_children e).

Definition findall (e : Element) (tag : pystr) : list Element :=
  List.filter (fun c => str_eqb (el_tag c) tag) (el_children e).

(** Successive [find] calls along a list of tags. *)
Fixpoint find_path (e : Element) (tags : list (list Z)) : option Element :=
  match tags with
  | [] => Some e
  | t :: tags' =>
    match find e t with
    | Some c => find_path c tags'
    | None => None
    end
  end.

Definition nonempty (s : pystr) : list (list Z) :=
  match s with [] => [] | _ :: _ => [s] end.

(** [elem.itertext()]: the text, then each child's texts and tail. *)
Fixpoint itertext (e : Element) : list (list Z) :=
  match e with
  | Elem _ _ text _ children =>
    nonempty text
    ++ flat_map (fun c => itertext c ++ nonempty (el_tail c)) children
  end.

(** [elem.iter(tag)], counted: the elements with that tag in the tree. *)
Fixpoint count_tag (tag : pystr) (e : Element) : nat :=
  match e with
  | Elem t _ _ _ children =>
    ((if str_eqb t tag then 1 else 0)
     + list_sum (map (count_tag tag) children))%nat
  end.

(** Induction on elements, with the property known of all children. *)
Section ElementInduction.
Variable P : Element -> Prop.
Hypothesis step : forall tag attrib text tail children,
    Forall P children -> P (Elem tag attrib text tail children).

Fixpoint Element_ind (e : Element) : P e :=
  match e with
  | Elem tag attrib text tail children =>
    step tag attrib text tail children
         ((fix all (cs : list Element) : Forall P cs :=
             match cs with
             | [] => @List.Forall_nil _ P
             | c :: cs' => @List.Forall_cons _ P c cs' (Element_ind c) (all cs')
             end) children)
  end.
End ElementInduction.

(** ** clean_rss: get_text *)

Definition get_text (elem : option Element) : pystr :=
  match elem with
  | None => []
  | Some e => strip (join [] (itertext e))
  end.

(** Python's [a or b] on strings *)
Definition str_or (a b : pystr) : pystr :=
  match a with [] => b | _ :: _ => a end.

(** ** clean_rss: indent *)

Definition blank (s : pystr) : bool :=
  match strip s with [] => true | _ :: _ => false end.

Definition indent_text (level : nat) : pystr :=
  10 :: concat (repeat (str "  ") level).

Fixpoint set_last_tail (i : pystr) (cs : list Element) : list Element :=
  match cs with
  | [] => []
  | [c] => [if blank (el_tail c) then set_tail c i else c]
  | c :: cs' => c :: set_last_tail i cs'
  end.

(** [indent(elem, level)], returning the element it leaves behind. *)
Fixpoint indent (elem : Element) (level : nat) : Element :=
  match elem with
  | Elem tag attrib text tail children =>
    let i := indent_text level in
    let '(text, children) :=
      match children with
      | [] => (text, [])
      | _ :: _ =>
        (if blank text then i ++ str "  " else text,
         set_last_tail i (map (fun child => indent child (S level)) children))
      end in
    let tail :=
      match level with
      | O => tail
      | S _ => if blank tail then i else tail
      end in
    Elem tag attrib text tail children
  end.

(** ** clean_rss: the aggregator *)

Definition SEARCH_URL : pystr :=
  str "https://m.weibo.cn/search?containerid=100103type%3D1%26q%3D".

Definition TOPHUB_URL : pystr := str "https://tophub.today/n/KqndgxeLl9".

Definition RFC822 : pystr := str "%a, %d %b %Y %H:%M:%S GMT".

Inductive file : Type :=
| XmlDocument (root : Element)
| NotXml.

(** The file system the run sees, and the paths it may open for writing. *)
Record world : Type := mkworld {
  files : gmap string file;
  writable : string -> bool }.

(** The f-string of one list entry:
    [<li><a href="{safe_link}" target="_blank">{safe_title}</a></li>]. *)
Definition li_line (safe_link safe_title : pystr) : pystr :=
  str "<li><a href=" ++ [34] ++ safe_link ++ [34] ++ str " target="
  ++ [34] ++ str "_blank" ++ [34] ++ str ">" ++ safe_title ++ str "</a></li>".

(** The closing paragraph with the capture time. *)
Definition capture_line (capture_time : aware) : pystr :=
  str "<p><small>采集时间: "
  ++ strftime (str "%Y-%m-%d %H:%M:%S") (wall capture_time)
  ++ str "</small></p>".

Section Aggregator.

Variable bracketed_netloc_ok : list Z -> bool.
Variable bj_now : aware.

Definition normalize_weibo_link (title raw_link : pystr) : result (list Z) :=
  let cleaned_link := join [] (split_ws raw_link) in
  parsed <- urlparse bracketed_netloc_ok cleaned_link ;;
  let query := parse_qs (query parsed) in
  keyword <-
    (if decide (query = ∅) then Ok []
     else match default [[]] (query !! str "q") with
          | v :: _ => Ok (strip v)
          | [] => Raise IndexError
          end) ;;
  let keyword := match keyword with [] => strip title | _ :: _ => keyword end in
  encoded_keyword <- quote keyword [] ;;
  Ok (SEARCH_URL ++ encoded_keyword).

(** One [<li>] line of the description. *)
Definition item_line (title link : pystr) : result (list Z) :=
  link <- normalize_weibo_link title link ;;
  let safe_title := html_escape title in
  let safe_link := html_escape link in
  Ok (li_line safe_link safe_title).

(** The [for title, link in items] loop. *)
Fixpoint item_lines (items : list (list Z * list Z)) : result (list (list Z)) :=
  match items with
  | [] => Ok []
  | (title, link) :: items' =>
    line <- item_line title link ;;
    lines <- item_lines items' ;;
    Ok (line :: lines)
  end.

Definition build_description (items : list (list Z * list Z)) (capture_time : aware)
  : result (list Z) :=
  lines <- item_lines items ;;
  Ok (join [10]
        ([str "<h2>微博热搜榜</h2>"; str "<ol>"] ++ lines
         ++ [str "</ol>"; capture_line capture_time])).

(** The [for item in channel.findall("item")] loop. *)
Definition extract_item (item : Element) : list Z * list Z :=
  (str_or (get_text (find item (str "title"))) (str "无标题"),
   str_or (get_text (find item (str "link"))) (str "#")).

(** The new RSS structure (lines 111-138), before indentation. *)
Definition new_rss (capture_time_bj capture_time_gmt : aware) (description : pystr)
  : Element :=
  let agg_item :=
    Elem (str "item") [] [] []
      [leaf (str "title") []
         (str "微博热搜 - "
          ++ strftime (str "%Y年%m月%d日 %H:%M") (wall capture_time_bj));
       leaf (str "link") [] TOPHUB_URL;
       leaf (str "description") [] description;
       leaf (str "pubDate") [] (strftime RFC822 (wall capture_time_gmt));
       leaf (str "guid") [(str "isPermaLink", str "false")]
         (str "weibo-hot-"
          ++ strftime (str "%Y%m%d%H%M%S") (wall capture_time_bj))] in
  let out_channel :=
    Elem (str "channel") [] [] []
      [leaf (str "title") [] (str "微博热搜榜 - 聚合版");
       leaf (str "link") [] TOPHUB_URL;
       leaf (str "description") [] (str "每个条目包含一个时刻的所有热搜");
       leaf (str "language") [] (str "zh-cn");
       leaf (str "lastBuildDate") [] (strftime RFC822 (wall capture_time_gmt));
       agg_item] in
  Elem (str "rss")
    [(str "version", str "2.0");
     (str "xmlns:atom", str "http://www.w3.org/2005/Atom")]
    [] [] [out_channel].

(** From the parsed root to the element handed to the writer
    (lines 96-140). *)
Definition build_rss (root : Element) : result Element :=
  match find root (str "channel") with
  | None => Raise (ValueError "Missing channel in RSS input.")
  | Some channel =>
    let last_build_text := get_text (find channel (str "lastBuildDate")) in
    times <- parse_last_build_date bj_now (Some last_build_text) ;;
    let '(capture_time_bj, capture_time_gmt) := times in
    let items := map extract_item (findall channel (str "item")) in
    description <- build_description items capture_time_bj ;;
    Ok (indent (new_rss capture_time_bj capture_time_gmt description) 0)
  end.

(** [ET.parse(input_path).getroot()] *)
Definition parse_file (w : world) (input_path : string) : result Element :=
  match files w !! input_path with
  | None => Raise FileNotFoundError
  | Some NotXml => Raise ParseError
  | Some (XmlDocument root) => Ok root
  end.

(** [aggregate_rss(input_path, output_path)]: the world it leaves and how
    it ends. The output file is opened only by the last statement. *)
Definition aggregate_rss (input_path output_path : string) (w : world)
  : world * result unit :=
  match (root <- parse_file w input_path ;; build_rss root) with
  | Raise e => (w, Raise e)
  | Ok rss =>
    if writable w output_path
    then (mkworld (<[output_path := XmlDocument rss]> (files w)) (writable w), Ok tt)
    else (w, Raise PermissionError)
  end.

End Aggregator.


(** ** Sample inputs, for the examples below *)

(** A reading of the clock: 3 November 2026, 12:00:00.123456 in CST. *)
Definition sample_now : aware :=
  mkaware (mknaive 2026 11 3 12 0 0 123456) (mktzinfo "CST" 28800).

(** Python releases that do not validate bracketed hosts. *)
Definition no_bracket_check (_ : list Z) : bool := true.

Definition sample_item (title link : list Z) : Element :=
  Elem (str "item") [] [] [] [leaf (str "title") [] title; leaf (str "link") [] link].

(** A feed with a build date and two entries. *)
Definition sample_feed : Element :=
  Elem (str "rss") [(str "version", str "2.0")] [] []
    [Elem (str "channel") [] [] []
       [leaf (str "title") [] (str "微博热搜榜");
        leaf (str "lastBuildDate") [] (str "Wed, 15 Mar 2023 10:00:00 GMT");
        sample_item (str "first <topic>") (str "https://s.weibo.com/weibo?q=%23first%23");
        sample_item (str "second") (str "https://example.com/")]].

(** The (title, link) pairs of [sample_feed]. *)
Definition sample_items : list (list Z * list Z) :=
  [(str "first <topic>", str "https://s.weibo.com/weibo?q=%23first%23");
   (str "second", str "https://example.com/")].

(** The feed of the specification's example: a build date and no entry. *)
Definition empty_feed : Element :=
  Elem (str "rss") [] [] []
    [Elem (str "channel") [] [] []
       [leaf (str "lastBuildDate") [] (str "Wed, 15 Mar 2023 10:00:00 GMT")]].

(** A document whose root has no [channel] child. *)
Definition channelless_feed : Element :=
  Elem (str "feed") [] [] [] [leaf (str "title") [] (str "微博热搜榜")].

Definition sample_world (root : Element) : world :=
  mkworld {[ "demo_input.rss"%string := XmlDocument root ]} (fun _ => true).

(** An entry whose title holds only whitespace, spread over a child element,
    and whose link is missing. *)
Definition blank_title : Element :=
  Elem (str "title") [] (str " ") [] [Elem (str "b") [] [] [10; 12288] []].

Definition blank_item : Element := Elem (str "item") [] [] [] [blank_title].

Definition blank_channel : Element := Elem (str "channel") [] [] [] [blank_item].

(** ** Predicates used in the statements *)

(** The fields of a date and time of the calendar (the microsecond apart). *)
Definition valid_naive (d : naive) : Prop :=
  MINYEAR <= year d <= MAXYEAR
  /\ 1 <= month d <= 12
  /\ 1 <= day d <= days_in_month (year d) (month d)
  /\ 0 <= hour d <= 23 /\ 0 <= minute d <= 59 /\ 0 <= second d <= 59.

(** A reading of the clock whose universal time lies in the years 1 to 9999,
    as every value [datetime.now(tz)] builds from the system clock does. *)
Definition clock_ok (now : aware) : Prop :=
  86400 <= wall_seconds (wall now) - tz_utcoffset (tz now)
  < 86400 * (MAXORDINAL + 1).

(** The year, month, day, hour, minute and second of a wall time. *)
Definition wall_fields (d : naive) : Z * Z * Z * Z * Z * Z :=
  (year d, month d, day d, hour d, minute d, second d).

(** The integers [lo], [lo + 1], ..., [lo + len - 1]. *)
Definition zrange (lo : Z) (len : nat) : list Z :=
  map (fun k => lo + Z.of_nat k) (seq 0 len).

(** The group [TimeRE] holds for a directive. *)
Definition dir (c : Z) : regex :=
  match directive_regex c with
  | Some r => r
  | None => REmpty
  end.

(** The regular expression of the format [RFC822], as [pattern] builds it:
    [(?P<a>...),\s+(?P<d>...)\s+(?P<b>...)\s+(?P<Y>...)\s+(?P<H>...):(?P<M>...):(?P<S>...)\s+GMT]. *)
Definition RFC822_regex : regex :=
  RSeq (dir 97)
 (RSeq (RChar (CLit 44))
 (RSeq (RPlus CSpace)
 (RSeq (dir 100)
 (RSeq (RPlus CSpace)
 (RSeq (dir 98)
 (RSeq (RPlus CSpace)
 (RSeq (dir 89)
 (RSeq (RPlus CSpace)
 (RSeq (dir 72)
 (RSeq (RChar (CLit 58))
 (RSeq (dir 77)
 (RSeq (RChar (CLit 58))
 (RSeq (dir 83)
 (RSeq (RPlus CSpace)
 (RSeq (RChar (CLit 71))
 (RSeq (RChar (CLit 77))
 (RSeq (RChar (CLit 84)) REmpty))))))))))))))))).

(** [takes r pre delta P]: on an input that starts with [pre] and goes on
    with a rest satisfying [P], the first match of [r] that lets the
    continuation succeed consumes exactly [pre] and adds the groups
    [delta]. *)
Definition takes (r : regex) (pre : list Z) (delta : list (Z * list Z))
           (P : list Z -> Prop) : Prop :=
  forall (A : Type) (rest : list Z) (caps : list (Z * list Z))
         (k : list Z -> list (Z * list Z) -> list Z -> option A) (x : A),
    P rest -> k pre (delta ++ caps) rest = Some x ->
    rmatch r (pre ++ rest) caps k = Some x.

(** The rest does not start with whitespace. *)
Definition no_space_ahead (rest : list Z) : Prop :=
  match rest with
  | c :: _ => py_isspace c = false
  | [] => True
  end.

Definition any_rest (rest : list Z) : Prop := True.

(** What [strftime] prints for the format [RFC822], piece by piece. *)
Definition RFC822_text (d : naive) : list Z :=
  nth (Z.to_nat (weekday d)) DAYNAMES []
  ++ [44] ++ [32] ++ pad2 (day d)
  ++ [32] ++ nth (Z.to_nat (month d - 1)) MONTHNAMES []
  ++ [32] ++ decimal (year d)
  ++ [32] ++ pad2 (hour d) ++ [58] ++ pad2 (minute d) ++ [58] ++ pad2 (second d)
  ++ [32] ++ [71] ++ [77] ++ [84] ++ [].

(** The groups [RFC822_regex] captures in that text, the last one first. *)
Definition RFC822_groups (d : naive) : list (Z * list Z) :=
  [(83, pad2 (second d)); (77, pad2 (minute d)); (72, pad2 (hour d));
   (89, decimal (year d)); (98, nth (Z.to_nat (month d - 1)) MONTHNAMES []);
   (100, pad2 (day d)); (97, nth (Z.to_nat (weekday d)) DAYNAMES [])].

(** An element without its texts and tails: tags, attributes and children. *)
Fixpoint skeleton (e : Element) : Element :=
  match e with
  | Elem tag attrib _ _ children => Elem tag attrib [] [] (map skeleton children)
  end.

(** A text without its whitespace characters. *)
Definition remove_ws (s : list Z) : list Z :=
  List.filter (fun c => negb (py_isspace c)) s.

(** The non-whitespace characters [itertext] yields for an element. *)
Definition content (e : Element) : list Z := remove_ws (join [] (itertext e)).

(** A text that neither starts nor ends with whitespace. *)
Definition trimmed (s : list Z) : Prop :=
  match s with
  | [] => True
  | c :: _ => py_isspace c = false /\ py_isspace (List.last s c) = false
  end.

(** The tail [indent] leaves on an element of the given level. *)
Definition indented_tail (level : nat) (tail : list Z) : list Z :=
  match level with
  | O => tail
  | S _ => if blank tail then indent_text level else tail
  end.

(** The characters of a normalized link: letters, digits, [_.-~] and the
    delimiters [:/?=%] of the fixed search URL. *)
Definition url_char (c : Z) : bool :=
  ALWAYS_SAFE c || char_in c (str ":/?=%").

(** A later reading of the clock: 2 January 2031, 03:04:05.000006 in CST. *)
Definition later_now : aware :=
  mkaware (mknaive 2031 1 2 3 4 5 6) (mktzinfo "CST" 28800).

(** A Unicode scalar value: a code point that is not a surrogate. These are
    the characters of a text read from a well-formed XML document, and the
    ones UTF-8 encodes. *)
Definition is_scalar (c : Z) : bool :=
  (0 <=? c) && (c <? 1114112) && negb ((55296 <=? c) && (c <=? 57343)).

(** A link without square brackets and without the characters
    [_checknetloc] rejects. *)
Definition plain_link (s : list Z) : bool :=
  forallb (fun c => negb (char_in c (91 :: 93 :: NFKC_DELIMITER_LOOKALIKES))) s.

(** The search address of [SEARCH_URL] with its percent-escapes decoded. *)
Definition SEARCH_ADDRESS : pystr :=
  str "https://m.weibo.cn/search?containerid=100103type=1&q=".



(** * Properties *)

(** ** Ranges of integers *)

Lemma zrange_in (lo : Z) (len : nat) (n : Z) :
  lo <= n < lo + Z.of_nat len -> In n (zrange lo len).
Proof.
  intros H. unfold zrange. apply in_map_iff.
  exists (Z.to_nat (n - lo)). split; [lia|]. apply in_seq. lia.
Qed.

Lemma zrange_all (P : Z -> Prop) (lo : Z) (len : nat) :
  Forall P (zrange lo len) -> forall n, lo <= n < lo + Z.of_nat len -> P n.
Proof.
  intros H n Hn. rewrite List.Forall_forall in H. apply H, zrange_in, Hn.
Qed.

(** Case analysis on an integer of a range, one goal per value. *)
Ltac by_cases_on lo len :=
  match goal with
  | |- forall n, _ -> @?P n => apply (zrange_all P lo len)
  end;
  let l := eval vm_compute in (zrange lo len) in
  change (zrange lo len) with l;
  repeat apply List.Forall_cons; try apply List.Forall_nil.

(** ** Strings *)

Lemma lstrip_by_all (p : Z -> bool) (s : list Z) :
  forallb p s = true -> lstrip_by p s = [].
Proof.
  induction s as [|c s IH]; simpl; [reflexivity|].
  intros H. apply andb_prop in H as [Hc Hs]. rewrite Hc. auto.
Qed.

Lemma strip_all_space (s : list Z) :
  forallb py_isspace s = true -> strip s = [].
Proof. intros H. unfold strip. rewrite lstrip_by_all by exact H. reflexivity. Qed.

Lemma rstrip_by_app_keep (p : Z -> bool) (s : list Z) (c : Z) :
  p c = false -> rstrip_by p (s ++ [c]) = s ++ [c].
Proof.
  intros Hc. induction s as [|x s IH]; simpl.
  - rewrite Hc. reflexivity.
  - rewrite IH. destruct s; reflexivity.
Qed.

(** A string whose first and last characters are not whitespace is its own
    [strip]. *)
Lemma strip_id (c : Z) (s : list Z) (e : Z) :
  py_isspace c = false -> py_isspace e = false ->
  strip (c :: s ++ [e]) = c :: s ++ [e].
Proof.
  intros Hc He. unfold strip. simpl. rewrite Hc.
  change (c :: s ++ [e]) with ((c :: s) ++ [e]).
  apply rstrip_by_app_keep. exact He.
Qed.

Lemma split_ws_aux_spec (cur s : list Z) :
  join [] (split_ws_aux cur s)
  = rev cur ++ List.filter (fun c => negb (py_isspace c)) s.
Proof.
  revert cur. induction s as [|c s IH]; intros cur; simpl.
  - destruct cur; simpl; [reflexivity|]. rewrite app_nil_r. reflexivity.
  - destruct (py_isspace c); simpl.
    + destruct cur as [|x cur].
      * rewrite IH. reflexivity.
      * assert (Hj : forall (a : list Z) l, join [] (a :: l) = a ++ join [] l).
        { intros a l. destruct l; simpl; [rewrite app_nil_r|]; reflexivity. }
        rewrite Hj, IH. reflexivity.
    + rewrite IH. simpl. rewrite <- app_assoc. reflexivity.
Qed.

(** ["".join(s.split())] removes exactly the whitespace characters. *)
Lemma join_split_ws (s : list Z) :
  join [] (split_ws s) = List.filter (fun c => negb (py_isspace c)) s.
Proof. unfold split_ws. rewrite split_ws_aux_spec. reflexivity. Qed.

(** ** Elements *)


Lemma el_tag_set_tail (e : Element) (t : list Z) : el_tag (set_tail e t) = el_tag e.
Proof. destruct e; reflexivity. Qed.

Lemma count_tag_set_tail (tag : list Z) (e : Element) (t : list Z) :
  count_tag tag (set_tail e t) = count_tag tag e.
Proof. destruct e; reflexivity. Qed.

Lemma count_tag_set_last_tail (tag i : list Z) (cs : list Element) :
  map (count_tag tag) (set_last_tail i cs) = map (count_tag tag) cs.
Proof.
  induction cs as [|c cs IH]; [reflexivity|].
  destruct cs as [|c' cs].
  - simpl. destruct (blank (el_tail c)); [rewrite count_tag_set_tail|]; reflexivity.
  - change (set_last_tail i (c :: c' :: cs)) with (c :: set_last_tail i (c' :: cs)).
    rewrite !map_cons, IH. reflexivity.
Qed.

Lemma count_tag_eq (tag t : list Z) a tx tl (cs : list Element) :
  count_tag tag (Elem t a tx tl cs)
  = ((if str_eqb t tag then 1 else 0) + list_sum (map (count_tag tag) cs))%nat.
Proof. reflexivity. Qed.

Lemma indent_eq (t : list Z) a tx tl (c : Element) (cs : list Element) (level : nat) :
  indent (Elem t a tx tl (c :: cs)) level
  = Elem t a
         (if blank tx then indent_text level ++ str "  " else tx)
         (match level with
          | O => tl
          | S _ => if blank tl then indent_text level else tl
          end)
         (set_last_tail (indent_text level)
            (map (fun child => indent child (S level)) (c :: cs))).
Proof. reflexivity. Qed.

(** [indent] only rewrites texts and tails: it keeps every element. *)
Lemma count_tag_indent (tag : list Z) (e : Element) :
  forall level, count_tag tag (indent e level) = count_tag tag e.
Proof.
  induction e as [t a tx tl cs IH] using Element_ind. intros level.
  destruct cs as [|c cs].
  - destruct level; reflexivity.
  - rewrite indent_eq, !count_tag_eq, count_tag_set_last_tail, map_map.
    do 2 f_equal. apply map_ext_Forall.
    eapply List.Forall_impl; [|exact IH]. intros x Hx. apply Hx.
Qed.

(** ** The aggregator *)

Lemma build_rss_inv bok now root out :
  build_rss bok now root = Ok out ->
  exists channel bj gmt description,
    find root (str "channel") = Some channel
    /\ parse_last_build_date now
         (Some (get_text (find channel (str "lastBuildDate")))) = Ok (bj, gmt)
    /\ build_description bok (map extract_item (findall channel (str "item"))) bj
       = Ok description
    /\ out = indent (new_rss bj gmt description) 0.
Proof.
  unfold build_rss. intros H.
  destruct (find root (str "channel")) as [channel|]; [|discriminate].
  destruct (parse_last_build_date now _) as [[bj gmt]|] eqn:Hp;
    cbn [bind] in H; [|discriminate].
  destruct (build_description bok _ bj) as [description|] eqn:Hd;
    cbn [bind] in H; [|discriminate].
  injection H as <-. exists channel, bj, gmt, description. auto 10.
Qed.

Lemma aggregate_rss_inv bok now inp outp w w' :
  aggregate_rss bok now inp outp w = (w', Ok tt) ->
  exists root out,
    files w !! inp = Some (XmlDocument root)
    /\ build_rss bok now root = Ok out
    /\ writable w outp = true
    /\ w' = mkworld (<[outp := XmlDocument out]> (files w)) (writable w).
Proof.
  unfold aggregate_rss, parse_file. intros H.
  destruct (files w !! inp) as [[root|]|] eqn:Hf; simpl in H; try discriminate.
  destruct (build_rss bok now root) as [out|] eqn:Hb; [|discriminate].
  destruct (writable w outp) eqn:Hw; [|discriminate].
  injection H as <-. exists root, out. auto 10.
Qed.

(** Whenever a run ends with an exception, the world is the one it found. *)
Lemma aggregate_rss_raise_keeps_world bok now inp outp w e :
  snd (aggregate_rss bok now inp outp w) = Raise e ->
  fst (aggregate_rss bok now inp outp w) = w.
Proof.
  unfold aggregate_rss.
  destruct (bind _ _); [|reflexivity].
  destruct (writable w outp); [discriminate|reflexivity].
Qed.

Lemma new_rss_one_item bj gmt description :
  let out := indent (new_rss bj gmt description) 0 in
  count_tag (str "item") out = 1%nat
  /\ exists ch, find out (str "channel") = Some ch
                /\ length (findall ch (str "item")) = 1%nat.
Proof.
  split.
  - rewrite count_tag_indent. reflexivity.
  - eexists. split; reflexivity.
Qed.

(** C1: whatever the number N of item entries of the input channel (zero
    included), the document a completed run of [aggregate_rss] leaves at the
    output path contains exactly one [item] element: one in the whole tree,
    and it is a child of the output channel. *)
Theorem C1_output_has_exactly_one_item bok now inp outp w w' :
  aggregate_rss bok now inp outp w = (w', Ok tt) ->
  exists root channel N out out_channel,
    files w !! inp = Some (XmlDocument root)
    /\ find root (str "channel") = Some channel
    /\ length (findall channel (str "item")) = N
    /\ files w' !! outp = Some (XmlDocument out)
    /\ count_tag (str "item") out = 1%nat
    /\ find out (str "channel") = Some out_channel
    /\ length (findall out_channel (str "item")) = 1%nat.
Proof.
  intros H.
  apply aggregate_rss_inv in H as (root & out & Hin & Hb & _ & ->).
  apply build_rss_inv in Hb as (channel & bj & gmt & d & Hc & _ & _ & ->).
  destruct (new_rss_one_item bj gmt d) as (Hcount & ch & Hch & Hlen).
  exists root, channel, (length (findall channel (str "item"))),
    (indent (new_rss bj gmt d) 0), ch.
  simpl files. rewrite lookup_insert_eq. auto 10.
Qed.

(** C7: when the root of the input document has no [channel] child,
    [aggregate_rss] raises [ValueError("Missing channel in RSS input.")] and
    leaves the world, the output path included, as it found it; and no run
    that raises, for whatever reason, has written anything. *)
Theorem C7_missing_channel_raises_and_writes_nothing bok now inp outp w root :
  files w !! inp = Some (XmlDocument root) ->
  find root (str "channel") = None ->
  aggregate_rss bok now inp outp w
  = (w, Raise (ValueError "Missing channel in RSS input."))
  /\ (forall inp' outp' w0 e,
         snd (aggregate_rss bok now inp' outp' w0) = Raise e ->
         fst (aggregate_rss bok now inp' outp' w0) = w0).
Proof.
  intros Hf Hc. split.
  - unfold aggregate_rss, parse_file, build_rss. rewrite Hf. simpl.
    rewrite Hc. reflexivity.
  - intros. eapply aggregate_rss_raise_keeps_world. eassumption.
Qed.

Lemma C1_witness :
  exists root channel N out out_channel,
    files (sample_world sample_feed) !! "demo_input.rss"%string = Some (XmlDocument root)
    /\ find root (str "channel") = Some channel
    /\ length (findall channel (str "item")) = N
    /\ files (fst (aggregate_rss no_bracket_check sample_now "demo_input.rss"
                     "demo_output.rss" (sample_world sample_feed)))
         !! "demo_output.rss"%string = Some (XmlDocument out)
    /\ count_tag (str "item") out = 1%nat
    /\ find out (str "channel") = Some out_channel
    /\ length (findall out_channel (str "item")) = 1%nat.
Proof.
  apply (C1_output_has_exactly_one_item no_bracket_check sample_now).
  vm_compute. reflexivity.
Defined.

Lemma C7_witness :
  aggregate_rss no_bracket_check sample_now "demo_input.rss" "demo_output.rss"
    (sample_world channelless_feed)
  = (sample_world channelless_feed, Raise (ValueError "Missing channel in RSS input."))
  /\ (forall inp' outp' w0 e,
         snd (aggregate_rss no_bracket_check sample_now inp' outp' w0) = Raise e ->
         fst (aggregate_rss no_bracket_check sample_now inp' outp' w0) = w0).
Proof.
  apply (C7_missing_channel_raises_and_writes_nothing no_bracket_check sample_now
           "demo_input.rss" "demo_output.rss" (sample_world channelless_feed)
           channelless_feed).
  - vm_compute. reflexivity.
  - vm_compute. reflexivity.
Defined.

(** ** Entries with a missing or blank title or link *)

Lemma get_text_blank (e : Element) :
  forallb py_isspace (join [] (itertext e)) = true -> get_text (Some e) = [].
Proof. intros H. unfold get_text. apply strip_all_space. exact H. Qed.

(** C10: when the [title] (or [link]) child of an entry is present but its
    joined text is empty or made of whitespace only, [get_text] returns the
    empty string and the entry gets the same placeholder as when the child
    is missing. *)
Theorem C10_blank_title_and_link_get_placeholders (item e : Element) :
  forallb py_isspace (join [] (itertext e)) = true ->
  get_text (Some e) = []
  /\ (find item (str "title") = Some e -> fst (extract_item item) = str "无标题")
  /\ (find item (str "link") = Some e -> snd (extract_item item) = str "#").
Proof.
  intros H. pose proof (get_text_blank e H) as Hg.
  split; [exact Hg|split]; intros Hf; unfold extract_item; rewrite Hf, Hg;
    reflexivity.
Qed.

Lemma C10_witness :
  get_text (Some blank_title) = []
  /\ fst (extract_item blank_item) = str "无标题".
Proof.
  destruct (C10_blank_title_and_link_get_placeholders blank_item blank_title)
    as (H1 & H2 & _).
  - vm_compute. reflexivity.
  - split; [exact H1|]. apply H2. vm_compute. reflexivity.
Defined.

(** ** html.escape *)

Lemma flat_map_flat_map {A B C : Type} (f : A -> list B) (g : B -> list C) (l : list A) :
  flat_map g (flat_map f l) = flat_map (fun x => flat_map g (f x)) l.
Proof.
  induction l as [|x l IH]; simpl; [reflexivity|].
  rewrite flat_map_app, IH. reflexivity.
Qed.

Lemma esc_char_spec (c : Z) :
  replace_char 39 (str "&#x27;")
    (replace_char 34 (str "&quot;")
       (replace_char 62 (str "&gt;")
          (replace_char 60 (str "&lt;")
             (replace_char 38 (str "&amp;") [c]))))
  = esc_char c.
Proof.
  unfold esc_char.
  destruct (Z.eqb_spec c 38) as [->|H1]; [vm_compute; reflexivity|].
  destruct (Z.eqb_spec c 60) as [->|H2]; [vm_compute; reflexivity|].
  destruct (Z.eqb_spec c 62) as [->|H3]; [vm_compute; reflexivity|].
  destruct (Z.eqb_spec c 34) as [->|H4]; [vm_compute; reflexivity|].
  destruct (Z.eqb_spec c 39) as [->|H5]; [vm_compute; reflexivity|].
  unfold replace_char, char_eqb. cbn [flat_map app].
  apply Z.eqb_neq in H1, H2, H3, H4, H5.
  rewrite H1. cbn [flat_map app]. rewrite H2. cbn [flat_map app].
  rewrite H3. cbn [flat_map app]. rewrite H4. cbn [flat_map app].
  rewrite H5. reflexivity.
Qed.

(** [html.escape] works character by character. *)
Lemma html_escape_flat_map (s : list Z) : html_escape s = flat_map esc_char s.
Proof.
  unfold html_escape.
  induction s as [|c s IH]; [reflexivity|].
  change (flat_map esc_char (c :: s)) with (esc_char c ++ flat_map esc_char s).
  rewrite <- IH, <- (esc_char_spec c).
  change (c :: s) with ([c] ++ s).
  unfold replace_char. rewrite !flat_map_app. reflexivity.
Qed.

Lemma esc_char_cases (c : Z) :
  (markup_char c = false /\ c <> 38 /\ esc_char c = [c]) \/ In (esc_char c) ENTITIES.
Proof.
  unfold esc_char, markup_char.
  destruct (Z.eqb_spec c 38) as [->|H1]; [right; vm_compute; tauto|].
  destruct (Z.eqb_spec c 60) as [->|H2]; [right; vm_compute; tauto|].
  destruct (Z.eqb_spec c 62) as [->|H3]; [right; vm_compute; tauto|].
  destruct (Z.eqb_spec c 34) as [->|H4]; [right; vm_compute; tauto|].
  destruct (Z.eqb_spec c 39) as [->|H5]; [right; vm_compute; tauto|].
  left. auto.
Qed.

Lemma html_escape_escaped (s : list Z) : escaped (html_escape s).
Proof.
  rewrite html_escape_flat_map.
  induction s as [|c s IH]; simpl; [constructor|].
  destruct (esc_char_cases c) as [(Hm & Hc & ->)|Hin].
  - apply escaped_plain; assumption.
  - apply escaped_entity; assumption.
Qed.

Lemma html_escape_no_markup (s : list Z) :
  Forall (fun c => markup_char c = false) (html_escape s).
Proof.
  rewrite html_escape_flat_map.
  induction s as [|c s IH]; simpl; [constructor|].
  apply Forall_app. split; [|exact IH].
  destruct (esc_char_cases c) as [(Hm & Hc & ->)|Hin].
  - repeat constructor. exact Hm.
  - revert Hin. generalize (esc_char c). intros e Hin.
    vm_compute in Hin.
    repeat (destruct Hin as [<-|Hin]; [repeat constructor|]). destruct Hin.
Qed.

(** ** build_description *)

Lemma item_lines_inv bok (items : list (list Z * list Z)) (lines : list (list Z)) :
  item_lines bok items = Ok lines ->
  exists links : list (list Z),
    Forall2 (fun item link => normalize_weibo_link bok (fst item) (snd item) = Ok link)
            items links
    /\ lines = map (fun p => li_line (html_escape (snd p)) (html_escape (fst (fst p))))
                   (combine items links).
Proof.
  revert lines. induction items as [|[title link] items IH]; intros lines H.
  - injection H as <-. exists []. split; [constructor|reflexivity].
  - cbn [item_lines] in H. unfold item_line in H.
    destruct (normalize_weibo_link bok title link) as [link'|] eqn:Hn;
      cbn [bind] in H; [|discriminate].
    destruct (item_lines bok items) as [lines'|]; cbn [bind] in H; [|discriminate].
    injection H as <-.
    destruct (IH lines' eq_refl) as (links & Hall & ->).
    exists (link' :: links). split; [constructor; assumption|reflexivity].
Qed.

(** C6: in the description [build_description] renders, the line of every
    entry is [<li><a href=.. target=.. >title</a></li>] with the title (and
    the normalized link) passed through [html.escape] with quotes. Escaping
    a title replaces each ampersand, less-than, greater-than, double quote
    and single quote by its entity, in place, and keeps every other
    character; so the escaped title holds none of the characters less-than,
    greater-than, double quote or single quote, and an ampersand only as the
    start of one of the five entities: no title contributes a markup
    character of its own. *)
Theorem C6_titles_are_html_escaped bok (items : list (list Z * list Z))
        (capture_time : aware) (description : list Z) :
  build_description bok items capture_time = Ok description ->
  (exists links : list (list Z),
      Forall2 (fun item link => normalize_weibo_link bok (fst item) (snd item) = Ok link)
              items links
      /\ description
         = join [10]
             ([str "<h2>微博热搜榜</h2>"; str "<ol>"]
              ++ map (fun p => li_line (html_escape (snd p)) (html_escape (fst (fst p))))
                     (combine items links)
              ++ [str "</ol>"; capture_line capture_time])
      /\ description
         = join [10]
             ([str "<h2>微博热搜榜</h2>"; str "<ol>"]
              ++ map (fun p =>
                        str "<li><a href=" ++ [34] ++ html_escape (snd p) ++ [34]
                        ++ str " target=" ++ [34] ++ str "_blank" ++ [34] ++ str ">"
                        ++ html_escape (fst (fst p)) ++ str "</a></li>")
                     (combine items links)
              ++ [str "</ol>"; capture_line capture_time]))
  /\ Forall (fun item =>
               html_escape (fst item)
               = flat_map (fun c => if c =? 38 then str "&amp;"
                                    else if c =? 60 then str "&lt;"
                                    else if c =? 62 then str "&gt;"
                                    else if c =? 34 then str "&quot;"
                                    else if c =? 39 then str "&#x27;"
                                    else [c]) (fst item)
               /\ Forall (fun c => markup_char c = false) (html_escape (fst item))
               /\ Forall (fun c => c <> 60 /\ c <> 62 /\ c <> 34 /\ c <> 39)
                         (html_escape (fst item))
               /\ escaped (html_escape (fst item))) items.
Proof.
  unfold build_description. intros H.
  destruct (item_lines bok items) as [lines|] eqn:Hl; cbn [bind] in H; [|discriminate].
  injection H as <-.
  apply item_lines_inv in Hl as (links & Hall & ->).
  split.
  - exists links. split; [exact Hall|]. split; reflexivity.
  - apply Forall_forall. intros item _. split; [|split; [|split]].
    + exact (html_escape_flat_map (fst item)).
    + apply html_escape_no_markup.
    + eapply List.Forall_impl; [|apply html_escape_no_markup].
      intros c Hc. unfold markup_char in Hc.
      apply orb_false_elim in Hc as [Hc H39]. apply orb_false_elim in Hc as [Hc H34].
      apply orb_false_elim in Hc as [H60 H62].
      apply Z.eqb_neq in H60, H62, H34, H39. auto.
    + apply html_escape_escaped.
Qed.

Lemma C6_witness :
  exists description,
    build_description no_bracket_check sample_items sample_now = Ok description
    /\ ((exists links : list (list Z),
            Forall2 (fun item link =>
                       normalize_weibo_link no_bracket_check (fst item) (snd item)
                       = Ok link) sample_items links
            /\ description
               = join [10]
                   ([str "<h2>微博热搜榜</h2>"; str "<ol>"]
                    ++ map (fun p => li_line (html_escape (snd p))
                                             (html_escape (fst (fst p))))
                           (combine sample_items links)
                    ++ [str "</ol>"; capture_line sample_now])
            /\ description
               = join [10]
                   ([str "<h2>微博热搜榜</h2>"; str "<ol>"]
                    ++ map (fun p =>
                              str "<li><a href=" ++ [34] ++ html_escape (snd p) ++ [34]
                              ++ str " target=" ++ [34] ++ str "_blank" ++ [34]
                              ++ str ">"
                              ++ html_escape (fst (fst p)) ++ str "</a></li>")
                           (combine sample_items links)
                    ++ [str "</ol>"; capture_line sample_now]))
        /\ Forall (fun item =>
                     html_escape (fst item)
                     = flat_map (fun c => if c =? 38 then str "&amp;"
                                          else if c =? 60 then str "&lt;"
                                          else if c =? 62 then str "&gt;"
                                          else if c =? 34 then str "&quot;"
                                          else if c =? 39 then str "&#x27;"
                                          else [c]) (fst item)
                     /\ Forall (fun c => markup_char c = false) (html_escape (fst item))
                     /\ Forall (fun c => c <> 60 /\ c <> 62 /\ c <> 34 /\ c <> 39)
                               (html_escape (fst item))
                     /\ escaped (html_escape (fst item))) sample_items).
Proof.
  assert (Hd : exists d,
             build_description no_bracket_check sample_items sample_now = Ok d)
    by (eexists; vm_compute; reflexivity).
  destruct Hd as [d Hd]. exists d. split; [exact Hd|].
  exact (C6_titles_are_html_escaped _ _ _ _ Hd).
Defined.

(** ** urllib.parse *)

Lemma str_eqb_eq (a b : list Z) : str_eqb a b = true <-> a = b.
Proof.
  revert b. induction a as [|x a IH]; intros [|y b]; simpl; split;
    try discriminate; try reflexivity.
  - intros H. apply andb_prop in H as [H1 H2]. apply Z.eqb_eq in H1.
    apply IH in H2. congruence.
  - intros H. injection H as -> ->. apply andb_true_intro. split.
    + apply Z.eqb_refl.
    + apply IH. reflexivity.
Qed.

Lemma str_eqb_refl (a : list Z) : str_eqb a a = true.
Proof. apply str_eqb_eq. reflexivity. Qed.

Lemma str_eqb_neq (a b : list Z) : a <> b -> str_eqb a b = false.
Proof.
  intros H. destruct (str_eqb a b) eqn:E; [|reflexivity].
  apply str_eqb_eq in E. contradiction.
Qed.

Lemma parse_qs_fold (pairs : list (list Z * list Z)) :
  forall d : gmap (list Z) (list (list Z)),
    (forall k, d !! k <> Some []) ->
    forall k,
      fold_left parse_qs_add pairs d !! k
      = match default [] (d !! k) ++ values_of k pairs with
        | [] => None
        | vs => Some vs
        end.
Proof.
  induction pairs as [|[n v] pairs IH]; intros d Hd k.
  - cbn [fold_left]. unfold values_of. cbn [List.filter map].
    rewrite app_nil_r. specialize (Hd k).
    destruct (d !! k) as [[|x vs]|]; simpl; congruence.
  - cbn [fold_left]. rewrite IH.
    + unfold parse_qs_add, values_of. cbn [fst snd List.filter].
      destruct (decide (n = k)) as [->|Hne].
      * rewrite str_eqb_refl. cbn [map].
        destruct (d !! k) as [vs|] eqn:E.
        -- rewrite lookup_insert_eq. cbn [default from_option id snd].
           rewrite <- app_assoc. reflexivity.
        -- rewrite lookup_insert_eq. reflexivity.
      * rewrite (str_eqb_neq n k Hne).
        destruct (d !! n) as [vs|] eqn:E;
          rewrite lookup_insert_ne by exact Hne; reflexivity.
    + intros k'. unfold parse_qs_add. cbn [fst snd].
      destruct (d !! n) as [vs|] eqn:E;
        (destruct (decide (n = k')) as [->|Hne];
         [rewrite lookup_insert_eq|rewrite lookup_insert_ne by exact Hne; apply Hd]).
      * destruct vs; discriminate.
      * discriminate.
Qed.

(** [parse_qs] maps a name to the list of its values in query order, and
    has no entry for a name without value. *)
Lemma parse_qs_lookup (qs k : list Z) :
  parse_qs qs !! k
  = match values_of k (parse_qsl qs) with
    | [] => None
    | vs => Some vs
    end.
Proof.
  unfold parse_qs. rewrite parse_qs_fold.
  - rewrite lookup_empty. reflexivity.
  - intros k'. rewrite lookup_empty. discriminate.
Qed.

Lemma parse_qs_empty (qs : list Z) : parse_qs qs = ∅ <-> parse_qsl qs = [].
Proof.
  split.
  - intros H. destruct (parse_qsl qs) as [|[n v] pairs] eqn:E; [reflexivity|].
    pose proof (parse_qs_lookup qs n) as Hl.
    rewrite H, lookup_empty, E in Hl. unfold values_of in Hl.
    cbn [List.filter fst] in Hl. rewrite str_eqb_refl in Hl. discriminate.
  - intros H. unfold parse_qs. rewrite H. reflexivity.
Qed.

(** The keyword taken from the query: the first value of [q], stripped;
    the [IndexError] of [[0]] cannot occur. *)
Lemma query_keyword (qs : list Z) :
  (if decide (parse_qs qs = ∅) then Ok []
   else match default [[]] (parse_qs qs !! str "q") with
        | v :: _ => Ok (strip v)
        | [] => Raise IndexError
        end)
  = Ok (strip (hd [] (values_of (str "q") (parse_qsl qs)))).
Proof.
  destruct (decide (parse_qs qs = ∅)) as [He|He].
  - apply parse_qs_empty in He. rewrite He. reflexivity.
  - rewrite parse_qs_lookup.
    destruct (values_of (str "q") (parse_qsl qs)) as [|v vs]; reflexivity.
Qed.

Ltac Zify.zify_post_hook ::= Z.to_euclidean_division_equations.

Lemma utf8_encode_char_bytes (c : Z) (bs : list Z) :
  utf8_encode_char c = Some bs -> Forall (fun b => 0 <= b < 256) bs.
Proof.
  unfold utf8_encode_char.
  repeat match goal with
         | |- context [if ?b then _ else _] => destruct b eqn:?
         end; intros H; try discriminate; injection H as <-;
    repeat constructor; lia.
Qed.

Lemma utf8_encode_bytes (s bs : list Z) :
  utf8_encode s = Ok bs -> Forall (fun b => 0 <= b < 256) bs.
Proof.
  revert bs. induction s as [|c s IH]; intros bs H.
  - injection H as <-. constructor.
  - cbn [utf8_encode] in H.
    destruct (utf8_encode_char c) as [cb|] eqn:Hc; [|discriminate].
    destruct (utf8_encode s) as [rest|]; cbn [bind] in H; [|discriminate].
    injection H as <-. apply Forall_app. split.
    + eapply utf8_encode_char_bytes. exact Hc.
    + apply IH. reflexivity.
Qed.

Lemma hex_upper_safe (n : Z) : 0 <= n < 16 -> ALWAYS_SAFE (hex_upper n) = true.
Proof.
  intros H. assert (H' : 0 <= n < 0 + Z.of_nat 16) by lia. revert n H' H.
  by_cases_on 0 16%nat; intros _; vm_compute; reflexivity.
Qed.

(** With no safe character given, [quote] is the percent-encoding of the
    UTF-8 bytes, and its result is made of unreserved characters and [%]. *)
Lemma quote_spec (s enc : list Z) :
  quote s [] = Ok enc ->
  exists bs, utf8_encode s = Ok bs
             /\ enc = percent_encoded bs
             /\ Forall (fun c => ALWAYS_SAFE c || (c =? 37) = true) enc.
Proof.
  intros H.
  assert (Hq : exists bs, utf8_encode s = Ok bs /\ enc = percent_encoded bs).
  { destruct s as [|c s].
    - injection H as <-. exists []. split; reflexivity.
    - unfold quote in H.
      destruct (utf8_encode (c :: s)) as [bs|]; cbn [bind] in H; [|discriminate].
      injection H as <-. exists bs. split; [reflexivity|].
      unfold quote_from_bytes, percent_encoded. apply flat_map_ext.
      intros b. unfold quote_byte. cbn [char_in existsb].
      rewrite andb_false_r, orb_false_r. reflexivity. }
  destruct Hq as (bs & Hbs & ->). exists bs. split; [exact Hbs|split; [reflexivity|]].
  apply utf8_encode_bytes in Hbs. unfold percent_encoded. clear H.
  induction Hbs as [|b bs Hb _ IH]; cbn [flat_map]; [constructor|].
  apply Forall_app. split; [|exact IH].
  destruct (ALWAYS_SAFE b) eqn:Hs.
  - repeat constructor. rewrite Hs. reflexivity.
  - repeat constructor.
    + rewrite hex_upper_safe by lia. reflexivity.
    + rewrite hex_upper_safe by lia. reflexivity.
Qed.

(** ** normalize_weibo_link *)

Lemma normalize_weibo_link_eq bok (title raw_link : list Z) :
  normalize_weibo_link bok title raw_link
  = (parsed <- urlparse bok (List.filter (fun c => negb (py_isspace c)) raw_link) ;;
     let first_q := hd [] (values_of (str "q") (parse_qsl (query parsed))) in
     let keyword := match strip first_q with
                    | [] => strip title
                    | _ :: _ => strip first_q
                    end in
     encoded_keyword <- quote keyword [] ;;
     Ok (SEARCH_URL ++ encoded_keyword)).
Proof.
  unfold normalize_weibo_link. rewrite join_split_ws.
  destruct (urlparse bok _) as [parsed|]; cbn [bind]; [|reflexivity].
  rewrite query_keyword. reflexivity.
Qed.

(** C5 as the code has it: whenever [normalize_weibo_link] returns, the link
    was parsed with every whitespace character removed; the keyword is the
    first value of the query parameter [q] with surrounding whitespace
    stripped, or the stripped title when that is empty (no [q], or a value
    of whitespace only); the result is the fixed search URL followed by the
    percent-encoding of the keyword's UTF-8 bytes, in which only letters,
    digits and [_.-~] stay as they are. For the link
    [https://example.com/?q=keywordA] the keyword is [keywordA], and for a
    link without [q] and the title [fallback title] it is the encoding
    [fallback%20title]. *)
Theorem C5_normalize_weibo_link_spec bok (title raw_link result : list Z) :
  normalize_weibo_link bok title raw_link = Ok result ->
  (exists parsed bytes,
      urlparse bok (List.filter (fun c => negb (py_isspace c)) raw_link) = Ok parsed
      /\ let first_q := hd [] (values_of (str "q") (parse_qsl (query parsed))) in
         let keyword := match strip first_q with
                        | [] => strip title
                        | _ :: _ => strip first_q
                        end in
         utf8_encode keyword = Ok bytes
         /\ result = SEARCH_URL ++ percent_encoded bytes
         /\ Forall (fun c => ALWAYS_SAFE c || (c =? 37) = true) (percent_encoded bytes))
  /\ normalize_weibo_link bok (str "ignored") (str "https://example.com/?q=keywordA")
     = Ok (SEARCH_URL ++ str "keywordA")
  /\ normalize_weibo_link bok (str "fallback title") (str "https://example.com/")
     = Ok (SEARCH_URL ++ str "fallback%20title").
Proof.
  intros H. split; [|split; vm_compute; reflexivity].
  rewrite normalize_weibo_link_eq in H.
  destruct (urlparse bok _) as [parsed|]; cbn [bind] in H; [|discriminate].
  cbv zeta in H.
  destruct (quote _ []) as [enc|] eqn:Hq; cbn [bind] in H; [|discriminate].
  injection H as <-.
  apply quote_spec in Hq as (bytes & Hb & -> & Hall).
  exists parsed, bytes. cbv zeta. auto.
Qed.

Lemma C5_witness :
  exists result,
    normalize_weibo_link no_bracket_check (str "first")
      (str " https://s.weibo.com/weibo?q=%23first%23&Refer=top ") = Ok result
    /\ exists parsed bytes,
        urlparse no_bracket_check
          (List.filter (fun c => negb (py_isspace c))
             (str " https://s.weibo.com/weibo?q=%23first%23&Refer=top ")) = Ok parsed
        /\ let first_q := hd [] (values_of (str "q") (parse_qsl (query parsed))) in
           let keyword := match strip first_q with
                          | [] => strip (str "first")
                          | _ :: _ => strip first_q
                          end in
           utf8_encode keyword = Ok bytes
           /\ result = SEARCH_URL ++ percent_encoded bytes
           /\ Forall (fun c => ALWAYS_SAFE c || (c =? 37) = true) (percent_encoded bytes).
Proof.
  assert (Hr : exists r,
             normalize_weibo_link no_bracket_check (str "first")
               (str " https://s.weibo.com/weibo?q=%23first%23&Refer=top ") = Ok r)
    by (eexists; vm_compute; reflexivity).
  destruct Hr as [r Hr]. exists r. split; [exact Hr|].
  exact (proj1 (C5_normalize_weibo_link_spec _ _ _ _ Hr)).
Defined.

(** C5 as stated fails twice: a link with an unmatched bracket in its host
    makes [urlparse], and with it [normalize_weibo_link], raise
    [ValueError]; and the value of [q] is stripped before use, so the value
    [" a"] (written [+a]) gives the keyword [a], not [%20a]. *)
Lemma C5_counterexample :
  normalize_weibo_link no_bracket_check (str "title") (str "http://[")
  = Raise (ValueError "Invalid IPv6 URL")
  /\ hd [] (values_of (str "q") (parse_qsl (str "q=+a"))) = str " a"
  /\ normalize_weibo_link no_bracket_check (str "title") (str "https://example.com/?q=+a")
     = Ok (SEARCH_URL ++ str "a").
Proof. repeat split; vm_compute; reflexivity. Qed.

(** ** The calendar *)

Lemma days_before_year_cycles (q a b c : Z) :
  0 <= a <= 3 -> 0 <= b <= 24 -> 0 <= c <= 3 ->
  days_before_year (400 * q + 100 * a + 4 * b + c + 1)
  = 146097 * q + 36524 * a + 1461 * b + 365 * c.
Proof. intros Ha Hb Hc. unfold days_before_year. lia. Qed.

Lemma is_leap_cycles (q a b c : Z) :
  0 <= a <= 3 -> 0 <= b <= 24 -> 0 <= c <= 3 ->
  is_leap (400 * q + 100 * a + 4 * b + c + 1)
  = (c =? 3) && (negb (b =? 24) || (a =? 3)).
Proof.
  intros Ha Hb Hc. unfold is_leap.
  repeat match goal with
         | |- context [?x =? ?y] => destruct (Z.eqb_spec x y)
         end; simpl; try reflexivity; exfalso; lia.
Qed.

Lemma month_day_checked :
  forallb (fun k => month_day_ok true (Z.of_nat k)) (seq 0 366)
  && forallb (fun k => month_day_ok false (Z.of_nat k)) (seq 0 365) = true.
Proof. vm_compute. reflexivity. Qed.

Lemma month_day_spec (leapyear : bool) (n : Z) :
  0 <= n < 365 + b2z leapyear -> month_day_ok leapyear n = true.
Proof.
  intros Hn. pose proof month_day_checked as H.
  apply andb_prop in H as [Ht Hf].
  rewrite <- (Z2Nat.id n) by lia.
  destruct leapyear; cbn [b2z] in Hn.
  - rewrite forallb_forall in Ht. apply Ht. apply in_seq. lia.
  - rewrite forallb_forall in Hf. apply Hf. apply in_seq. lia.
Qed.

Lemma days_before_month_12 (y : Z) : days_before_month y 12 = 334 + b2z (is_leap y).
Proof. reflexivity. Qed.

Lemma days_in_month_12 (y : Z) : days_in_month y 12 = 31.
Proof. reflexivity. Qed.

(** [_ord2ymd] inverts [_ymd2ord] and returns a date of the calendar. *)
Lemma ord2ymd_spec (n : Z) :
  let '(y, m, d) := ord2ymd n in
  ymd2ord y m d = n /\ 1 <= m <= 12 /\ 1 <= d <= days_in_month y m
  /\ (1 <= n <= MAXORDINAL -> MINYEAR <= y <= MAXYEAR).
Proof.
  unfold ord2ymd, DI400Y, DI100Y, DI4Y, MAXORDINAL, MINYEAR, MAXYEAR.
  pose proof (Z.div_mod (n - 1) 146097 ltac:(lia)) as E400.
  pose proof (Z.mod_pos_bound (n - 1) 146097 ltac:(lia)) as B400.
  set (n400 := (n - 1) / 146097) in *. set (r400 := (n - 1) mod 146097) in *.
  pose proof (Z.div_mod r400 36524 ltac:(lia)) as E100.
  pose proof (Z.mod_pos_bound r400 36524 ltac:(lia)) as B100.
  set (n100 := r400 / 36524) in *. set (r100 := r400 mod 36524) in *.
  pose proof (Z.div_mod r100 1461 ltac:(lia)) as E4.
  pose proof (Z.mod_pos_bound r100 1461 ltac:(lia)) as B4.
  set (n4 := r100 / 1461) in *. set (r4 := r100 mod 1461) in *.
  pose proof (Z.div_mod r4 365 ltac:(lia)) as E1.
  pose proof (Z.mod_pos_bound r4 365 ltac:(lia)) as B1.
  set (n1 := r4 / 365) in *. set (r1 := r4 mod 365) in *.
  clearbody n400 r400 n100 r100 n4 r4 n1 r1.
  assert (H100 : 0 <= n100 <= 4) by lia.
  assert (H4 : 0 <= n4 <= 24) by lia.
  assert (H1 : 0 <= n1 <= 4) by lia.
  destruct ((n1 =? 4) || (n100 =? 4)) eqn:Hend.
  - (* the last day of a 4-year or 400-year cycle *)
    assert (Hend' : n1 = 4 \/ n100 = 4)
      by (apply orb_prop in Hend as [H|H]; apply Z.eqb_eq in H; auto).
    clear Hend.
    assert (Hy : n400 * 400 + 1 + n100 * 100 + n4 * 4 + n1 - 1
                 = 400 * n400 + 100 * (if n100 =? 4 then 3 else n100)
                   + 4 * (if n100 =? 4 then 24 else n4) + 3 + 1).
    { destruct (Z.eqb_spec n100 4); destruct (Z.eqb_spec n1 4); lia. }
    rewrite Hy. unfold ymd2ord.
    assert (Hb : 0 <= (if n100 =? 4 then 3 else n100) <= 3)
      by (destruct (Z.eqb_spec n100 4); lia).
    assert (Hc : 0 <= (if n100 =? 4 then 24 else n4) <= 24)
      by (destruct (Z.eqb_spec n100 4); lia).
    rewrite days_before_month_12, days_in_month_12.
    rewrite days_before_year_cycles, is_leap_cycles by lia.
    change (3 =? 3) with true. cbn [andb].
    destruct (Z.eqb_spec n100 4); destruct (Z.eqb_spec n1 4);
      repeat match goal with
             | |- context [?x =? ?y] => destruct (Z.eqb_spec x y)
             end; cbn [negb orb b2z]; lia.
  - apply orb_false_elim in Hend as [Hn1 Hn100].
    apply Z.eqb_neq in Hn1, Hn100.
    set (leapyear := (n1 =? 3) && (negb (n4 =? 24) || (n100 =? 3))).
    assert (Hr1 : 0 <= r1 < 365 + b2z leapyear).
    { destruct leapyear; cbn [b2z]; lia. }
    pose proof (month_day_spec leapyear r1 Hr1) as Hmd.
    unfold month_day_ok in Hmd.
    destruct (month_day leapyear r1) as [m d].
    assert (Hy : n400 * 400 + 1 + n100 * 100 + n4 * 4 + n1
                 = 400 * n400 + 100 * n100 + 4 * n4 + n1 + 1) by lia.
    rewrite Hy. unfold ymd2ord, days_before_month, days_in_month.
    rewrite days_before_year_cycles, is_leap_cycles by lia.
    fold leapyear.
    repeat (apply andb_prop in Hmd as [Hmd ?]).
    repeat match goal with
           | H : (_ <=? _) = true |- _ => apply Z.leb_le in H
           | H : (_ =? _) = true |- _ => apply Z.eqb_eq in H
           end.
    lia.
Qed.

(** ** Arithmetic on datetimes *)

Lemma add_seconds_spec (d : naive) (delta : Z) (d' : naive) :
  add_seconds d delta = Ok d' ->
  wall_seconds d' = wall_seconds d + delta
  /\ microsecond d' = microsecond d
  /\ valid_naive d'
  /\ 1 <= toordinal d' <= MAXORDINAL.
Proof.
  unfold add_seconds. intros H.
  set (total := wall_seconds d + delta) in *.
  destruct ((0 <? total / 86400) && (total / 86400 <=? MAXORDINAL)) eqn:Hr;
    [|discriminate].
  apply andb_prop in Hr as [Hlo Hhi].
  apply Z.ltb_lt in Hlo. apply Z.leb_le in Hhi.
  pose proof (ord2ymd_spec (total / 86400)) as Hs.
  destruct (ord2ymd (total / 86400)) as [[y m] dd].
  destruct Hs as (Hord & Hm & Hd & Hy).
  injection H as <-.
  unfold wall_seconds, toordinal, valid_naive. cbn [year month day hour minute second microsecond].
  rewrite Hord.
  pose proof (Z.div_mod total 86400 ltac:(lia)) as E.
  pose proof (Z.mod_pos_bound total 86400 ltac:(lia)) as B.
  set (q := total / 86400) in *. set (r := total mod 86400) in *.
  clearbody q r.
  specialize (Hy ltac:(lia)).
  repeat split; try lia.
Qed.

Lemma add_seconds_ok (d : naive) (delta : Z) :
  86400 <= wall_seconds d + delta < 86400 * (MAXORDINAL + 1) ->
  exists d', add_seconds d delta = Ok d'.
Proof.
  unfold add_seconds, MAXORDINAL. intros H.
  set (total := wall_seconds d + delta) in *.
  assert (Hr : (0 <? total / 86400) && (total / 86400 <=? 3652059) = true).
  { apply andb_true_intro. split; [apply Z.ltb_lt|apply Z.leb_le]; lia. }
  unfold MAXORDINAL. rewrite Hr.
  destruct (ord2ymd (total / 86400)) as [[y m] dd]. eexists. reflexivity.
Qed.

(** [astimezone] keeps the instant and attaches the target zone. *)
Lemma astimezone_spec (a : aware) (z : tzinfo) (b : aware) :
  astimezone a z = Ok b ->
  instant b = instant a /\ tz b = z /\ valid_naive (wall b)
  /\ wall_seconds (wall b) = wall_seconds (wall a) - tz_utcoffset (tz a) + tz_utcoffset z.
Proof.
  unfold astimezone, fromutc. intros H.
  destruct (add_seconds (wall a) (- tz_utcoffset (tz a))) as [utc|] eqn:E1;
    cbn [bind] in H; [|discriminate].
  destruct (add_seconds utc (tz_utcoffset z)) as [w|] eqn:E2;
    cbn [bind] in H; [|discriminate].
  injection H as <-.
  apply add_seconds_spec in E1 as (S1 & M1 & _ & _).
  apply add_seconds_spec in E2 as (S2 & M2 & V2 & _).
  unfold instant. cbn [wall tz].
  split; [lia|split; [reflexivity|split; [exact V2|lia]]].
Qed.

Lemma astimezone_utc_ok (a : aware) :
  clock_ok a -> exists b, astimezone a UTC_TZ = Ok b.
Proof.
  unfold clock_ok, astimezone, fromutc. intros H.
  destruct (add_seconds_ok (wall a) (- tz_utcoffset (tz a)) ltac:(lia)) as [utc E1].
  rewrite E1. cbn [bind].
  apply add_seconds_spec in E1 as (S1 & _).
  destruct (add_seconds_ok utc (tz_utcoffset UTC_TZ)) as [w E2].
  { cbn [UTC_TZ tz_utcoffset]. lia. }
  rewrite E2. cbn [bind]. eexists. reflexivity.
Qed.

(** ** parse_last_build_date *)

Lemma index_of_raises (x : list Z) (l : list (list Z)) (i : Z) (e : exn) :
  index_of x l i = Raise e -> exists msg, e = ValueError msg.
Proof.
  revert i. induction l as [|y l IH]; intros i H; simpl in H.
  - injection H as <-. eauto.
  - destruct (str_eqb x y); [discriminate|]. eapply IH. exact H.
Qed.

Lemma py_int_raises (s : list Z) (e : exn) :
  py_int s = Raise e -> exists msg, e = ValueError msg.
Proof.
  unfold py_int. intros H.
  destruct (strip s); [injection H as <-; eauto|].
  destruct (digits_value _ 0); [discriminate|injection H as <-; eauto].
Qed.

Lemma group_int_raises caps name default (e : exn) :
  group_int caps name default = Raise e -> exists msg, e = ValueError msg.
Proof.
  unfold group_int. destruct (group caps name); [apply py_int_raises|discriminate].
Qed.

Lemma check_fields_raises (d : naive) (e : exn) :
  check_fields d = Raise e -> exists msg, e = ValueError msg.
Proof.
  unfold check_fields. intros H.
  repeat match type of H with
         | (if ?b then _ else _) = _ => destruct b
         end; try discriminate; injection H as <-; eauto.
Qed.

(** [datetime.strptime] raises nothing but [ValueError]. *)
Lemma strptime_raises (s fmt : list Z) (e : exn) :
  strptime s fmt = Raise e -> exists msg, e = ValueError msg.
Proof.
  unfold strptime. intros H.
  destruct (pattern fmt) as [re|]; [|injection H as <-; eauto].
  destruct (re_match re s) as [[caps [|c rest]]|];
    [|injection H as <-; eauto|injection H as <-; eauto].
  repeat match type of H with
         | bind ?r _ = Raise _ =>
           let E := fresh "E" in
           destruct r eqn:E; cbn [bind] in H;
           [|injection H as <-;
             first [ eapply group_int_raises; eassumption
                   | destruct (group caps 97); [eapply index_of_raises; eassumption|discriminate]
                   | destruct (group caps 98);
                     [eapply index_of_raises; eassumption
                     |eapply group_int_raises; eassumption] ]]
         end.
  eapply check_fields_raises. exact H.
Qed.

Lemma now_pair_inv (now l u : aware) :
  now_pair now = Ok (l, u) -> l = now /\ astimezone now UTC_TZ = Ok u.
Proof.
  unfold now_pair. destruct (astimezone now UTC_TZ); cbn [bind]; [|discriminate].
  intros H. injection H as <- <-. auto.
Qed.

Lemma parse_as_inv (text fmt : list Z) (l u : aware) :
  parse_as text fmt = Ok (l, u) ->
  exists naive_dt, strptime text fmt = Ok naive_dt
                   /\ l = replace_tzinfo naive_dt BEIJING_TZ
                   /\ astimezone l UTC_TZ = Ok u.
Proof.
  unfold parse_as. destruct (strptime text fmt) as [d|]; cbn [bind]; [|discriminate].
  destruct (astimezone (replace_tzinfo d BEIJING_TZ) UTC_TZ) as [g|] eqn:E;
    cbn [bind]; [|discriminate].
  intros H. injection H as <- <-. eauto.
Qed.

Lemma try_formats_inv (now : aware) (text : list Z) (fmts : list (list Z)) (l u : aware) :
  try_formats now text fmts = Ok (l, u) ->
  now_pair now = Ok (l, u)
  \/ exists fmt, In fmt fmts /\ parse_as text fmt = Ok (l, u).
Proof.
  induction fmts as [|fmt fmts IH]; cbn [try_formats]; [auto|].
  destruct (parse_as text fmt) as [[l0 u0]|e] eqn:E.
  - intros H. injection H as <- <-. right. exists fmt. split; [left; reflexivity|exact E].
  - destruct e; try discriminate.
    intros H. destruct (IH H) as [Hn|(f & Hin & Hf)]; [auto|].
    right. exists f. split; [right; exact Hin|exact Hf].
Qed.

Lemma parse_last_build_date_inv (now : aware) (value : option (list Z)) (l u : aware) :
  parse_last_build_date now value = Ok (l, u) ->
  (l = now /\ astimezone now UTC_TZ = Ok u)
  \/ exists v fmt naive_dt,
      value = Some v /\ In fmt FORMATS
      /\ strptime (strip v) fmt = Ok naive_dt
      /\ l = replace_tzinfo naive_dt BEIJING_TZ
      /\ astimezone l UTC_TZ = Ok u.
Proof.
  unfold parse_last_build_date. intros H.
  destruct value as [[|c v]|]; try (left; apply now_pair_inv; exact H).
  apply try_formats_inv in H as [H|(fmt & Hin & H)].
  - left. apply now_pair_inv. exact H.
  - apply parse_as_inv in H as (d & Hs & -> & Ha).
    right. exists (c :: v), fmt, d. auto 10.
Qed.

(** What both branches return: the first datetime and its conversion. *)
Lemma parse_last_build_date_pair (now : aware) (value : option (list Z)) (l u : aware) :
  parse_last_build_date now value = Ok (l, u) -> astimezone l UTC_TZ = Ok u.
Proof.
  intros H.
  apply parse_last_build_date_inv in H
    as [[-> Ha]|(v & fmt & d & _ & _ & _ & _ & Ha)]; exact Ha.
Qed.

(** C9: on the parsed branch and on both fallback branches, the second
    datetime [parse_last_build_date] returns is the first one converted to
    universal time: it carries the UTC zone and denotes the same instant. *)
Theorem C9_pair_denotes_one_instant (now : aware) (value : option (list Z)) (l u : aware) :
  parse_last_build_date now value = Ok (l, u) ->
  astimezone l UTC_TZ = Ok u /\ tz u = UTC_TZ /\ instant u = instant l.
Proof.
  intros H. pose proof (parse_last_build_date_pair _ _ _ _ H) as Ha.
  split; [exact Ha|].
  apply astimezone_spec in Ha as (Hi & Hz & _). auto.
Qed.

Lemma try_formats_fallback (now : aware) (text : list Z) (fmts : list (list Z)) :
  Forall (fun fmt => is_ok (strptime text fmt) = false) fmts ->
  try_formats now text fmts = now_pair now.
Proof.
  induction 1 as [|fmt fmts Hf _ IH]; cbn [try_formats]; [reflexivity|].
  unfold parse_as. destruct (strptime text fmt) as [d|e] eqn:E; [discriminate|].
  cbn [bind]. apply strptime_raises in E as [msg ->]. exact IH.
Qed.

(** C4: when the value is absent, empty, or such that [strptime] accepts its
    stripped text under neither format, [parse_last_build_date] does not
    raise: it returns the reading of the clock in the local zone, paired
    with that reading converted to universal time. *)
Theorem C4_unparseable_falls_back_to_now (now : aware) (value : option (list Z)) :
  clock_ok now ->
  (value = None \/ value = Some []
   \/ exists v, value = Some v
                /\ Forall (fun fmt => is_ok (strptime (strip v) fmt) = false) FORMATS) ->
  exists gmt,
    parse_last_build_date now value = Ok (now, gmt)
    /\ astimezone now UTC_TZ = Ok gmt
    /\ tz gmt = UTC_TZ /\ instant gmt = instant now.
Proof.
  intros Hc Hv.
  destruct (astimezone_utc_ok now Hc) as [gmt Ha].
  exists gmt.
  assert (Hn : now_pair now = Ok (now, gmt)) by (unfold now_pair; rewrite Ha; reflexivity).
  pose proof (astimezone_spec _ _ _ Ha) as (Hi & Hz & _).
  repeat split; try assumption.
  destruct Hv as [->|[->|(v & -> & Hall)]]; try exact Hn.
  unfold parse_last_build_date. destruct v; [exact Hn|].
  rewrite try_formats_fallback by exact Hall. exact Hn.
Qed.

Lemma C9_witness :
  exists l u,
    parse_last_build_date sample_now (Some (str "Wed, 15 Mar 2023 10:00:00 GMT"))
    = Ok (l, u)
    /\ astimezone l UTC_TZ = Ok u /\ tz u = UTC_TZ /\ instant u = instant l.
Proof.
  assert (H : exists p,
             parse_last_build_date sample_now
               (Some (str "Wed, 15 Mar 2023 10:00:00 GMT")) = Ok p)
    by (eexists; vm_compute; reflexivity).
  destruct H as [[l u] H]. exists l, u. split; [exact H|].
  exact (C9_pair_denotes_one_instant _ _ _ _ H).
Defined.

Lemma C4_witness :
  clock_ok sample_now
  /\ Forall (fun fmt => is_ok (strptime (strip (str " 2023-03-15 10:00 ")) fmt) = false)
            FORMATS
  /\ exists gmt,
      parse_last_build_date sample_now (Some (str " 2023-03-15 10:00 "))
      = Ok (sample_now, gmt)
      /\ astimezone sample_now UTC_TZ = Ok gmt
      /\ tz gmt = UTC_TZ /\ instant gmt = instant sample_now.
Proof.
  assert (Hc : clock_ok sample_now)
    by (vm_compute; split; [discriminate|reflexivity]).
  assert (Hf : Forall (fun fmt =>
                         is_ok (strptime (strip (str " 2023-03-15 10:00 ")) fmt) = false)
                      FORMATS)
    by (repeat constructor; vm_compute; reflexivity).
  split; [exact Hc|]. split; [exact Hf|].
  apply (C4_unparseable_falls_back_to_now sample_now
           (Some (str " 2023-03-15 10:00 ")) Hc).
  right. right. exists (str " 2023-03-15 10:00 "). split; [reflexivity|exact Hf].
Defined.

(** ** Matching what [strftime] printed *)

Lemma takes_weaken (r : regex) pre delta (P Q : list Z -> Prop) :
  takes r pre delta P -> (forall rest, Q rest -> P rest) -> takes r pre delta Q.
Proof. intros H HPQ A rest caps k x Hq Hk. apply H; auto. Qed.

Lemma takes_empty : takes REmpty [] [] any_rest.
Proof. intros A rest caps k x _ Hk. exact Hk. Qed.

Lemma takes_char (cl : charclass) (c : Z) :
  class_match cl c = true -> takes (RChar cl) [c] [] any_rest.
Proof. intros Hc A rest caps k x _ Hk. cbn [rmatch app]. rewrite Hc. exact Hk. Qed.

Lemma takes_space : takes (RPlus CSpace) [32] [] no_space_ahead.
Proof.
  intros A rest caps k x Hr Hk. cbn [rmatch app plus_match].
  change (class_match CSpace 32) with true. cbn iota.
  destruct rest as [|c rest]; cbn [plus_match].
  - exact Hk.
  - cbn [no_space_ahead] in Hr. cbn [class_match]. rewrite Hr. exact Hk.
Qed.

Lemma takes_seq (r1 r2 : regex) pre1 pre2 d1 d2 (P1 P2 : list Z -> Prop) :
  takes r1 pre1 d1 P1 -> takes r2 pre2 d2 P2 ->
  (forall rest, P2 rest -> P1 (pre2 ++ rest)) ->
  takes (RSeq r1 r2) (pre1 ++ pre2) (d2 ++ d1) P2.
Proof.
  intros H1 H2 HP A rest caps k x Hr Hk. cbn [rmatch].
  rewrite <- app_assoc. apply H1; [apply HP, Hr|].
  apply H2; [exact Hr|]. rewrite app_assoc. exact Hk.
Qed.

(** After a match of [takes], [re_match] returns the groups and no rest. *)
Lemma takes_re_match (r : regex) (text : list Z) delta (P : list Z -> Prop) :
  takes r text delta P -> P [] -> re_match r text = Some (delta, []).
Proof.
  intros H Hp. unfold re_match.
  rewrite <- (app_nil_r text) at 1.
  apply H; [exact Hp|]. rewrite app_nil_r. reflexivity.
Qed.

Ltac takes_by_computation :=
  let A := fresh "A" in
  let rest := fresh "rest" in
  let caps := fresh "caps" in
  let k := fresh "k" in
  let x := fresh "x" in
  let Hk := fresh "Hk" in
  intros A rest caps k x _ Hk;
  vm_compute in Hk; vm_compute; rewrite Hk; reflexivity.

Lemma takes_weekday (i : Z) :
  0 <= i <= 6 ->
  takes (dir 97) (nth (Z.to_nat i) DAYNAMES [])
        [(97, nth (Z.to_nat i) DAYNAMES [])] any_rest.
Proof.
  intros H. assert (H' : 0 <= i < 0 + Z.of_nat 7) by lia. revert i H' H.
  by_cases_on 0 7%nat; intros _; takes_by_computation.
Qed.

Lemma takes_month (m : Z) :
  1 <= m <= 12 ->
  takes (dir 98) (nth (Z.to_nat (m - 1)) MONTHNAMES [])
        [(98, nth (Z.to_nat (m - 1)) MONTHNAMES [])] any_rest.
Proof.
  intros H. assert (H' : 1 <= m < 1 + Z.of_nat 12) by lia. revert m H' H.
  by_cases_on 1 12%nat; intros _; takes_by_computation.
Qed.

Lemma takes_day (n : Z) :
  1 <= n <= 31 -> takes (dir 100) (pad2 n) [(100, pad2 n)] any_rest.
Proof.
  intros H. assert (H' : 1 <= n < 1 + Z.of_nat 31) by lia. revert n H' H.
  by_cases_on 1 31%nat; intros _; takes_by_computation.
Qed.

Lemma takes_hour (n : Z) :
  0 <= n <= 23 -> takes (dir 72) (pad2 n) [(72, pad2 n)] any_rest.
Proof.
  intros H. assert (H' : 0 <= n < 0 + Z.of_nat 24) by lia. revert n H' H.
  by_cases_on 0 24%nat; intros _; takes_by_computation.
Qed.

Lemma takes_minute (n : Z) :
  0 <= n <= 59 -> takes (dir 77) (pad2 n) [(77, pad2 n)] any_rest.
Proof.
  intros H. assert (H' : 0 <= n < 0 + Z.of_nat 60) by lia. revert n H' H.
  by_cases_on 0 60%nat; intros _; takes_by_computation.
Qed.

Lemma takes_second (n : Z) :
  0 <= n <= 59 -> takes (dir 83) (pad2 n) [(83, pad2 n)] any_rest.
Proof.
  intros H. assert (H' : 0 <= n < 0 + Z.of_nat 60) by lia. revert n H' H.
  by_cases_on 0 60%nat; intros _; takes_by_computation.
Qed.

Lemma digit_checked :
  forallb (fun a => match decimal_value (48 + a) with
                    | Some v => (v =? a) && negb (py_isspace (48 + a))
                    | None => false
                    end) (zrange 0 10) = true.
Proof. vm_compute. reflexivity. Qed.

Lemma digit_spec (a : Z) :
  0 <= a <= 9 -> decimal_value (48 + a) = Some a /\ py_isspace (48 + a) = false.
Proof.
  intros H. pose proof digit_checked as Hc. rewrite forallb_forall in Hc.
  specialize (Hc a (zrange_in 0 10 a ltac:(lia))).
  destruct (decimal_value (48 + a)) as [v|]; [|discriminate].
  apply andb_prop in Hc as [Hv Hs]. apply Z.eqb_eq in Hv. subst v.
  apply negb_true_iff in Hs. auto.
Qed.

Lemma year_checked :
  forallb (fun y => str_eqb (decimal y)
                      [48 + y / 1000; 48 + (y / 100) mod 10;
                       48 + (y / 10) mod 10; 48 + y mod 10])
          (zrange 1000 (Z.to_nat 9000)) = true.
Proof. vm_compute. reflexivity. Qed.

(** From 1000 to 9999 the year is printed with four digits. *)
Lemma decimal_year (y : Z) :
  1000 <= y <= 9999 ->
  decimal y = [48 + y / 1000; 48 + (y / 100) mod 10; 48 + (y / 10) mod 10; 48 + y mod 10].
Proof.
  intros H. pose proof year_checked as Hc. rewrite forallb_forall in Hc.
  apply str_eqb_eq. apply Hc. apply zrange_in. lia.
Qed.

Lemma takes_digits4 (c1 c2 c3 c4 : Z) :
  py_isdecimal c1 = true -> py_isdecimal c2 = true ->
  py_isdecimal c3 = true -> py_isdecimal c4 = true ->
  takes (dir 89) [c1; c2; c3; c4] [(89, [c1; c2; c3; c4])] any_rest.
Proof.
  intros H1 H2 H3 H4 A rest caps k x _ Hk.
  change (dir 89) with
    (RGroup 89 (RSeq any_digit (RSeq any_digit (RSeq any_digit any_digit)))).
  unfold any_digit. cbn [rmatch app class_match].
  rewrite H1, H2, H3, H4. exact Hk.
Qed.

Lemma py_isdecimal_digit (a : Z) : 0 <= a <= 9 -> py_isdecimal (48 + a) = true.
Proof.
  intros H. unfold py_isdecimal. destruct (digit_spec a H) as [-> _]. reflexivity.
Qed.

Lemma takes_year (y : Z) :
  1000 <= y <= 9999 -> takes (dir 89) (decimal y) [(89, decimal y)] any_rest.
Proof.
  intros H. rewrite decimal_year by exact H.
  apply takes_digits4; apply py_isdecimal_digit; lia.
Qed.

Lemma pad2_checked :
  forallb (fun n => match py_int (pad2 n) with
                    | Ok v => v =? n
                    | Raise _ => false
                    end) (zrange 0 60) = true.
Proof. vm_compute. reflexivity. Qed.

Lemma py_int_pad2 (n : Z) : 0 <= n <= 59 -> py_int (pad2 n) = Ok n.
Proof.
  intros H. pose proof pad2_checked as Hc. rewrite forallb_forall in Hc.
  specialize (Hc n (zrange_in 0 60 n ltac:(lia))).
  destruct (py_int (pad2 n)) as [v|]; [|discriminate].
  apply Z.eqb_eq in Hc. congruence.
Qed.

Lemma year_int_checked :
  forallb (fun y => match py_int (decimal y) with
                    | Ok v => v =? y
                    | Raise _ => false
                    end) (zrange 1000 (Z.to_nat 9000)) = true.
Proof. vm_compute. reflexivity. Qed.

Lemma py_int_year (y : Z) : 1000 <= y <= 9999 -> py_int (decimal y) = Ok y.
Proof.
  intros H. pose proof year_int_checked as Hc. rewrite forallb_forall in Hc.
  specialize (Hc y (zrange_in 1000 (Z.to_nat 9000) y ltac:(lia))).
  destruct (py_int (decimal y)) as [v|]; [|discriminate].
  apply Z.eqb_eq in Hc. congruence.
Qed.

Lemma weekday_name_spec (i : Z) :
  0 <= i <= 6 ->
  is_ok (index_of (py_lower (nth (Z.to_nat i) DAYNAMES [])) a_weekday 0) = true
  /\ exists c t, nth (Z.to_nat i) DAYNAMES [] = c :: t /\ py_isspace c = false.
Proof.
  intros H. assert (H' : 0 <= i < 0 + Z.of_nat 7) by lia. revert i H' H.
  by_cases_on 0 7%nat; intros _;
    (split; [vm_compute; reflexivity
            |eexists; eexists; split; [vm_compute; reflexivity|vm_compute; reflexivity]]).
Qed.

Lemma month_name_spec (m : Z) :
  1 <= m <= 12 ->
  index_of (py_lower (nth (Z.to_nat (m - 1)) MONTHNAMES [])) a_month 0 = Ok m
  /\ exists c t, nth (Z.to_nat (m - 1)) MONTHNAMES [] = c :: t /\ py_isspace c = false.
Proof.
  intros H. assert (H' : 1 <= m < 1 + Z.of_nat 12) by lia. revert m H' H.
  by_cases_on 1 12%nat; intros _;
    (split; [vm_compute; reflexivity
            |eexists; eexists; split; [vm_compute; reflexivity|vm_compute; reflexivity]]).
Qed.

Lemma check_fields_ok (d : naive) :
  valid_naive d -> 0 <= microsecond d <= 999999 -> check_fields d = Ok d.
Proof.
  unfold valid_naive, check_fields. intros (Hy & Hm & Hd & Hh & Hmi & Hs) Hu.
  repeat match goal with
         | |- context [negb (?a && ?b)] =>
           replace (a && b) with true
             by (symmetry; apply andb_true_intro; split; apply Z.leb_le; lia);
           cbn [negb]
         end.
  reflexivity.
Qed.

Lemma strftime_RFC822 (d : naive) : strftime RFC822 d = RFC822_text d.
Proof. reflexivity. Qed.

Lemma pattern_RFC822 : pattern RFC822 = Some RFC822_regex.
Proof. vm_compute. reflexivity. Qed.

Lemma weekday_range (d : naive) : 0 <= weekday d <= 6.
Proof. unfold weekday. lia. Qed.

Lemma pad2_head (n : Z) (rest : list Z) :
  0 <= n <= 59 -> no_space_ahead (pad2 n ++ rest).
Proof.
  intros H. cbn [pad2 app no_space_ahead]. apply digit_spec. lia.
Qed.

Ltac takes_step lem :=
  eapply takes_seq; [apply lem; lia| |try (intros ? _; exact I)].

Lemma takes_RFC822 (d : naive) :
  valid_naive d -> 1000 <= year d ->
  takes RFC822_regex (RFC822_text d) (RFC822_groups d) any_rest.
Proof.
  intros (Hy & Hm & Hd & Hh & Hmi & Hs) Hy1000.
  pose proof (weekday_range d) as Hw.
  assert (Hdim : days_in_month (year d) (month d) <= 31).
  { unfold days_in_month. destruct ((month d =? 2) && is_leap (year d)); [lia|].
    revert Hm. generalize (month d). intros m Hm.
    assert (H' : 1 <= m < 1 + Z.of_nat 12) by lia. revert m H' Hm.
    by_cases_on 1 12%nat; intros _; vm_compute; discriminate. }
  unfold MINYEAR, MAXYEAR in Hy.
  assert (E : exists delta,
             takes RFC822_regex (RFC822_text d) delta any_rest
             /\ delta = RFC822_groups d).
  { eexists. split.
    - unfold RFC822_regex, RFC822_text.
      takes_step takes_weekday.
      eapply takes_seq; [apply takes_char; reflexivity| |intros ? _; exact I].
      eapply takes_seq; [apply takes_space| |intros ? _; apply pad2_head; lia].
      takes_step takes_day.
      eapply takes_seq; [apply takes_space| |].
      2:{ intros rest _. destruct (month_name_spec (month d) Hm) as (_ & c & t & -> & Hc).
          exact Hc. }
      takes_step takes_month.
      eapply takes_seq; [apply takes_space| |].
      2:{ intros rest _. rewrite decimal_year by lia.
          cbn [app no_space_ahead]. apply digit_spec. lia. }
      takes_step takes_year.
      eapply takes_seq; [apply takes_space| |intros ? _; apply pad2_head; lia].
      takes_step takes_hour.
      eapply takes_seq; [apply takes_char; reflexivity| |intros ? _; exact I].
      takes_step takes_minute.
      eapply takes_seq; [apply takes_char; reflexivity| |intros ? _; exact I].
      takes_step takes_second.
      eapply takes_seq; [apply takes_space| |intros ? _; reflexivity].
      eapply takes_seq; [apply takes_char; reflexivity| |intros ? _; exact I].
      eapply takes_seq; [apply takes_char; reflexivity| |intros ? _; exact I].
      eapply takes_seq; [apply takes_char; reflexivity| |intros ? _; exact I].
      apply takes_empty.
    - reflexivity. }
  destruct E as (delta & Ht & ->). exact Ht.
Qed.

Lemma RFC822_groups_lookup (d : naive) :
  group (RFC822_groups d) 97 = Some (nth (Z.to_nat (weekday d)) DAYNAMES [])
  /\ group (RFC822_groups d) 100 = Some (pad2 (day d))
  /\ group (RFC822_groups d) 98 = Some (nth (Z.to_nat (month d - 1)) MONTHNAMES [])
  /\ group (RFC822_groups d) 89 = Some (decimal (year d))
  /\ group (RFC822_groups d) 72 = Some (pad2 (hour d))
  /\ group (RFC822_groups d) 77 = Some (pad2 (minute d))
  /\ group (RFC822_groups d) 83 = Some (pad2 (second d)).
Proof. repeat split; reflexivity. Qed.

(** Parsing what [strftime] printed under the format [RFC822] gives the
    fields back, for the years that are printed with four digits. *)
Lemma strptime_strftime (d : naive) :
  valid_naive d -> 1000 <= year d ->
  strptime (strftime RFC822 d) RFC822
  = Ok (mknaive (year d) (month d) (day d) (hour d) (minute d) (second d) 0).
Proof.
  intros Hv Hy. pose proof Hv as (Hyr & Hm & Hd & Hh & Hmi & Hs).
  unfold strptime. rewrite pattern_RFC822, strftime_RFC822.
  rewrite (takes_re_match _ _ _ _ (takes_RFC822 d Hv Hy) I).
  destruct (RFC822_groups_lookup d) as (Ga & Gd & Gb & GY & GH & GM & GS).
  unfold group_int. rewrite Ga, Gd, Gb, GY, GH, GM, GS.
  destruct (weekday_name_spec (weekday d) (weekday_range d)) as [Hw _].
  destruct (index_of _ a_weekday 0); [|discriminate]. cbn [bind].
  assert (Hdim : days_in_month (year d) (month d) <= 31).
  { unfold days_in_month. destruct ((month d =? 2) && is_leap (year d)); [lia|].
    revert Hm. generalize (month d). intros m Hm.
    assert (H' : 1 <= m < 1 + Z.of_nat 12) by lia. revert m H' Hm.
    by_cases_on 1 12%nat; intros _; vm_compute; discriminate. }
  unfold MINYEAR, MAXYEAR in Hyr.
  rewrite py_int_pad2 by lia. cbn [bind].
  destruct (month_name_spec (month d) Hm) as [-> _]. cbn [bind].
  rewrite py_int_year by lia. cbn [bind].
  rewrite !py_int_pad2 by lia. cbn [bind].
  apply check_fields_ok.
  - unfold valid_naive. cbn [year month day hour minute second].
    unfold MINYEAR, MAXYEAR. auto 10.
  - cbn [microsecond]. lia.
Qed.

(** ** Re-parsing the formatted universal time *)

Lemma astimezone_ordinal (a : aware) (z : tzinfo) (b : aware) :
  astimezone a z = Ok b -> 1 <= toordinal (wall b) <= MAXORDINAL.
Proof.
  unfold astimezone, fromutc. intros H.
  destruct (add_seconds (wall a) (- tz_utcoffset (tz a))) as [utc|];
    cbn [bind] in H; [|discriminate].
  destruct (add_seconds utc (tz_utcoffset z)) as [w|] eqn:E2;
    cbn [bind] in H; [|discriminate].
  injection H as <-. apply add_seconds_spec in E2 as (_ & _ & _ & Ho). exact Ho.
Qed.

Lemma days_before_month_nonneg (y m : Z) : 1 <= m <= 12 -> 0 <= days_before_month y m.
Proof.
  intros H. unfold days_before_month.
  assert (Hi : 0 <= idx DAYS_BEFORE_MONTH m).
  { assert (H' : 1 <= m < 1 + Z.of_nat 12) by lia. revert m H' H.
    by_cases_on 1 12%nat; intros _; vm_compute; discriminate. }
  destruct ((2 <? m) && is_leap y); cbn [b2z]; lia.
Qed.

Lemma toordinal_from_1000 (d : naive) :
  valid_naive d -> 1000 <= year d -> 364636 <= toordinal d.
Proof.
  intros (_ & Hm & Hd & _) Hy. unfold toordinal, ymd2ord.
  pose proof (days_before_month_nonneg (year d) (month d) Hm).
  assert (364635 <= days_before_year (year d)) by (unfold days_before_year; lia).
  lia.
Qed.

Lemma RFC822_text_strip (d : naive) :
  strip (RFC822_text d) = RFC822_text d
  /\ exists c t, RFC822_text d = c :: t.
Proof.
  destruct (weekday_name_spec (weekday d) (weekday_range d)) as (_ & c & t & E & Hc).
  assert (Et : RFC822_text d
               = c :: (t ++ [44] ++ [32] ++ pad2 (day d)
                       ++ [32] ++ nth (Z.to_nat (month d - 1)) MONTHNAMES []
                       ++ [32] ++ decimal (year d)
                       ++ [32] ++ pad2 (hour d) ++ [58] ++ pad2 (minute d)
                       ++ [58] ++ pad2 (second d) ++ [32] ++ [71] ++ [77])
                 ++ [84]).
  { unfold RFC822_text. rewrite E. rewrite <- !app_assoc. reflexivity. }
  rewrite Et. split.
  - apply strip_id; [exact Hc|reflexivity].
  - eexists. eexists. reflexivity.
Qed.

Lemma wall_seconds_fields (d d' : naive) :
  wall_fields d' = wall_fields d -> wall_seconds d' = wall_seconds d.
Proof.
  unfold wall_fields, wall_seconds, toordinal. intros H.
  injection H as -> -> -> -> -> ->. reflexivity.
Qed.

Lemma FORMATS_head : FORMATS = RFC822 :: tl FORMATS.
Proof. vm_compute. reflexivity. Qed.

(** C3 as the code has it: the universal-time component [u] returned by
    [parse_last_build_date], formatted with the RFC-822-style pattern and
    parsed again, comes back as a local-zone datetime whose year, month,
    day, hour, minute and second are those of [u] itself, read as wall-clock
    time of the local zone: they are not those of the original local-zone
    component. This holds from the year 1000 on, where the year is printed
    with four digits. *)
Theorem C3_reparse_returns_universal_fields (now now' : aware)
        (value : option (list Z)) (l u : aware) :
  parse_last_build_date now value = Ok (l, u) ->
  1000 <= year (wall u) ->
  exists l' u',
    parse_last_build_date now' (Some (strftime RFC822 (wall u))) = Ok (l', u')
    /\ wall_fields (wall l') = wall_fields (wall u)
    /\ tz l' = BEIJING_TZ.
Proof.
  intros H Hy.
  apply parse_last_build_date_pair in H as Ha.
  pose proof (astimezone_ordinal _ _ _ Ha) as Ho.
  apply astimezone_spec in Ha as (_ & _ & Hv & _).
  set (d := wall u) in *.
  set (d0 := mknaive (year d) (month d) (day d) (hour d) (minute d) (second d) 0).
  pose proof (strptime_strftime d Hv Hy) as Hs. fold d0 in Hs.
  assert (Hw : wall_seconds d0 = wall_seconds d) by reflexivity.
  pose proof (toordinal_from_1000 d Hv Hy) as Hlo.
  destruct Hv as (_ & _ & _ & Hh & Hmi & Hsec).
  assert (Hc : clock_ok (replace_tzinfo d0 BEIJING_TZ)).
  { unfold clock_ok. cbn [replace_tzinfo wall tz BEIJING_TZ tz_utcoffset].
    rewrite Hw. unfold wall_seconds, MAXORDINAL in *. lia. }
  destruct (astimezone_utc_ok _ Hc) as [u' Hu'].
  exists (replace_tzinfo d0 BEIJING_TZ), u'.
  split; [|split; reflexivity].
  rewrite strftime_RFC822.
  destruct (RFC822_text_strip d) as (Hstrip & c & t & Et).
  unfold parse_last_build_date. rewrite Et. rewrite <- Et. rewrite Hstrip.
  rewrite FORMATS_head.
  cbn [try_formats]. unfold parse_as.
  rewrite <- strftime_RFC822, Hs. cbn [bind]. rewrite Hu'. reflexivity.
Qed.

Lemma C3_witness :
  exists l u,
    parse_last_build_date sample_now (Some (str "Wed, 15 Mar 2023 10:00:00 GMT"))
    = Ok (l, u)
    /\ 1000 <= year (wall u)
    /\ exists l' u',
        parse_last_build_date sample_now (Some (strftime RFC822 (wall u))) = Ok (l', u')
        /\ wall_fields (wall l') = wall_fields (wall u)
        /\ tz l' = BEIJING_TZ.
Proof.
  assert (H : exists p,
             parse_last_build_date sample_now
               (Some (str "Wed, 15 Mar 2023 10:00:00 GMT")) = Ok p
             /\ 1000 <= year (wall (snd p)))
    by (eexists; split; [vm_compute; reflexivity|vm_compute; discriminate]).
  destruct H as [[l u] [H Hy]]. exists l, u. split; [exact H|]. split; [exact Hy|].
  exact (C3_reparse_returns_universal_fields sample_now sample_now _ l u H Hy).
Defined.

(** C3 as stated fails: the local-zone component parsed from
    [Wed, 15 Mar 2023 10:00:00 GMT] reads 10:00:00, its universal-time
    component is printed as [Wed, 15 Mar 2023 01:54:00 GMT], and parsing
    that gives the local-zone wall time 01:54:00, not 10:00:00. *)
Lemma C3_counterexample :
  parse_last_build_date sample_now (Some (str "Wed, 15 Mar 2023 10:00:00 GMT"))
  = Ok (mkaware (mknaive 2023 3 15 10 0 0 0) BEIJING_TZ,
        mkaware (mknaive 2023 3 15 1 54 0 0) UTC_TZ)
  /\ strftime RFC822 (mknaive 2023 3 15 1 54 0 0) = str "Wed, 15 Mar 2023 01:54:00 GMT"
  /\ parse_last_build_date sample_now (Some (str "Wed, 15 Mar 2023 01:54:00 GMT"))
     = Ok (mkaware (mknaive 2023 3 15 1 54 0 0) BEIJING_TZ,
           mkaware (mknaive 2023 3 14 17 48 0 0) UTC_TZ)
  /\ wall_fields (mknaive 2023 3 15 1 54 0 0) <> wall_fields (mknaive 2023 3 15 10 0 0 0).
Proof.
  repeat split; try (vm_compute; reflexivity). vm_compute. discriminate.
Qed.

(** C2, at the input of the claim: for the feed whose [lastBuildDate] is
    [Wed, 15 Mar 2023 10:00:00 GMT] and that has no entry, the [pubDate] of
    the single output item is [Wed, 15 Mar 2023 01:54:00 GMT]: the zone
    object attached by [replace] carries local mean time, 8 hours and 6
    minutes, not the 8 hours of the claim. *)
Theorem C2_pubdate_of_the_example bok (now : aware) :
  exists out pub_date,
    build_rss bok now empty_feed = Ok out
    /\ find_path out [str "channel"; str "item"; str "pubDate"] = Some pub_date
    /\ el_text pub_date = str "Wed, 15 Mar 2023 01:54:00 GMT"
    /\ el_text pub_date <> str "Wed, 15 Mar 2023 02:00:00 GMT"
    /\ tz_utcoffset BEIJING_TZ = 8 * 3600 + 6 * 60.
Proof.
  eexists. eexists. split; [vm_compute; reflexivity|].
  split; [vm_compute; reflexivity|].
  split; [vm_compute; reflexivity|].
  split; [vm_compute; discriminate|reflexivity].
Qed.

(** ** More on strings *)

Lemma lstrip_by_spec (p : Z -> bool) (s : list Z) :
  exists a, s = a ++ lstrip_by p s /\ forallb p a = true
            /\ match lstrip_by p s with
               | [] => True
               | c :: _ => p c = false
               end.
Proof.
  induction s as [|c s (a & E & Ha & Hh)]; cbn [lstrip_by].
  - exists []. auto.
  - destruct (p c) eqn:Hc.
    + exists (c :: a). cbn [app forallb]. rewrite Hc, Ha. split; [congruence|auto].
    + exists []. cbn [app forallb]. auto.
Qed.

Lemma last_cons_default (x : Z) (r : list Z) (d d' : Z) :
  List.last (x :: r) d = List.last (x :: r) d'.
Proof.
  revert x. induction r as [|y r IH]; intros x; [reflexivity|].
  change (List.last (x :: y :: r) d) with (List.last (y :: r) d).
  change (List.last (x :: y :: r) d') with (List.last (y :: r) d'). apply IH.
Qed.

Lemma rstrip_by_spec (p : Z -> bool) (s : list Z) :
  exists b, s = rstrip_by p s ++ b /\ forallb p b = true
            /\ match rstrip_by p s with
               | [] => True
               | c :: r => p (List.last (c :: r) c) = false
               end
            /\ match s with
               | [] => True
               | c :: _ => p c = false -> exists r, rstrip_by p s = c :: r
               end.
Proof.
  induction s as [|c s (b & E & Hb & Hl & _)]; cbn [rstrip_by].
  - exists []. auto.
  - destruct (rstrip_by p s) as [|x r] eqn:Er.
    + destruct (p c) eqn:Hc.
      * exists (c :: b). cbn [app forallb] in *. rewrite Hc, Hb.
        split; [congruence|]. split; [reflexivity|]. split; [exact I|discriminate].
      * exists b. cbn [app] in *. split; [congruence|]. split; [exact Hb|].
        split; [exact Hc|]. intros _. eauto.
    + exists b. cbn [app] in *. split; [congruence|]. split; [exact Hb|].
      split; [|intros _; eauto].
      change (List.last (c :: x :: r) c) with (List.last (x :: r) c).
      rewrite (last_cons_default x r c x). exact Hl.
Qed.

(** [strip] removes whitespace at both ends and nothing else. *)
Lemma strip_spec (s : list Z) :
  exists a b, s = a ++ strip s ++ b
              /\ forallb py_isspace a = true /\ forallb py_isspace b = true
              /\ trimmed (strip s).
Proof.
  unfold strip.
  destruct (lstrip_by_spec py_isspace s) as (a & Ea & Ha & Hh).
  destruct (rstrip_by_spec py_isspace (lstrip_by py_isspace s)) as (b & Eb & Hb & Hl & Hk).
  exists a, b. split; [congruence|]. split; [exact Ha|]. split; [exact Hb|].
  destruct (lstrip_by py_isspace s) as [|c l]; [exact I|].
  destruct (Hk Hh) as [r Er]. rewrite Er in Hl |- *. split; assumption.
Qed.

Lemma strip_nil_all_space (s : list Z) : strip s = [] -> forallb py_isspace s = true.
Proof.
  intros H. destruct (strip_spec s) as (a & b & E & Ha & Hb & _).
  rewrite H in E. rewrite E. cbn [app]. rewrite forallb_app, Ha, Hb. reflexivity.
Qed.

Lemma blank_all_space (s : list Z) : blank s = true <-> forallb py_isspace s = true.
Proof.
  unfold blank. split.
  - intros H. apply strip_nil_all_space. destruct (strip s); [reflexivity|discriminate].
  - intros H. rewrite strip_all_space by exact H. reflexivity.
Qed.

(** X1: the text [get_text] returns for an element is the joined text of
    [itertext] with whitespace removed at its two ends only: what is cut
    off on either side is whitespace, and the result neither starts nor
    ends with a whitespace character. *)
Theorem X1_get_text_trims_both_ends (e : Element) :
  exists a b,
    join [] (itertext e) = a ++ get_text (Some e) ++ b
    /\ forallb py_isspace a = true /\ forallb py_isspace b = true
    /\ trimmed (get_text (Some e)).
Proof. unfold get_text. apply strip_spec. Qed.

(** ** indent *)

Lemma indent_text_blank (level : nat) :
  forallb py_isspace (indent_text level) = true
  /\ forallb py_isspace (indent_text level ++ str "  ") = true.
Proof.
  assert (H : forallb py_isspace (indent_text level) = true).
  { unfold indent_text. cbn [forallb]. change (py_isspace 10) with true. cbn [andb].
    induction level as [|n IH]; [reflexivity|].
    cbn [repeat concat]. rewrite forallb_app, IH. reflexivity. }
  split; [exact H|]. rewrite forallb_app, H. reflexivity.
Qed.

Lemma blank_indent_text (level : nat) :
  blank (indent_text level) = true /\ blank (indent_text level ++ str "  ") = true.
Proof. split; apply blank_all_space; apply indent_text_blank. Qed.

Lemma indent_leaf (t : list Z) a tx tl (level : nat) :
  indent (Elem t a tx tl []) level = Elem t a tx (indented_tail level tl) [].
Proof. destruct level; reflexivity. Qed.

Lemma indent_node (t : list Z) a tx tl (c : Element) (cs : list Element) (level : nat) :
  indent (Elem t a tx tl (c :: cs)) level
  = Elem t a
         (if blank tx then indent_text level ++ str "  " else tx)
         (indented_tail level tl)
         (set_last_tail (indent_text level)
            (map (fun child => indent child (S level)) (c :: cs))).
Proof. destruct level; reflexivity. Qed.

Lemma el_tail_indent (e : Element) (level : nat) :
  el_tail (indent e level) = indented_tail level (el_tail e).
Proof.
  destruct e as [t a tx tl [|c cs]];
    [rewrite indent_leaf|rewrite indent_node]; reflexivity.
Qed.

Lemma indent_set_tail (e : Element) (t : list Z) (level : nat) :
  indent (set_tail e t) level = set_tail (indent e level) (indented_tail level t).
Proof.
  destruct e as [tg a tx tl [|c cs]]; cbn [set_tail];
    [rewrite !indent_leaf|rewrite !indent_node]; reflexivity.
Qed.

Lemma set_tail_twice (e : Element) (a b : list Z) :
  set_tail (set_tail e a) b = set_tail e b.
Proof. destruct e; reflexivity. Qed.

Lemma set_tail_same (e : Element) : set_tail e (el_tail e) = e.
Proof. destruct e; reflexivity. Qed.

Lemma el_tail_set_tail (e : Element) (t : list Z) : el_tail (set_tail e t) = t.
Proof. destruct e; reflexivity. Qed.

Lemma indented_tail_twice (level : nat) (t : list Z) :
  indented_tail level (indented_tail level t) = indented_tail level t.
Proof.
  destruct level as [|n]; [reflexivity|]. cbn [indented_tail].
  destruct (blank t) eqn:Hb.
  - destruct (blank_indent_text (S n)) as [-> _]. reflexivity.
  - rewrite Hb. reflexivity.
Qed.

Lemma blank_indented_tail (level : nat) (t : list Z) :
  blank (indented_tail (S level) t) = blank t.
Proof.
  cbn [indented_tail]. destruct (blank t) eqn:Hb; [|exact Hb].
  apply blank_indent_text.
Qed.

(** The last child after a second pass over children that were indented
    and closed once. *)
Lemma set_last_tail_again (i : list Z) (level : nat) (cs : list Element) :
  blank i = true ->
  Forall (fun c => indent (indent c (S level)) (S level) = indent c (S level)) cs ->
  set_last_tail i
    (map (fun c => indent c (S level))
         (set_last_tail i (map (fun c => indent c (S level)) cs)))
  = set_last_tail i (map (fun c => indent c (S level)) cs).
Proof.
  intros Hi H. induction H as [|c cs Hc Hcs IH]; [reflexivity|].
  destruct cs as [|c' cs].
  - cbn [map set_last_tail].
    set (y := indent c (S level)) in *.
    destruct (blank (el_tail y)) eqn:Hb.
    + rewrite indent_set_tail, Hc, el_tail_set_tail, blank_indented_tail, Hi.
      rewrite set_tail_twice. reflexivity.
    + rewrite Hc, Hb. reflexivity.
  - change (map (fun c0 => indent c0 (S level)) (c :: c' :: cs))
      with (indent c (S level) :: map (fun c0 => indent c0 (S level)) (c' :: cs)).
    set (rest := map (fun c0 => indent c0 (S level)) (c' :: cs)) in *.
    assert (Hne : exists x xs, set_last_tail i rest = x :: xs).
    { subst rest. cbn [map]. destruct (map _ cs); cbn [set_last_tail]; eauto. }
    assert (Hr : exists y ys, rest = y :: ys) by (subst rest; cbn [map]; eauto).
    destruct Hr as (y & ys & Er). rewrite Er in *.
    change (set_last_tail i (indent c (S level) :: y :: ys))
      with (indent c (S level) :: set_last_tail i (y :: ys)).
    destruct Hne as (x & xs & Ex). rewrite Ex in *.
    cbn [map]. rewrite Hc.
    change (set_last_tail i (indent c (S level) :: indent x (S level)
                             :: map (fun c0 => indent c0 (S level)) xs))
      with (indent c (S level)
            :: set_last_tail i (indent x (S level)
                                :: map (fun c0 => indent c0 (S level)) xs)).
    f_equal. exact IH.
Qed.

Lemma indent_twice (e : Element) :
  forall level, indent (indent e level) level = indent e level.
Proof.
  induction e as [t a tx tl cs IH] using Element_ind. intros level.
  destruct cs as [|c cs].
  - rewrite !indent_leaf, indented_tail_twice. reflexivity.
  - rewrite indent_node.
    set (cs' := set_last_tail (indent_text level)
                  (map (fun child => indent child (S level)) (c :: cs))).
    assert (Hne : exists x xs, cs' = x :: xs).
    { subst cs'. cbn [map]. destruct (map _ cs); cbn [set_last_tail]; eauto. }
    destruct Hne as (x & xs & Ex).
    rewrite Ex, indent_node, <- Ex, indented_tail_twice.
    f_equal.
    + destruct (blank tx) eqn:Hb; [|rewrite Hb; reflexivity].
      destruct (blank_indent_text level) as [_ ->]. reflexivity.
    + subst cs'. apply set_last_tail_again.
      * apply blank_indent_text.
      * eapply List.Forall_impl; [|exact IH]. intros y Hy. apply Hy.
Qed.

(** X2: [indent] is idempotent: indenting at the same level a tree that
    [indent] has left gives the same tree, texts and tails included. *)
Theorem X2_indent_is_idempotent (elem : Element) (level : nat) :
  indent (indent elem level) level = indent elem level.
Proof. apply indent_twice. Qed.

Lemma skeleton_set_tail (e : Element) (t : list Z) : skeleton (set_tail e t) = skeleton e.
Proof. destruct e; reflexivity. Qed.

Lemma skeleton_set_last_tail (i : list Z) (cs : list Element) :
  map skeleton (set_last_tail i cs) = map skeleton cs.
Proof.
  induction cs as [|c cs IH]; [reflexivity|].
  destruct cs as [|c' cs].
  - cbn [set_last_tail map]. destruct (blank (el_tail c));
      [rewrite skeleton_set_tail|]; reflexivity.
  - change (set_last_tail i (c :: c' :: cs)) with (c :: set_last_tail i (c' :: cs)).
    rewrite !map_cons, IH. reflexivity.
Qed.

Lemma skeleton_indent (e : Element) :
  forall level, skeleton (indent e level) = skeleton e.
Proof.
  induction e as [t a tx tl cs IH] using Element_ind. intros level.
  destruct cs as [|c cs].
  - rewrite indent_leaf. reflexivity.
  - rewrite indent_node. cbn [skeleton].
    rewrite skeleton_set_last_tail, map_map. f_equal.
    apply map_ext_Forall.
    eapply List.Forall_impl; [|exact IH]. intros y Hy. apply Hy.
Qed.

(** X3: [indent] changes texts and tails only: the tree of tags and
    attributes, with the number and the order of the children of every
    element, is the one it was given. *)
Theorem X3_indent_keeps_the_tree (elem : Element) (level : nat) :
  skeleton (indent elem level) = skeleton elem.
Proof. apply skeleton_indent. Qed.

Lemma join_nil_cons (a : list Z) (l : list (list Z)) : join [] (a :: l) = a ++ join [] l.
Proof. destruct l; cbn [join app]; [rewrite app_nil_r|]; reflexivity. Qed.

Lemma join_nil_app (l1 l2 : list (list Z)) : join [] (l1 ++ l2) = join [] l1 ++ join [] l2.
Proof.
  induction l1 as [|a l1 IH]; [reflexivity|].
  change ((a :: l1) ++ l2) with (a :: (l1 ++ l2)).
  rewrite !join_nil_cons, IH, app_assoc. reflexivity.
Qed.

Lemma join_nonempty (s : list Z) : join [] (nonempty s) = s.
Proof. destruct s; reflexivity. Qed.

Lemma remove_ws_app (a b : list Z) : remove_ws (a ++ b) = remove_ws a ++ remove_ws b.
Proof. unfold remove_ws. apply List.filter_app. Qed.

Lemma remove_ws_blank (s : list Z) : blank s = true -> remove_ws s = [].
Proof.
  intros H. apply blank_all_space in H. unfold remove_ws.
  induction s as [|c s IH]; [reflexivity|].
  cbn [forallb] in H. apply andb_prop in H as [Hc Hs].
  cbn [List.filter]. rewrite Hc. cbn [negb]. auto.
Qed.

Lemma remove_ws_indented_tail (level : nat) (t : list Z) :
  remove_ws (indented_tail level t) = remove_ws t.
Proof.
  destruct level as [|n]; [reflexivity|]. cbn [indented_tail].
  destruct (blank t) eqn:Hb; [|reflexivity].
  rewrite (remove_ws_blank t Hb). apply remove_ws_blank, blank_indent_text.
Qed.

(** The non-whitespace characters of the children's texts and tails. *)
Lemma children_content (cs : list Element) :
  remove_ws (join [] (flat_map (fun c => itertext c ++ nonempty (el_tail c)) cs))
  = flat_map (fun c => content c ++ remove_ws (el_tail c)) cs.
Proof.
  induction cs as [|c cs IH]; [reflexivity|].
  cbn [flat_map]. rewrite !join_nil_app, !remove_ws_app, join_nonempty, IH.
  unfold content. rewrite <- app_assoc. reflexivity.
Qed.

Lemma content_eq (t : list Z) a tx tl (cs : list Element) :
  content (Elem t a tx tl cs)
  = remove_ws tx ++ flat_map (fun c => content c ++ remove_ws (el_tail c)) cs.
Proof.
  unfold content at 1. cbn [itertext].
  rewrite join_nil_app, remove_ws_app, join_nonempty, children_content. reflexivity.
Qed.

Lemma content_set_tail (e : Element) (t : list Z) : content (set_tail e t) = content e.
Proof. destruct e; reflexivity. Qed.

Lemma children_content_set_last_tail (i : list Z) (cs : list Element) :
  blank i = true ->
  flat_map (fun c => content c ++ remove_ws (el_tail c)) (set_last_tail i cs)
  = flat_map (fun c => content c ++ remove_ws (el_tail c)) cs.
Proof.
  intros Hi. induction cs as [|c cs IH]; [reflexivity|].
  destruct cs as [|c' cs].
  - cbn [set_last_tail flat_map]. destruct (blank (el_tail c)) eqn:Hb; [|reflexivity].
    rewrite content_set_tail, el_tail_set_tail.
    rewrite (remove_ws_blank i Hi), (remove_ws_blank _ Hb). reflexivity.
  - change (set_last_tail i (c :: c' :: cs)) with (c :: set_last_tail i (c' :: cs)).
    cbn [flat_map] in *. rewrite IH. reflexivity.
Qed.

Lemma content_indent (e : Element) :
  forall level, content (indent e level) = content e.
Proof.
  induction e as [t a tx tl cs IH] using Element_ind. intros level.
  destruct cs as [|c cs].
  - rewrite indent_leaf, !content_eq. reflexivity.
  - rewrite indent_node, !content_eq.
    rewrite children_content_set_last_tail by apply blank_indent_text.
    f_equal.
    + destruct (blank tx) eqn:Hb; [|reflexivity].
      rewrite (remove_ws_blank tx Hb). apply remove_ws_blank, blank_indent_text.
    + rewrite !flat_map_concat_map, map_map. f_equal.
      apply map_ext_Forall.
      eapply List.Forall_impl; [|exact IH]. intros y Hy. cbv beta.
      rewrite Hy, el_tail_indent, remove_ws_indented_tail. reflexivity.
Qed.

(** X4: [indent] inserts and replaces whitespace only: the non-whitespace
    characters that [itertext] yields for an element, in their order, are
    the same before and after. *)
Theorem X4_indent_only_touches_whitespace (elem : Element) (level : nat) :
  content (indent elem level) = content elem.
Proof. apply content_indent. Qed.

(** ** More on normalize_weibo_link and build_description *)

Lemma url_char_not_escaped (c : Z) : url_char c = true -> esc_char c = [c].
Proof.
  intros H. unfold esc_char.
  destruct (Z.eqb_spec c 38) as [E|_]; [rewrite E in H; vm_compute in H; discriminate|].
  destruct (Z.eqb_spec c 60) as [E|_]; [rewrite E in H; vm_compute in H; discriminate|].
  destruct (Z.eqb_spec c 62) as [E|_]; [rewrite E in H; vm_compute in H; discriminate|].
  destruct (Z.eqb_spec c 34) as [E|_]; [rewrite E in H; vm_compute in H; discriminate|].
  destruct (Z.eqb_spec c 39) as [E|_]; [rewrite E in H; vm_compute in H; discriminate|].
  reflexivity.
Qed.

Lemma html_escape_url (s : list Z) :
  Forall (fun c => url_char c = true) s -> html_escape s = s.
Proof.
  intros H. rewrite html_escape_flat_map.
  induction H as [|c s Hc _ IH]; [reflexivity|].
  cbn [flat_map]. rewrite (url_char_not_escaped c Hc), IH. reflexivity.
Qed.

Lemma SEARCH_URL_chars : forallb url_char SEARCH_URL = true.
Proof. vm_compute. reflexivity. Qed.

Lemma normalize_weibo_link_chars bok (title raw_link link : list Z) :
  normalize_weibo_link bok title raw_link = Ok link ->
  Forall (fun c => url_char c = true) link.
Proof.
  rewrite normalize_weibo_link_eq. intros H.
  destruct (urlparse bok _) as [parsed|]; cbn [bind] in H; [|discriminate].
  cbv zeta in H.
  destruct (quote _ []) as [enc|] eqn:Hq; cbn [bind] in H; [|discriminate].
  apply quote_spec in Hq as (bs & _ & -> & Hall).
  assert (E : link = SEARCH_URL ++ percent_encoded bs) by (symmetry; congruence).
  rewrite E. clear H E. apply Forall_app. split.
  - apply Forall_forall. intros c Hc.
    pose proof SEARCH_URL_chars as Hs. rewrite forallb_forall in Hs.
    apply Hs. apply list_elem_of_In. exact Hc.
  - eapply List.Forall_impl; [|exact Hall]. intros c Hc. unfold url_char.
    apply orb_prop in Hc as [Hc|Hc]; [rewrite Hc; reflexivity|].
    apply Z.eqb_eq in Hc. subst c. reflexivity.
Qed.

(** X5: a link [normalize_weibo_link] returns is made of letters, digits
    and the characters [_.-~:/?=%] only, and [html.escape] leaves it as it
    is: the [href] of a list entry is the normalized link itself, and no
    keyword can close the attribute or add a query parameter. *)
Theorem X5_normalized_link_needs_no_escaping bok (title raw_link link : list Z) :
  normalize_weibo_link bok title raw_link = Ok link ->
  Forall (fun c => url_char c = true) link /\ html_escape link = link.
Proof.
  intros H. pose proof (normalize_weibo_link_chars _ _ _ _ H) as Hc.
  split; [exact Hc|]. apply html_escape_url. exact Hc.
Qed.

Lemma X5_witness :
  exists link,
    normalize_weibo_link no_bracket_check (str "a<b>&c")
      (str "https://s.weibo.com/weibo?q=a%26b%3Cc%22&Refer=top") = Ok link
    /\ Forall (fun c => url_char c = true) link /\ html_escape link = link.
Proof.
  assert (H : exists link,
             normalize_weibo_link no_bracket_check (str "a<b>&c")
               (str "https://s.weibo.com/weibo?q=a%26b%3Cc%22&Refer=top") = Ok link)
    by (eexists; vm_compute; reflexivity).
  destruct H as [link H]. exists link. split; [exact H|].
  exact (X5_normalized_link_needs_no_escaping _ _ _ _ H).
Defined.

Lemma item_lines_ok bok (items : list (list Z * list Z)) :
  Forall (fun item => is_ok (normalize_weibo_link bok (fst item) (snd item)) = true) items ->
  exists lines, item_lines bok items = Ok lines.
Proof.
  induction 1 as [|[title link] items Hi _ (lines & IH)]; cbn [item_lines].
  - eauto.
  - unfold item_line. cbn [fst snd] in Hi.
    destruct (normalize_weibo_link bok title link); [|discriminate].
    cbn [bind]. rewrite IH. cbn [bind]. eauto.
Qed.

Lemma item_lines_raise bok (items : list (list Z * list Z)) (e : exn) :
  item_lines bok items = Raise e ->
  exists before item after,
    items = before ++ item :: after
    /\ Forall (fun i => is_ok (normalize_weibo_link bok (fst i) (snd i)) = true) before
    /\ normalize_weibo_link bok (fst item) (snd item) = Raise e.
Proof.
  induction items as [|[title link] items IH]; cbn [item_lines]; [discriminate|].
  unfold item_line.
  destruct (normalize_weibo_link bok title link) as [l|e0] eqn:Hn; cbn [bind].
  - destruct (item_lines bok items) as [lines|e1]; cbn [bind]; [discriminate|].
    intros H. injection H as ->.
    destruct (IH eq_refl) as (before & item & after & -> & Hb & Hi).
    exists ((title, link) :: before), item, after.
    split; [reflexivity|]. split; [|exact Hi].
    constructor; [cbn [fst snd]; rewrite Hn; reflexivity|exact Hb].
  - intros H. injection H as ->.
    exists [], (title, link), items. split; [reflexivity|]. split; [constructor|exact Hn].
Qed.

(** X6: [build_description] returns a description exactly when the link of
    every entry normalizes; otherwise it raises what
    [normalize_weibo_link] raises for the first entry that fails, so one
    unparseable link leaves the whole feed without description. *)
Theorem X6_build_description_fails_with_the_first_bad_link bok
        (items : list (list Z * list Z)) (capture_time : aware) :
  (is_ok (build_description bok items capture_time) = true
   <-> Forall (fun item =>
                 is_ok (normalize_weibo_link bok (fst item) (snd item)) = true) items)
  /\ (forall e,
         build_description bok items capture_time = Raise e ->
         exists before item after,
           items = before ++ item :: after
           /\ Forall (fun i =>
                        is_ok (normalize_weibo_link bok (fst i) (snd i)) = true) before
           /\ normalize_weibo_link bok (fst item) (snd item) = Raise e).
Proof.
  unfold build_description. split; [split|].
  - destruct (item_lines bok items) as [lines|] eqn:Hl; cbn [bind is_ok]; [|discriminate].
    intros _. apply item_lines_inv in Hl as (links & Hall & _).
    induction Hall as [|item link items links Hi _ IH]; constructor; [|exact IH].
    rewrite Hi. reflexivity.
  - intros H. destruct (item_lines_ok bok items H) as [lines ->]. reflexivity.
  - intros e. destruct (item_lines bok items) as [lines|e0] eqn:Hl; cbn [bind];
      [discriminate|].
    intros H. injection H as ->. apply item_lines_raise. exact Hl.
Qed.



(** ** When parse_last_build_date raises *)

Lemma month_bounds (leap : bool) (m : Z) :
  1 <= m <= 12 ->
  idx DAYS_BEFORE_MONTH m + b2z ((2 <? m) && leap)
  + (if (m =? 2) && leap then 29 else idx DAYS_IN_MONTH m) <= 365 + b2z leap
  /\ (idx DAYS_BEFORE_MONTH m + b2z ((2 <? m) && leap) = 0 -> m = 1).
Proof.
  intros H. assert (H' : 1 <= m < 1 + Z.of_nat 12) by lia. clear H. revert m H'.
  destruct leap; by_cases_on 1 12%nat;
    (split; [vm_compute; discriminate
            |vm_compute; intros E; first [reflexivity|discriminate E]]).
Qed.

Lemma days_before_next_year (y : Z) :
  days_before_year (y + 1) = days_before_year y + 365 + b2z (is_leap y).
Proof.
  unfold days_before_year, is_leap. cbv zeta.
  replace (y + 1 - 1) with y by lia.
  destruct (Z.eqb_spec (y mod 4) 0) as [H4|H4];
    destruct (Z.eqb_spec (y mod 100) 0) as [H100|H100];
    destruct (Z.eqb_spec (y mod 400) 0) as [H400|H400];
    cbn [andb orb negb b2z]; lia.
Qed.

(** The ordinal of a date of the calendar lies between 1 and [MAXORDINAL]. *)
Lemma toordinal_range (d : naive) :
  valid_naive d -> 1 <= toordinal d <= MAXORDINAL.
Proof.
  intros (Hy & Hm & Hd & _). unfold toordinal, ymd2ord, MINYEAR, MAXYEAR, MAXORDINAL in *.
  pose proof (days_before_month_nonneg (year d) (month d) Hm) as Hb.
  pose proof (month_bounds (is_leap (year d)) (month d) Hm) as [Hmb _].
  pose proof (days_before_next_year (year d)) as Hn.
  unfold days_in_month in Hd. unfold days_before_month in *.
  assert (0 <= days_before_year (year d)) by (unfold days_before_year; lia).
  assert (days_before_year (year d + 1) <= 3652059) by (unfold days_before_year; lia).
  lia.
Qed.

(** The first day of the calendar is the only one of ordinal 1. *)
Lemma toordinal_first_day (d : naive) :
  valid_naive d -> toordinal d <= 1 -> year d = 1 /\ month d = 1 /\ day d = 1.
Proof.
  intros (Hy & Hm & Hd & _) H1. unfold toordinal, ymd2ord, MINYEAR, MAXYEAR in *.
  pose proof (days_before_month_nonneg (year d) (month d) Hm) as Hb.
  pose proof (month_bounds (is_leap (year d)) (month d) Hm) as [_ Hmb].
  unfold days_before_month in *.
  assert (0 <= days_before_year (year d)) by (unfold days_before_year; lia).
  assert (days_before_year (year d) = 0 -> year d = 1)
    by (unfold days_before_year; lia).
  split; [lia|]. split; [apply Hmb|]; lia.
Qed.

Lemma check_fields_inv (d d' : naive) :
  check_fields d = Ok d' ->
  d' = d /\ valid_naive d /\ 0 <= microsecond d <= 999999.
Proof.
  unfold check_fields, valid_naive. intros H.
  repeat match type of H with
         | (if negb (?a && ?b) then _ else _) = _ =>
           let Ha := fresh "Ha" in
           let Hb := fresh "Hb" in
           destruct a eqn:Ha; [|discriminate H];
           destruct b eqn:Hb; [|discriminate H];
           cbn [andb negb] in H;
           apply Z.leb_le in Ha; apply Z.leb_le in Hb
         end.
  injection H as <-. auto 15.
Qed.

(** What [datetime.strptime] returns is a date of the calendar, at a whole
    second. *)
Lemma strptime_valid (s fmt : list Z) (d : naive) :
  strptime s fmt = Ok d -> valid_naive d /\ microsecond d = 0.
Proof.
  unfold strptime. intros H.
  destruct (pattern fmt) as [re|]; [|discriminate].
  destruct (re_match re s) as [[caps [|c rest]]|]; try discriminate.
  repeat match type of H with
         | bind ?r _ = Ok _ => destruct r; cbn [bind] in H; [|discriminate H]
         end.
  apply check_fields_inv in H as (-> & Hv & _). split; [exact Hv|reflexivity].
Qed.

Lemma add_seconds_raises (d : naive) (delta : Z) (e : exn) :
  add_seconds d delta = Raise e ->
  e = OverflowError "date value out of range"
  /\ ~ 86400 <= wall_seconds d + delta < 86400 * (MAXORDINAL + 1).
Proof.
  intros H. split.
  - unfold add_seconds in H.
    destruct ((0 <? _) && _); [|congruence].
    destruct (ord2ymd _) as [[y m] dd]. discriminate.
  - intros Hr. destruct (add_seconds_ok d delta Hr) as [d' E]. congruence.
Qed.

Lemma astimezone_utc_raises (a : aware) (e : exn) :
  astimezone a UTC_TZ = Raise e ->
  e = OverflowError "date value out of range"
  /\ ~ 86400 <= wall_seconds (wall a) - tz_utcoffset (tz a) < 86400 * (MAXORDINAL + 1).
Proof.
  unfold astimezone, fromutc. intros H.
  destruct (add_seconds (wall a) (- tz_utcoffset (tz a))) as [utc|e1] eqn:E1; cbn [bind] in H.
  - exfalso. pose proof (add_seconds_spec _ _ _ E1) as (S1 & _ & _ & Ho).
    destruct (add_seconds_ok utc (tz_utcoffset UTC_TZ)) as [w E2].
    { cbn [UTC_TZ tz_utcoffset].
      pose proof (add_seconds_spec _ _ _ E1) as (_ & _ & (_ & _ & _ & Hh & Hmi & Hs) & _).
      clear S1. unfold wall_seconds, MAXORDINAL in *. lia. }
    rewrite E2 in H. discriminate.
  - injection H as <-. apply add_seconds_raises in E1 as [-> Hr].
    split; [reflexivity|]. intros Hc. apply Hr. lia.
Qed.

Lemma try_formats_raises (now : aware) (text : list Z) (fmts : list (list Z)) (e : exn) :
  try_formats now text fmts = Raise e ->
  now_pair now = Raise e
  \/ exists fmt, In fmt fmts /\ parse_as text fmt = Raise e
                 /\ forall msg, e <> ValueError msg.
Proof.
  induction fmts as [|fmt fmts IH]; cbn [try_formats]; [auto|].
  destruct (parse_as text fmt) as [[l0 u0]|e0] eqn:E; [discriminate|].
  assert (Hstop : @Raise (aware * aware) e0 = Raise e ->
                  (forall msg, e0 <> ValueError msg) ->
                  now_pair now = Raise e
                  \/ exists f, In f (fmt :: fmts) /\ parse_as text f = Raise e
                               /\ forall msg, e <> ValueError msg).
  { intros H Hne. injection H as <-. right. exists fmt.
    split; [left; reflexivity|]. split; [exact E|exact Hne]. }
  destruct e0; try (intros H; apply (Hstop H); discriminate).
  intros H. destruct (IH H) as [Hn|(f & Hin & Hf)]; [auto|].
  right. exists f. split; [right; exact Hin|exact Hf].
Qed.

Lemma parse_last_build_date_raises (now : aware) (value : option (list Z)) (e : exn) :
  clock_ok now ->
  parse_last_build_date now value = Raise e ->
  e = OverflowError "date value out of range"
  /\ exists v fmt naive_dt,
      value = Some v /\ In fmt FORMATS
      /\ strptime (strip v) fmt = Ok naive_dt
      /\ year naive_dt = 1 /\ month naive_dt = 1 /\ day naive_dt = 1
      /\ hour naive_dt * 3600 + minute naive_dt * 60 + second naive_dt < 29160.
Proof.
  intros Hc H.
  assert (Hnow : now_pair now <> Raise e).
  { unfold now_pair. destruct (astimezone_utc_ok now Hc) as [g ->]. discriminate. }
  assert (Ht : exists v, value = Some v /\ try_formats now (strip v) FORMATS = Raise e).
  { unfold parse_last_build_date in H.
    destruct value as [[|c v]|]; try contradiction. eauto. }
  destruct Ht as (v & -> & Ht).
  apply try_formats_raises in Ht as [Ht|(fmt & Hin & Hp & Hne)]; [contradiction|].
  unfold parse_as in Hp.
  destruct (strptime (strip v) fmt) as [d|e0] eqn:Hs; cbn [bind] in Hp.
  - destruct (astimezone (replace_tzinfo d BEIJING_TZ) UTC_TZ) as [g|e1] eqn:Ha;
      cbn [bind] in Hp; [discriminate|].
    injection Hp as ->. apply astimezone_utc_raises in Ha as [-> Hr].
    split; [reflexivity|]. exists v, fmt, d.
    pose proof (strptime_valid _ _ _ Hs) as [Hv _].
    pose proof (toordinal_range d Hv) as Ho.
    pose proof Hv as (_ & _ & _ & Hh & Hmi & Hse).
    cbn [replace_tzinfo wall tz BEIJING_TZ tz_utcoffset] in Hr.
    unfold wall_seconds, MAXORDINAL in *.
    assert (H1 : toordinal d <= 1) by lia.
    destruct (toordinal_first_day d Hv H1) as (Ey & Em & Ed).
    repeat split; try assumption. lia.
  - exfalso. injection Hp as ->.
    apply strptime_raises in Hs as [msg ->]. exact (Hne msg eq_refl).
Qed.

(** X8: with a clock in the years 1 to 9999, [parse_last_build_date]
    raises in one case only: a format matched the text, and the date and
    time read from it lie before 08:06:00 on 1 January of the year 1, so
    that the conversion to universal time leaves the calendar. The
    exception is then the [OverflowError] of the subtraction, which the
    [except ValueError] does not catch. *)
Theorem X8_parse_raises_only_at_the_start_of_the_calendar
        (now : aware) (value : option (list Z)) (e : exn) :
  clock_ok now ->
  parse_last_build_date now value = Raise e ->
  e = OverflowError "date value out of range"
  /\ exists v fmt naive_dt,
      value = Some v /\ In fmt FORMATS
      /\ strptime (strip v) fmt = Ok naive_dt
      /\ year naive_dt = 1 /\ month naive_dt = 1 /\ day naive_dt = 1
      /\ hour naive_dt * 3600 + minute naive_dt * 60 + second naive_dt < 29160.
Proof. apply parse_last_build_date_raises. Qed.

Lemma X8_witness :
  clock_ok sample_now
  /\ parse_last_build_date sample_now (Some (str "Mon, 01 Jan 0001 08:05:59 GMT"))
     = Raise (OverflowError "date value out of range")
  /\ exists v fmt naive_dt,
      Some (str "Mon, 01 Jan 0001 08:05:59 GMT") = Some v /\ In fmt FORMATS
      /\ strptime (strip v) fmt = Ok naive_dt
      /\ year naive_dt = 1 /\ month naive_dt = 1 /\ day naive_dt = 1
      /\ hour naive_dt * 3600 + minute naive_dt * 60 + second naive_dt < 29160.
Proof.
  assert (Hc : clock_ok sample_now)
    by (vm_compute; split; [discriminate|reflexivity]).
  assert (H : parse_last_build_date sample_now
                (Some (str "Mon, 01 Jan 0001 08:05:59 GMT"))
              = Raise (OverflowError "date value out of range"))
    by (vm_compute; reflexivity).
  split; [exact Hc|]. split; [exact H|].
  exact (proj2 (X8_parse_raises_only_at_the_start_of_the_calendar _ _ _ Hc H)).
Defined.

(** ** A dated feed and the clock *)

Lemma strip_trimmed (s : list Z) : trimmed s -> strip s = s.
Proof.
  destruct s as [|c r]; [reflexivity|]. intros [Hc Hl].
  destruct (@exists_last _ (c :: r) ltac:(discriminate)) as (s' & e & E).
  rewrite E in Hl. rewrite last_last in Hl.
  destruct s' as [|c' s'].
  - cbn [app] in E. injection E as -> ->. unfold strip. cbn [lstrip_by]. rewrite Hc.
    cbn [rstrip_by]. rewrite Hc. reflexivity.
  - cbn [app] in E. injection E as <- ->. apply strip_id; assumption.
Qed.

Lemma strip_get_text (e : option Element) : strip (get_text e) = get_text e.
Proof.
  destruct e as [e|]; [|reflexivity]. apply strip_trimmed.
  unfold get_text. destruct (strip_spec (join [] (itertext e))) as (_ & _ & _ & _ & _ & H).
  exact H.
Qed.

Lemma parse_as_value_error (text fmt : list Z) (msg : string) :
  parse_as text fmt = Raise (ValueError msg) -> is_ok (strptime text fmt) = false.
Proof.
  unfold parse_as. destruct (strptime text fmt) as [d|e]; cbn [bind]; [|reflexivity].
  destruct (astimezone _ UTC_TZ) as [g|e] eqn:Ha; cbn [bind]; [discriminate|].
  intros H. injection H as ->. apply astimezone_utc_raises in Ha as [Ha _]. discriminate.
Qed.

Lemma try_formats_clock (now now' : aware) (text : list Z) (fmts : list (list Z)) :
  Exists (fun fmt => is_ok (strptime text fmt) = true) fmts ->
  try_formats now text fmts = try_formats now' text fmts.
Proof.
  induction fmts as [|fmt fmts IH]; intros H; [inversion H|].
  cbn [try_formats].
  destruct (parse_as text fmt) as [p|e] eqn:E; [reflexivity|].
  destruct e; try reflexivity.
  apply parse_as_value_error in E.
  apply IH. inversion H as [? ? H1|? ? H1]; [congruence|exact H1].
Qed.

Lemma build_rss_clock bok (now now' : aware) (root channel : Element) :
  find root (str "channel") = Some channel ->
  Exists (fun fmt =>
            is_ok (strptime (get_text (find channel (str "lastBuildDate"))) fmt) = true)
         FORMATS ->
  build_rss bok now root = build_rss bok now' root.
Proof.
  intros Hc Hf. unfold build_rss. rewrite Hc.
  assert (E : parse_last_build_date now
                (Some (get_text (find channel (str "lastBuildDate"))))
              = parse_last_build_date now'
                  (Some (get_text (find channel (str "lastBuildDate"))))).
  { unfold parse_last_build_date.
    destruct (get_text (find channel (str "lastBuildDate"))) as [|c t] eqn:Ht.
    - exfalso. clear -Hf. revert Hf. unfold FORMATS.
      cbn [map]. intros H.
      repeat match goal with
             | H : Exists _ (_ :: _) |- _ => inversion H; clear H; subst
             | H : Exists _ [] |- _ => inversion H
             | H : is_ok _ = true |- _ => vm_compute in H; discriminate H
             end.
    - rewrite <- Ht in Hf |- *. rewrite strip_get_text. apply try_formats_clock. exact Hf. }
  rewrite E. reflexivity.
Qed.

(** X9: when a format of [parse_last_build_date] matches the text of the
    feed's [lastBuildDate], the run does not read the clock: whatever the
    time at which [aggregate_rss] is called, it ends the same way and
    leaves the same files, so that running it again on the same input
    rewrites the same output. *)
Theorem X9_dated_feed_does_not_depend_on_the_clock bok (now now' : aware)
        (inp outp : string) (w : world) (root channel : Element) :
  files w !! inp = Some (XmlDocument root) ->
  find root (str "channel") = Some channel ->
  Exists (fun fmt =>
            is_ok (strptime (get_text (find channel (str "lastBuildDate"))) fmt) = true)
         FORMATS ->
  aggregate_rss bok now inp outp w = aggregate_rss bok now' inp outp w.
Proof.
  intros Hf Hc He. unfold aggregate_rss, parse_file. rewrite Hf. cbn [bind].
  rewrite (build_rss_clock bok now now' root channel Hc He). reflexivity.
Qed.

Lemma X9_witness :
  aggregate_rss no_bracket_check sample_now "demo_input.rss" "demo_output.rss"
    (sample_world sample_feed)
  = aggregate_rss no_bracket_check later_now "demo_input.rss" "demo_output.rss"
      (sample_world sample_feed).
Proof.
  assert (Hc : exists channel, find sample_feed (str "channel") = Some channel)
    by (eexists; vm_compute; reflexivity).
  destruct Hc as [channel Hc].
  assert (Hch : channel = hd channel (el_children sample_feed)).
  { vm_compute in Hc. injection Hc as <-. vm_compute. reflexivity. }
  apply (X9_dated_feed_does_not_depend_on_the_clock no_bracket_check sample_now later_now
           "demo_input.rss" "demo_output.rss" (sample_world sample_feed)
           sample_feed channel).
  - reflexivity.
  - exact Hc.
  - apply Exists_cons_hd. rewrite Hch. vm_compute. reflexivity.
Defined.

(** ** The guid of the aggregated item *)

Lemma year_int_checked_all :
  forallb (fun y => match py_int (decimal y) with
                    | Ok v => v =? y
                    | Raise _ => false
                    end) (zrange 1 (Z.to_nat 9999)) = true.
Proof. vm_compute. reflexivity. Qed.

Lemma decimal_year_inj (y1 y2 : Z) :
  1 <= y1 <= 9999 -> 1 <= y2 <= 9999 -> decimal y1 = decimal y2 -> y1 = y2.
Proof.
  intros H1 H2 E. pose proof year_int_checked_all as Hc. rewrite forallb_forall in Hc.
  pose proof (Hc y1 (zrange_in 1 (Z.to_nat 9999) y1 ltac:(lia))) as C1.
  pose proof (Hc y2 (zrange_in 1 (Z.to_nat 9999) y2 ltac:(lia))) as C2.
  rewrite E in C1. destruct (py_int (decimal y2)) as [v|]; [|discriminate].
  apply Z.eqb_eq in C1, C2. congruence.
Qed.

Lemma pad2_inj (a b : Z) : pad2 a = pad2 b -> a = b.
Proof. unfold pad2. intros H. injection H as H1 H2. lia. Qed.

Lemma guid_text (bj gmt : aware) (description : list Z) :
  exists tail,
    find_path (indent (new_rss bj gmt description) 0)
      [str "channel"; str "item"; str "guid"]
    = Some (Elem (str "guid") [(str "isPermaLink", str "false")]
              (str "weibo-hot-"
               ++ decimal (year (wall bj)) ++ pad2 (month (wall bj))
               ++ pad2 (day (wall bj)) ++ pad2 (hour (wall bj))
               ++ pad2 (minute (wall bj)) ++ pad2 (second (wall bj)))
              tail []).
Proof. eexists. reflexivity. Qed.

Lemma guid_inj (bj1 gmt1 bj2 gmt2 : aware) (d1 d2 : list Z) (g1 g2 : Element) :
  valid_naive (wall bj1) -> valid_naive (wall bj2) ->
  find_path (indent (new_rss bj1 gmt1 d1) 0)
    [str "channel"; str "item"; str "guid"] = Some g1 ->
  find_path (indent (new_rss bj2 gmt2 d2) 0)
    [str "channel"; str "item"; str "guid"] = Some g2 ->
  el_text g1 = el_text g2 <-> wall_fields (wall bj1) = wall_fields (wall bj2).
Proof.
  intros (Hy1 & _) (Hy2 & _) Hg1 Hg2.
  assert (T : forall bj gmt d g,
             find_path (indent (new_rss bj gmt d) 0)
               [str "channel"; str "item"; str "guid"] = Some g ->
             el_text g
             = str "weibo-hot-"
               ++ decimal (year (wall bj)) ++ pad2 (month (wall bj))
               ++ pad2 (day (wall bj)) ++ pad2 (hour (wall bj))
               ++ pad2 (minute (wall bj)) ++ pad2 (second (wall bj))).
  { intros bj gmt d g Hg. destruct (guid_text bj gmt d) as [t E].
    rewrite E in Hg. injection Hg as <-. reflexivity. }
  rewrite (T _ _ _ _ Hg1), (T _ _ _ _ Hg2). clear T Hg1 Hg2.
  unfold wall_fields, MINYEAR, MAXYEAR in *.
  split.
  - intros H. apply app_inv_head in H.
    apply app_inj_2 in H as [Hy H]; [|reflexivity].
    apply decimal_year_inj in Hy; [|assumption..].
    apply app_inj_1 in H as [Hm H]; [|reflexivity].
    apply app_inj_1 in H as [Hd H]; [|reflexivity].
    apply app_inj_1 in H as [Hh H]; [|reflexivity].
    apply app_inj_1 in H as [Hmi Hs]; [|reflexivity].
    apply pad2_inj in Hm, Hd, Hh, Hmi, Hs. congruence.
  - intros H. injection H as -> -> -> -> -> ->. reflexivity.
Qed.

(** X10: the [guid] text of the aggregated item names the capture time to
    the second and nothing else: two outputs carry the same guid exactly
    when the year, month, day, hour, minute and second of their local
    capture times agree. *)
Theorem X10_guid_identifies_the_capture_second
        (bj1 gmt1 bj2 gmt2 : aware) (d1 d2 : list Z) (g1 g2 : Element) :
  valid_naive (wall bj1) -> valid_naive (wall bj2) ->
  find_path (indent (new_rss bj1 gmt1 d1) 0)
    [str "channel"; str "item"; str "guid"] = Some g1 ->
  find_path (indent (new_rss bj2 gmt2 d2) 0)
    [str "channel"; str "item"; str "guid"] = Some g2 ->
  el_text g1 = el_text g2 <-> wall_fields (wall bj1) = wall_fields (wall bj2).
Proof. apply guid_inj. Qed.

Lemma X10_witness :
  exists g1 g2,
    find_path (indent (new_rss sample_now sample_now []) 0)
      [str "channel"; str "item"; str "guid"] = Some g1
    /\ find_path (indent (new_rss later_now later_now []) 0)
         [str "channel"; str "item"; str "guid"] = Some g2
    /\ (el_text g1 = el_text g2
        <-> wall_fields (wall sample_now) = wall_fields (wall later_now)).
Proof.
  assert (V1 : valid_naive (wall sample_now))
    by (vm_compute; repeat split; discriminate).
  assert (V2 : valid_naive (wall later_now))
    by (vm_compute; repeat split; discriminate).
  destruct (guid_text sample_now sample_now []) as [t1 E1].
  destruct (guid_text later_now later_now []) as [t2 E2].
  eexists. eexists. split; [exact E1|]. split; [exact E2|].
  exact (X10_guid_identifies_the_capture_second _ _ _ _ _ _ _ _ V1 V2 E1 E2).
Defined.

(** ** Texts without lone surrogates *)

Ltac zprop :=
  repeat match goal with
         | H : (_ <? _) = true |- _ => apply Z.ltb_lt in H
         | H : (_ <? _) = false |- _ => apply Z.ltb_ge in H
         | H : (_ <=? _) = true |- _ => apply Z.leb_le in H
         | H : (_ <=? _) = false |- _ => apply Z.leb_gt in H
         | H : (_ =? _) = true |- _ => apply Z.eqb_eq in H
         | H : (_ =? _) = false |- _ => apply Z.eqb_neq in H
         | H : (_ && _) = true |- _ => apply andb_prop in H; destruct H
         | H : (_ || _) = false |- _ => apply orb_false_elim in H; destruct H
         | H : (_ && _) = false |- _ => apply andb_false_iff in H; destruct H
         | H : (_ || _) = true |- _ => apply orb_prop in H; destruct H
         | H : negb _ = true |- _ => apply negb_true_iff in H
         | H : negb _ = false |- _ => apply negb_false_iff in H
         | H : (if ?c then _ else _) = _ |- _ => destruct c eqn:?
         end.

Ltac scalar_goal :=
  unfold is_scalar;
  apply andb_true_intro; split;
  [apply andb_true_intro; split; [apply Z.leb_le|apply Z.ltb_lt]
  |apply negb_true_iff; apply andb_false_iff; rewrite !Z.leb_gt];
  lia.

Lemma is_scalar_encodes (c : Z) :
  is_scalar c = true <-> utf8_encode_char c <> None.
Proof.
  unfold utf8_encode_char. split.
  - intros H. unfold is_scalar in H. zprop;
    repeat match goal with
           | |- context [if ?c then _ else _] => destruct c eqn:?
           end; zprop; try discriminate; exfalso; lia.
  - intros H.
    repeat match type of H with
           | context [if ?c then _ else _] => destruct c eqn:?
           end; zprop; try congruence; scalar_goal.
Qed.

Lemma utf8_encode_ok (s : list Z) :
  Forall (fun c => is_scalar c = true) s -> exists bs, utf8_encode s = Ok bs.
Proof.
  induction 1 as [|c s Hc _ (bs & IH)]; cbn [utf8_encode]; [eauto|].
  apply is_scalar_encodes in Hc.
  destruct (utf8_encode_char c) as [b|]; [|congruence].
  rewrite IH. cbn [bind]. eauto.
Qed.

Lemma utf8_encode_raises (s : list Z) (e : exn) :
  utf8_encode s = Raise e ->
  e = UnicodeEncodeError /\ Exists (fun c => is_scalar c = false) s.
Proof.
  induction s as [|c s IH]; cbn [utf8_encode]; [discriminate|].
  destruct (utf8_encode_char c) as [b|] eqn:Hc.
  - destruct (utf8_encode s) as [bs|e0]; cbn [bind]; [discriminate|].
    intros H. injection H as ->. destruct (IH eq_refl) as [-> Hex].
    split; [reflexivity|]. apply Exists_cons_tl. exact Hex.
  - intros H. injection H as <-. split; [reflexivity|]. apply Exists_cons_hd.
    destruct (is_scalar c) eqn:Hs; [|reflexivity].
    apply is_scalar_encodes in Hs. congruence.
Qed.

Lemma quote_ok (s : list Z) :
  Forall (fun c => is_scalar c = true) s -> exists enc, quote s [] = Ok enc.
Proof.
  intros H. unfold quote. destruct s as [|c s]; [eauto|].
  destruct (utf8_encode_ok _ H) as [bs ->]. cbn [bind]. eauto.
Qed.

Lemma quote_raises (s : list Z) (e : exn) :
  quote s [] = Raise e ->
  e = UnicodeEncodeError /\ Exists (fun c => is_scalar c = false) s.
Proof.
  unfold quote. destruct s as [|c s]; [discriminate|].
  destruct (utf8_encode (c :: s)) as [bs|e0] eqn:E; cbn [bind]; [discriminate|].
  intros H. injection H as ->. apply utf8_encode_raises. exact E.
Qed.

(** What the decoder returns holds no surrogate, whatever the bytes. *)
Lemma utf8_decode_scalar_upto (n : nat) (bs : list Z) :
  (length bs <= n)%nat ->
  Forall (fun b => 0 <= b < 256) bs ->
  Forall (fun c => is_scalar c = true) (utf8_decode_replace bs).
Proof.
  revert bs. induction n as [|n IH]; intros bs Hl Hb.
  - destruct bs; [constructor|cbn [length] in Hl; lia].
  - assert (Hrep : is_scalar REPLACEMENT = true) by reflexivity.
    destruct bs as [|b0 t1]; [constructor|].
    cbn [length] in Hl. cbn [utf8_decode_replace].
    inversion Hb as [|? ? H0 Ht1]; subst.
    assert (R1 : Forall (fun c => is_scalar c = true) (utf8_decode_replace t1))
      by (apply IH; [lia|exact Ht1]).
    destruct (b0 <? 128) eqn:C1.
    { constructor; [|exact R1]. zprop; scalar_goal. }
    destruct (b0 <? 194) eqn:C2; [constructor; assumption|].
    destruct (b0 <? 224) eqn:C3.
    { destruct t1 as [|b1 t2]; [repeat constructor|].
      inversion Ht1 as [|? ? H1 Ht2]; subst. cbn [length] in Hl.
      destruct (is_cont b1) eqn:K1; [|constructor; assumption].
      constructor; [|apply IH; [lia|exact Ht2]].
      unfold is_cont in *. zprop; scalar_goal. }
    destruct (b0 <? 240) eqn:C4.
    { destruct t1 as [|b1 t2]; [repeat constructor|].
      inversion Ht1 as [|? ? H1 Ht2]; subst. cbn [length] in Hl.
      destruct (negb (is_cont b1) || (if b1 <? 160 then b0 =? 224 else b0 =? 237)) eqn:K1;
        [constructor; assumption|].
      destruct t2 as [|b2 t3]; [repeat constructor|].
      inversion Ht2 as [|? ? H2 Ht3]; subst. cbn [length] in Hl.
      assert (R2 : Forall (fun c => is_scalar c = true) (utf8_decode_replace (b2 :: t3)))
        by (apply IH; [cbn [length]; lia|exact Ht2]).
      destruct (is_cont b2) eqn:K2; [|constructor; assumption].
      constructor; [|apply IH; [lia|exact Ht3]].
      unfold is_cont in *. zprop; scalar_goal. }
    destruct (b0 <? 245) eqn:C5; [|constructor; assumption].
    destruct t1 as [|b1 t2]; [repeat constructor|].
    inversion Ht1 as [|? ? H1 Ht2]; subst. cbn [length] in Hl.
    destruct (negb (is_cont b1) || (if b1 <? 144 then b0 =? 240 else b0 =? 244)) eqn:K1;
      [constructor; assumption|].
    destruct t2 as [|b2 t3]; [repeat constructor|].
    inversion Ht2 as [|? ? H2 Ht3]; subst. cbn [length] in Hl.
    assert (R2 : Forall (fun c => is_scalar c = true) (utf8_decode_replace (b2 :: t3)))
      by (apply IH; [cbn [length]; lia|exact Ht2]).
    destruct (negb (is_cont b2)) eqn:K2; [constructor; assumption|].
    destruct t3 as [|b3 t4]; [repeat constructor|].
    inversion Ht3 as [|? ? H3 Ht4]; subst. cbn [length] in Hl.
    assert (R3 : Forall (fun c => is_scalar c = true) (utf8_decode_replace (b3 :: t4)))
      by (apply IH; [cbn [length]; lia|exact Ht3]).
    destruct (is_cont b3) eqn:K3; [|constructor; assumption].
    constructor; [|apply IH; [lia|exact Ht4]].
    unfold is_cont in *. zprop; scalar_goal.
Qed.

Lemma utf8_decode_scalar (bs : list Z) :
  Forall (fun b => 0 <= b < 256) bs ->
  Forall (fun c => is_scalar c = true) (utf8_decode_replace bs).
Proof. apply (utf8_decode_scalar_upto (length bs)). lia. Qed.

(** ** Where the characters of a result come from *)

Section Kept.
Variable P : Z -> Prop.

Lemma Forall_lstrip_by (p : Z -> bool) (s : list Z) :
  Forall P s -> Forall P (lstrip_by p s).
Proof.
  induction 1 as [|c s Hc Hs IH]; cbn [lstrip_by]; [constructor|].
  destruct (p c); [exact IH|constructor; assumption].
Qed.

Lemma Forall_rstrip_by (p : Z -> bool) (s : list Z) :
  Forall P s -> Forall P (rstrip_by p s).
Proof.
  induction 1 as [|c s Hc Hs IH]; cbn [rstrip_by]; [constructor|].
  destruct (rstrip_by p s) as [|x r].
  - destruct (p c); repeat constructor. exact Hc.
  - constructor; assumption.
Qed.

Lemma Forall_strip (s : list Z) : Forall P s -> Forall P (strip s).
Proof. intros H. apply Forall_rstrip_by, Forall_lstrip_by, H. Qed.

Lemma Forall_filter_kept (p : Z -> bool) (s : list Z) :
  Forall P s -> Forall P (List.filter p s).
Proof.
  induction 1 as [|c s Hc Hs IH]; cbn [List.filter]; [constructor|].
  destruct (p c); [constructor; assumption|exact IH].
Qed.

Lemma Forall_partition_at (c : Z) (s a b : list Z) :
  partition_at c s = Some (a, b) -> Forall P s -> Forall P a /\ Forall P b.
Proof.
  revert a. induction s as [|x s IH]; intros a H Hs; cbn [partition_at] in H;
    [discriminate|].
  inversion Hs as [|? ? Hx Hs']; subst.
  destruct (char_eqb x c).
  - injection H as <- <-. split; [constructor|exact Hs'].
  - destruct (partition_at c s) as [[a' b']|]; [|discriminate].
    injection H as <- <-. destruct (IH a' eq_refl Hs') as [Ha Hb].
    split; [constructor; assumption|exact Hb].
Qed.

Lemma Forall_split_char_aux (c : Z) (cur s : list Z) :
  Forall P cur -> Forall P s -> Forall (Forall P) (split_char_aux c cur s).
Proof.
  revert cur. induction s as [|x s IH]; intros cur Hc Hs; cbn [split_char_aux].
  - repeat constructor. apply Forall_rev. exact Hc.
  - inversion Hs as [|? ? Hx Hs']; subst.
    destruct (char_eqb x c).
    + constructor; [apply Forall_rev; exact Hc|]. apply IH; [constructor|exact Hs'].
    + apply IH; [constructor; assumption|exact Hs'].
Qed.

Lemma Forall_split_char (c : Z) (s : list Z) :
  Forall P s -> Forall (Forall P) (split_char c s).
Proof. apply Forall_split_char_aux. constructor. Qed.

Lemma Forall_splitnetloc (s : list Z) :
  Forall P s -> Forall P (fst (splitnetloc s)) /\ Forall P (snd (splitnetloc s)).
Proof.
  induction 1 as [|c s Hc Hs [IHa IHb]]; cbn [splitnetloc]; [split; constructor|].
  destruct (char_in c (str "/?#")).
  - split; [constructor|constructor; assumption].
  - destruct (splitnetloc s) as [a b]. cbn [fst snd] in *.
    split; [constructor; assumption|exact IHb].
Qed.

Lemma Forall_replace_char (c : Z) (rep s : list Z) :
  Forall P rep -> Forall P s -> Forall P (replace_char c rep s).
Proof.
  intros Hr. unfold replace_char.
  induction 1 as [|x s Hx Hs IH]; cbn [flat_map]; [constructor|].
  apply Forall_app. split; [|exact IH].
  destruct (char_eqb x c); [exact Hr|repeat constructor; exact Hx].
Qed.

End Kept.

(** ** urlsplit and urlparse *)

Lemma match_slashes {A : Type} (url : list Z) (f : list Z -> A) (b : A) :
  match url with
  | 47 :: 47 :: after => f after
  | _ => b
  end
  = match url with
    | c1 :: c2 :: after => if (c1 =? 47) && (c2 =? 47) then f after else b
    | _ => b
    end.
Proof.
  destruct url as [|c1 [|c2 after]]; try reflexivity.
  - destruct c1 as [|p|p]; try reflexivity.
    do 6 (try (destruct p as [p|p|]; try reflexivity)).
  - destruct c1 as [|p|p]; try reflexivity.
    do 6 (try (destruct p as [p|p|]; try reflexivity)).
    destruct c2 as [|q|q]; try reflexivity.
    do 6 (try (destruct q as [q|q|]; try reflexivity)).
Qed.

(** The two places where [urlsplit] raises, and where the network location
    and the query of its result come from. *)
Lemma urlsplit_shape bok (url : list Z) :
  exists sch nl pth qry frag,
    (forall P : Z -> Prop, Forall P url -> Forall P nl /\ Forall P qry)
    /\ urlsplit bok url
       = if xorb (char_in 91 nl) (char_in 93 nl)
         then Raise (ValueError "Invalid IPv6 URL")
         else if char_in 91 nl && char_in 93 nl && negb (bok nl)
              then Raise (ValueError "Invalid IPv6 URL")
              else (_ <- checknetloc nl ;; Ok (mkParseResult sch nl pth [] qry frag)).
Proof.
  unfold urlsplit.
  set (u1 := List.filter (fun c => negb (char_in c [9; 13; 10]))
               (lstrip_by (fun c => c <=? 32) url)).
  assert (H1 : forall P : Z -> Prop, Forall P url -> Forall P u1).
  { intros P H. apply Forall_filter_kept, Forall_lstrip_by, H. }
  match goal with
  | |- context [let '(sch, url) := ?X in _] =>
    assert (H2 : exists sch u2, X = (sch, u2)
                                /\ forall P : Z -> Prop, Forall P url -> Forall P u2)
  end.
  { destruct (partition_at 58 u1) as [[[|c0 pre] rest]|] eqn:Ep; eauto.
    destruct (is_ascii_alpha c0 && forallb scheme_char (c0 :: pre)); eauto.
    eexists. eexists. split; [reflexivity|].
    intros P H. apply (Forall_partition_at P _ _ _ _ Ep). apply H1, H. }
  destruct H2 as (sch & u2 & -> & H2). clearbody u1. clear H1 u1.
  rewrite match_slashes.
  set (cut := fun rest : list Z =>
                let pf := match partition_at 35 rest with
                          | Some (a, b) => (a, b)
                          | None => (rest, [])
                          end in
                let pq := match partition_at 63 (fst pf) with
                          | Some (a, b) => (a, b)
                          | None => (fst pf, [])
                          end in
                (fst pq, snd pq, snd pf)).
  assert (Hcut : forall (P : Z -> Prop) rest, Forall P rest -> Forall P (snd (fst (cut rest)))).
  { intros P rest H. unfold cut. cbv zeta. cbn [fst snd].
    destruct (partition_at 35 rest) as [[a b]|] eqn:E1; cbn [fst snd].
    - destruct (Forall_partition_at P _ _ _ _ E1 H) as [Ha _].
      destruct (partition_at 63 a) as [[a' b']|] eqn:E2; cbn [fst snd]; [|constructor].
      apply (Forall_partition_at P _ _ _ _ E2 Ha).
    - destruct (partition_at 63 rest) as [[a' b']|] eqn:E2; cbn [fst snd]; [|constructor].
      apply (Forall_partition_at P _ _ _ _ E2 H). }
  assert (Hend : forall nl rest,
             (let '(nl, url0) := (nl, rest) in
              let '(url1, frag) := match partition_at 35 url0 with
                                   | Some (a, b) => (a, b)
                                   | None => (url0, [])
                                   end in
              let '(url3, qry) := match partition_at 63 url1 with
                                  | Some (a, b) => (a, b)
                                  | None => (url1, [])
                                  end in
              _ <- checknetloc nl ;; Ok (mkParseResult sch nl url3 [] qry frag))
             = (_ <- checknetloc nl ;;
                Ok (mkParseResult sch nl (fst (fst (cut rest))) []
                      (snd (fst (cut rest))) (snd (cut rest))))).
  { intros nl rest. unfold cut. cbv zeta.
    destruct (partition_at 35 rest) as [[a b]|]; cbn [fst snd];
      destruct (partition_at 63 _) as [[a' b']|]; reflexivity. }
  assert (Hplain : exists nl pth qry frag,
             (forall P : Z -> Prop, Forall P url -> Forall P nl /\ Forall P qry)
             /\ bind (Ok ([], u2))
                  (fun split : list Z * list Z =>
                     let '(nl, url0) := split in
                     let '(url1, frag) := match partition_at 35 url0 with
                                          | Some (a, b) => (a, b)
                                          | None => (url0, [])
                                          end in
                     let '(url3, qry) := match partition_at 63 url1 with
                                         | Some (a, b) => (a, b)
                                         | None => (url1, [])
                                         end in
                     _ <- checknetloc nl ;; Ok (mkParseResult sch nl url3 [] qry frag))
                = if xorb (char_in 91 nl) (char_in 93 nl)
                  then Raise (ValueError "Invalid IPv6 URL")
                  else if char_in 91 nl && char_in 93 nl && negb (bok nl)
                       then Raise (ValueError "Invalid IPv6 URL")
                       else (_ <- checknetloc nl ;; Ok (mkParseResult sch nl pth [] qry frag))).
  { exists [], (fst (fst (cut u2))), (snd (fst (cut u2))), (snd (cut u2)).
    split; [intros P H; split; [constructor|apply Hcut, H2, H]|].
    cbn [bind]. rewrite Hend. reflexivity. }
  destruct u2 as [|c1 [|c2 after]];
    try (destruct Hplain as (nl & p & q & f & HH); exists sch, nl, p, q, f; exact HH).
  destruct ((c1 =? 47) && (c2 =? 47));
    [|destruct Hplain as (nl & p & q & f & HH); exists sch, nl, p, q, f; exact HH].
  clear Hplain.
  destruct (splitnetloc after) as [nl rest] eqn:En.
  exists sch, nl, (fst (fst (cut rest))), (snd (fst (cut rest))), (snd (cut rest)).
  assert (Hn : forall P : Z -> Prop, Forall P url -> Forall P nl /\ Forall P rest).
  { intros P H. specialize (H2 P H).
    inversion H2 as [|? ? _ H3]; subst. inversion H3 as [|? ? _ H4]; subst.
    pose proof (Forall_splitnetloc P after H4) as Hs. rewrite En in Hs. exact Hs. }
  split; [intros P H; destruct (Hn P H); split; [assumption|apply Hcut; assumption]|].
  destruct (xorb (char_in 91 nl) (char_in 93 nl)); [reflexivity|].
  destruct (char_in 91 nl && char_in 93 nl && negb (bok nl)); [reflexivity|].
  cbn [bind]. rewrite Hend. reflexivity.
Qed.

Lemma urlparse_shape bok (url : list Z) :
  exists nl qry,
    (forall P : Z -> Prop, Forall P url -> Forall P nl /\ Forall P qry)
    /\ is_ok (urlparse bok url)
       = negb (xorb (char_in 91 nl) (char_in 93 nl))
         && negb (char_in 91 nl && char_in 93 nl && negb (bok nl))
         && is_ok (checknetloc nl)
    /\ (forall r, urlparse bok url = Ok r -> query r = qry)
    /\ (forall e, urlparse bok url = Raise e -> exists msg, e = ValueError msg).
Proof.
  destruct (urlsplit_shape bok url) as (sch & nl & pth & qry & frag & HP & E).
  exists nl, qry. split; [exact HP|]. unfold urlparse. rewrite E. clear E.
  destruct (xorb (char_in 91 nl) (char_in 93 nl)); cbn [bind is_ok negb andb].
  { split; [reflexivity|]. split; [discriminate|]. intros e H. injection H as <-. eauto. }
  destruct (char_in 91 nl && char_in 93 nl && negb (bok nl)); cbn [bind is_ok negb andb].
  { split; [reflexivity|]. split; [discriminate|]. intros e H. injection H as <-. eauto. }
  unfold checknetloc. destruct (existsb _ nl); cbn [bind is_ok].
  { split; [reflexivity|]. split; [discriminate|]. intros e H. injection H as <-. eauto. }
  cbn [scheme path netloc query fragment].
  destruct (existsb (str_eqb sch) uses_params && char_in 59 pth).
  - destruct (splitparams pth) as [p prm]. cbn [is_ok].
    split; [reflexivity|]. split; [|discriminate].
    intros r H. injection H as <-. reflexivity.
  - cbn [is_ok]. split; [reflexivity|]. split; [|discriminate].
    intros r H. injection H as <-. reflexivity.
Qed.

(** [urlparse] raises nothing but [ValueError]. *)
Lemma urlparse_raises bok (url : list Z) (e : exn) :
  urlparse bok url = Raise e -> exists msg, e = ValueError msg.
Proof.
  destruct (urlparse_shape bok url) as (nl & qry & _ & _ & _ & H). apply H.
Qed.

Lemma urlparse_query_kept bok (P : Z -> Prop) (url : list Z) (r : ParseResult) :
  urlparse bok url = Ok r -> Forall P url -> Forall P (query r).
Proof.
  destruct (urlparse_shape bok url) as (nl & qry & HP & _ & Hq & _).
  intros H Hu. rewrite (Hq r H). apply HP, Hu.
Qed.

Lemma char_in_absent (c : Z) (s : list Z) :
  Forall (fun x => x <> c) s -> char_in c s = false.
Proof.
  unfold char_in, char_eqb.
  induction 1 as [|x s Hx _ IH]; cbn [existsb]; [reflexivity|].
  rewrite IH, orb_false_r. apply Z.eqb_neq. congruence.
Qed.

(** A link without brackets and lookalike delimiters is accepted. *)
Lemma urlparse_plain_ok bok (url : list Z) :
  plain_link url = true -> is_ok (urlparse bok url) = true.
Proof.
  intros H. destruct (urlparse_shape bok url) as (nl & qry & HP & -> & _).
  unfold plain_link in H. rewrite forallb_forall in H.
  assert (Hu : Forall (fun c => char_in c (91 :: 93 :: NFKC_DELIMITER_LOOKALIKES) = false)
                      url).
  { apply List.Forall_forall. intros c Hc. apply negb_true_iff, H, Hc. }
  destruct (HP _ Hu) as [Hnl _].
  assert (H91 : char_in 91 nl = false).
  { apply char_in_absent. eapply List.Forall_impl; [|exact Hnl].
    intros c Hc ->. vm_compute in Hc. discriminate. }
  assert (H93 : char_in 93 nl = false).
  { apply char_in_absent. eapply List.Forall_impl; [|exact Hnl].
    intros c Hc ->. vm_compute in Hc. discriminate. }
  rewrite H91, H93. cbn [xorb andb negb].
  unfold checknetloc.
  replace (existsb (fun c => char_in c NFKC_DELIMITER_LOOKALIKES) nl) with false;
    [reflexivity|].
  symmetry. clear -Hnl. induction Hnl as [|c s Hc _ IH]; cbn [existsb]; [reflexivity|].
  rewrite IH, orb_false_r. unfold char_in in Hc |- *. cbn [existsb] in Hc.
  apply orb_false_elim in Hc as [_ Hc]. apply orb_false_elim in Hc as [_ Hc]. exact Hc.
Qed.

(** ** unquote and parse_qsl on texts without lone surrogates *)

Lemma hexval_range (c x : Z) : hexval c = Some x -> 0 <= x < 16.
Proof.
  unfold hexval, is_ascii_digit. intros H.
  repeat match type of H with
         | (if ?b then _ else _) = _ => destruct b eqn:?
         end; try discriminate; injection H as <-; zprop; lia.
Qed.

Lemma unquote_item_bytes (item : list Z) :
  Forall (fun b => 0 <= b < 256) item ->
  Forall (fun b => 0 <= b < 256) (unquote_item item).
Proof.
  intros H. unfold unquote_item.
  assert (Hkeep : Forall (fun b => 0 <= b < 256) (37 :: item))
    by (constructor; [lia|exact H]).
  destruct item as [|a [|b rest]]; try exact Hkeep.
  destruct (hexval a) as [x|] eqn:Ha; [|exact Hkeep].
  destruct (hexval b) as [y|] eqn:Hb; [|exact Hkeep].
  apply hexval_range in Ha, Hb.
  inversion H as [|? ? _ H']; subst. inversion H' as [|? ? _ H'']; subst.
  constructor; [lia|exact H''].
Qed.

Lemma unquote_to_bytes_bytes (s : list Z) :
  Forall (fun b => 0 <= b < 256) s ->
  Forall (fun b => 0 <= b < 256) (unquote_to_bytes s).
Proof.
  intros H. unfold unquote_to_bytes.
  pose proof (Forall_split_char _ 37 s H) as Hs.
  destruct (split_char 37 s) as [|first items]; [constructor|].
  inversion Hs as [|? ? Hf Hi]; subst.
  apply Forall_app. split; [exact Hf|].
  clear -Hi. induction Hi as [|item items Hitem _ IH]; cbn [flat_map]; [constructor|].
  apply Forall_app. split; [apply unquote_item_bytes; exact Hitem|exact IH].
Qed.

Lemma unquote_runs_scalar (s : list Z) :
  forall run,
    Forall (fun b => 0 <= b < 256) run ->
    Forall (fun c => is_scalar c = true) s ->
    Forall (fun c => is_scalar c = true) (unquote_runs run s).
Proof.
  induction s as [|c s IH]; intros run Hr Hs; cbn [unquote_runs].
  - apply utf8_decode_scalar, unquote_to_bytes_bytes, Forall_rev, Hr.
  - inversion Hs as [|? ? Hc Hs']; subst.
    destruct (c <? 128) eqn:C.
    + apply IH; [|exact Hs']. constructor; [|exact Hr].
      unfold is_scalar in Hc. zprop; lia.
    + apply Forall_app. split.
      * apply utf8_decode_scalar, unquote_to_bytes_bytes, Forall_rev, Hr.
      * constructor; [exact Hc|]. apply IH; [constructor|exact Hs'].
Qed.

Lemma unquote_scalar (s : list Z) :
  Forall (fun c => is_scalar c = true) s ->
  Forall (fun c => is_scalar c = true) (unquote s).
Proof.
  intros H. unfold unquote. destruct (char_in 37 s); [|exact H].
  apply unquote_runs_scalar; [constructor|exact H].
Qed.

Lemma parse_qsl_field_scalar (field : list Z) :
  Forall (fun c => is_scalar c = true) field ->
  Forall (fun nv => Forall (fun c => is_scalar c = true) (snd nv)) (parse_qsl_field field).
Proof.
  intros H. unfold parse_qsl_field, split_once.
  destruct field as [|c0 f]; [constructor|].
  destruct (partition_at 61 (c0 :: f)) as [[n v]|] eqn:E; [|constructor].
  destruct v as [|v0 v]; [constructor|].
  destruct (Forall_partition_at _ _ _ _ _ E H) as [_ Hv].
  repeat constructor. cbn [snd].
  apply unquote_scalar, Forall_replace_char; [repeat constructor|exact Hv].
Qed.

Lemma parse_qsl_scalar (qs : list Z) :
  Forall (fun c => is_scalar c = true) qs ->
  Forall (fun nv => Forall (fun c => is_scalar c = true) (snd nv)) (parse_qsl qs).
Proof.
  intros H. unfold parse_qsl. destruct qs as [|c0 q]; [constructor|].
  pose proof (Forall_split_char _ 38 _ H) as Hs.
  induction Hs as [|field fields Hf _ IH]; cbn [flat_map]; [constructor|].
  apply Forall_app. split; [apply parse_qsl_field_scalar; exact Hf|exact IH].
Qed.

Lemma first_value_scalar (name : list Z) (pairs : list (list Z * list Z)) :
  Forall (fun nv => Forall (fun c => is_scalar c = true) (snd nv)) pairs ->
  Forall (fun c => is_scalar c = true) (hd [] (values_of name pairs)).
Proof.
  unfold values_of.
  induction 1 as [|nv pairs Hnv _ IH]; cbn [List.filter map hd]; [constructor|].
  destruct (str_eqb (fst nv) name); [exact Hnv|exact IH].
Qed.

(** For a title and a link without lone surrogates, the keyword can be
    encoded: [normalize_weibo_link] returns whenever [urlparse] does. *)
Lemma normalize_weibo_link_ok bok (title raw_link : list Z) :
  Forall (fun c => is_scalar c = true) title ->
  Forall (fun c => is_scalar c = true) raw_link ->
  is_ok (normalize_weibo_link bok title raw_link)
  = is_ok (urlparse bok (remove_ws raw_link)).
Proof.
  intros Ht Hl. rewrite normalize_weibo_link_eq. fold (remove_ws raw_link).
  destruct (urlparse bok (remove_ws raw_link)) as [parsed|e] eqn:Hp;
    cbn [bind is_ok]; [|reflexivity].
  cbv zeta.
  assert (Hq : Forall (fun c => is_scalar c = true) (query parsed)).
  { eapply urlparse_query_kept; [exact Hp|]. apply Forall_filter_kept. exact Hl. }
  set (first_q := hd [] (values_of (str "q") (parse_qsl (query parsed)))).
  assert (Hf : Forall (fun c => is_scalar c = true) first_q)
    by (apply first_value_scalar, parse_qsl_scalar, Hq).
  assert (Hk : Forall (fun c => is_scalar c = true)
                      (match strip first_q with
                       | [] => strip title
                       | _ :: _ => strip first_q
                       end)).
  { destruct (strip first_q) eqn:E; [apply Forall_strip, Ht|].
    rewrite <- E. apply Forall_strip, Hf. }
  destruct (quote_ok _ Hk) as [enc ->]. reflexivity.
Qed.

Lemma forallb_false_Exists (p : Z -> bool) (s : list Z) :
  forallb p s = false -> Exists (fun c => p c = false) s.
Proof.
  induction s as [|c s IH]; cbn [forallb]; [discriminate|].
  destruct (p c) eqn:Hc; cbn [andb].
  - intros H. apply Exists_cons_tl, IH, H.
  - intros _. apply Exists_cons_hd. exact Hc.
Qed.

Lemma normalize_weibo_link_raises bok (title raw_link : list Z) (e : exn) :
  normalize_weibo_link bok title raw_link = Raise e ->
  (urlparse bok (remove_ws raw_link) = Raise e /\ exists msg, e = ValueError msg)
  \/ (e = UnicodeEncodeError
      /\ is_ok (urlparse bok (remove_ws raw_link)) = true
      /\ (Exists (fun c => is_scalar c = false) title
          \/ Exists (fun c => is_scalar c = false) raw_link)).
Proof.
  intros H.
  destruct (urlparse bok (remove_ws raw_link)) as [parsed|e0] eqn:Hp.
  - right.
    assert (He : e = UnicodeEncodeError).
    { rewrite normalize_weibo_link_eq in H. fold (remove_ws raw_link) in H.
      rewrite Hp in H. cbn [bind] in H. cbv zeta in H.
      destruct (quote _ []) as [enc|e1] eqn:Hq; cbn [bind] in H; [discriminate|].
      injection H as ->. apply quote_raises in Hq as [-> _]. reflexivity. }
    split; [exact He|]. split; [reflexivity|].
    destruct (forallb is_scalar title) eqn:Ft.
    + destruct (forallb is_scalar raw_link) eqn:Fl.
      * exfalso. rewrite forallb_forall in Ft, Fl.
        pose proof (normalize_weibo_link_ok bok title raw_link
                      ltac:(apply List.Forall_forall; exact Ft)
                      ltac:(apply List.Forall_forall; exact Fl)) as Hok.
        rewrite H, Hp in Hok. discriminate.
      * right. apply forallb_false_Exists. exact Fl.
    + left. apply forallb_false_Exists. exact Ft.
  - left. rewrite normalize_weibo_link_eq in H. fold (remove_ws raw_link) in H.
    rewrite Hp in H. cbn [bind] in H. injection H as <-.
    split; [reflexivity|]. eapply urlparse_raises. exact Hp.
Qed.

(** X11: [normalize_weibo_link] raises in two cases only. Either [urlparse]
    rejects the cleaned link, and its [ValueError] leaves the function; or
    the link was parsed and [quote] cannot encode the keyword, which takes a
    lone surrogate in the title or in the link. The subscript [[0]] of line
    55 never raises [IndexError]. *)
Theorem X11_normalize_raises_for_a_bad_link_or_a_surrogate bok
        (title raw_link : list Z) (e : exn) :
  normalize_weibo_link bok title raw_link = Raise e ->
  e <> IndexError
  /\ ((urlparse bok (remove_ws raw_link) = Raise e /\ exists msg, e = ValueError msg)
      \/ (e = UnicodeEncodeError
          /\ is_ok (urlparse bok (remove_ws raw_link)) = true
          /\ (Exists (fun c => is_scalar c = false) title
              \/ Exists (fun c => is_scalar c = false) raw_link))).
Proof.
  intros H. pose proof (normalize_weibo_link_raises _ _ _ _ H) as Hc.
  split; [|exact Hc].
  destruct Hc as [(_ & msg & ->)|(-> & _)]; discriminate.
Qed.

Lemma X11_witness :
  exists e,
    normalize_weibo_link no_bracket_check (str "title") (str "http://[example") = Raise e
    /\ e <> IndexError
    /\ ((urlparse no_bracket_check (remove_ws (str "http://[example")) = Raise e
         /\ exists msg, e = ValueError msg)
        \/ (e = UnicodeEncodeError
            /\ is_ok (urlparse no_bracket_check (remove_ws (str "http://[example"))) = true
            /\ (Exists (fun c => is_scalar c = false) (str "title")
                \/ Exists (fun c => is_scalar c = false) (str "http://[example")))).
Proof.
  assert (H : exists e,
             normalize_weibo_link no_bracket_check (str "title") (str "http://[example")
             = Raise e)
    by (eexists; vm_compute; reflexivity).
  destruct H as [e H]. exists e. split; [exact H|].
  exact (X11_normalize_raises_for_a_bad_link_or_a_surrogate _ _ _ _ H).
Defined.

Lemma plain_link_remove_ws (s : list Z) :
  plain_link s = true -> plain_link (remove_ws s) = true.
Proof.
  unfold plain_link, remove_ws. rewrite !forallb_forall.
  intros H c Hc. apply filter_In in Hc as [Hc _]. apply H, Hc.
Qed.

(** X12: for a title and a link without lone surrogates (every text read
    from a well-formed document), [normalize_weibo_link] returns exactly
    when [urlparse] accepts the link with its whitespace removed; and
    [urlparse] accepts every link without square brackets and without the
    lookalikes of [/?#@:] that it refuses in a host name. *)
Theorem X12_links_without_brackets_always_normalize bok (title raw_link : list Z) :
  Forall (fun c => is_scalar c = true) title ->
  Forall (fun c => is_scalar c = true) raw_link ->
  is_ok (normalize_weibo_link bok title raw_link)
  = is_ok (urlparse bok (remove_ws raw_link))
  /\ (plain_link raw_link = true ->
      exists link, normalize_weibo_link bok title raw_link = Ok link).
Proof.
  intros Ht Hl. pose proof (normalize_weibo_link_ok bok title raw_link Ht Hl) as E.
  split; [exact E|]. intros Hp.
  rewrite (urlparse_plain_ok bok _ (plain_link_remove_ws _ Hp)) in E.
  destruct (normalize_weibo_link bok title raw_link) as [link|]; [eauto|discriminate].
Qed.

Lemma X12_witness :
  Forall (fun c => is_scalar c = true) (str "热搜 one")
  /\ Forall (fun c => is_scalar c = true) (str "https://s.weibo.com/weibo?q=%23first%23")
  /\ plain_link (str "https://s.weibo.com/weibo?q=%23first%23") = true
  /\ is_ok (normalize_weibo_link no_bracket_check (str "热搜 one")
              (str "https://s.weibo.com/weibo?q=%23first%23"))
     = is_ok (urlparse no_bracket_check
                (remove_ws (str "https://s.weibo.com/weibo?q=%23first%23")))
  /\ exists link,
      normalize_weibo_link no_bracket_check (str "热搜 one")
        (str "https://s.weibo.com/weibo?q=%23first%23") = Ok link.
Proof.
  assert (Ht : Forall (fun c => is_scalar c = true) (str "热搜 one"))
    by (apply List.Forall_forall, forallb_forall; vm_compute; reflexivity).
  assert (Hl : Forall (fun c => is_scalar c = true)
                      (str "https://s.weibo.com/weibo?q=%23first%23"))
    by (apply List.Forall_forall, forallb_forall; vm_compute; reflexivity).
  assert (Hp : plain_link (str "https://s.weibo.com/weibo?q=%23first%23") = true)
    by (vm_compute; reflexivity).
  split; [exact Ht|]. split; [exact Hl|]. split; [exact Hp|].
  destruct (X12_links_without_brackets_always_normalize no_bracket_check _ _ Ht Hl)
    as [E F].
  split; [exact E|exact (F Hp)].
Defined.

(** ** Decoding what quote encoded *)

Lemma split_char_aux_acc (c : Z) (s : list Z) :
  forall cur,
    split_char_aux c cur s
    = (rev cur ++ hd [] (split_char c s)) :: tl (split_char c s).
Proof.
  unfold split_char.
  induction s as [|x s IH]; intros cur; cbn [split_char_aux].
  - cbn [rev hd tl app]. rewrite app_nil_r. reflexivity.
  - destruct (char_eqb x c).
    + cbn [rev hd tl app]. rewrite app_nil_r. reflexivity.
    + rewrite (IH (x :: cur)), (IH [x]). cbn [rev hd tl app].
      rewrite <- app_assoc. reflexivity.
Qed.

Lemma unquote_to_bytes_cons (c : Z) (s : list Z) :
  c <> 37 -> unquote_to_bytes (c :: s) = c :: unquote_to_bytes s.
Proof.
  intros Hc. unfold unquote_to_bytes, split_char at 1. cbn [split_char_aux].
  unfold char_eqb. rewrite (proj2 (Z.eqb_neq c 37) Hc).
  rewrite split_char_aux_acc. cbn [rev app].
  destruct (split_char 37 s) as [|first items] eqn:E; [|reflexivity].
  exfalso. revert E. unfold split_char. generalize (@nil Z).
  induction s as [|x s IH]; intros cur; cbn [split_char_aux]; [discriminate|].
  destruct (char_eqb x 37); [discriminate|apply IH].
Qed.

Lemma unquote_to_bytes_escape (a b x y : Z) (s : list Z) :
  hexval a = Some x -> hexval b = Some y ->
  unquote_to_bytes (37 :: a :: b :: s) = (16 * x + y) :: unquote_to_bytes s.
Proof.
  intros Ha Hb.
  assert (Na : a <> 37) by (intros ->; vm_compute in Ha; discriminate).
  assert (Nb : b <> 37) by (intros ->; vm_compute in Hb; discriminate).
  unfold unquote_to_bytes, split_char at 1. cbn [split_char_aux].
  unfold char_eqb. rewrite Z.eqb_refl.
  rewrite (proj2 (Z.eqb_neq a 37) Na), (proj2 (Z.eqb_neq b 37) Nb).
  rewrite split_char_aux_acc. cbn [rev app flat_map unquote_item].
  rewrite Ha, Hb.
  destruct (split_char 37 s) as [|first items]; cbn [hd tl app];
    rewrite ?app_nil_r; reflexivity.
Qed.

Lemma hexval_hex_upper (n : Z) : 0 <= n < 16 -> hexval (hex_upper n) = Some n.
Proof.
  intros H. assert (H' : 0 <= n < 0 + Z.of_nat 16) by lia. clear H. revert n H'.
  by_cases_on 0 16%nat; reflexivity.
Qed.

Lemma ALWAYS_SAFE_not_percent (b : Z) : ALWAYS_SAFE b = true -> b <> 37.
Proof. intros H ->. vm_compute in H. discriminate. Qed.

(** [unquote_to_bytes] gives back the bytes [quote] encoded. *)
Lemma unquote_to_bytes_percent_encoded (bs : list Z) :
  Forall (fun b => 0 <= b < 256) bs ->
  unquote_to_bytes (percent_encoded bs) = bs.
Proof.
  unfold percent_encoded.
  induction 1 as [|b bs Hb _ IH]; cbn [flat_map]; [reflexivity|].
  destruct (ALWAYS_SAFE b) eqn:Hs; cbn [app].
  - rewrite unquote_to_bytes_cons by (apply ALWAYS_SAFE_not_percent; exact Hs).
    rewrite IH. reflexivity.
  - rewrite (unquote_to_bytes_escape _ _ (b / 16) (b mod 16))
      by (apply hexval_hex_upper; lia).
    rewrite IH. f_equal. lia.
Qed.

Lemma unquote_runs_ascii (s : list Z) :
  forall run,
    Forall (fun c => c < 128) s ->
    unquote_runs run s = utf8_decode_replace (unquote_to_bytes (rev run ++ s)).
Proof.
  induction s as [|c s IH]; intros run H; cbn [unquote_runs].
  - rewrite app_nil_r. reflexivity.
  - inversion H as [|? ? Hc Hs]; subst.
    rewrite (proj2 (Z.ltb_lt c 128) Hc), IH by exact Hs.
    cbn [rev]. rewrite <- app_assoc. reflexivity.
Qed.

Lemma utf8_decode_ascii_app (a t : list Z) :
  Forall (fun c => c < 128) a ->
  utf8_decode_replace (a ++ t) = a ++ utf8_decode_replace t.
Proof.
  induction 1 as [|c a Hc _ IH]; cbn [app utf8_decode_replace]; [reflexivity|].
  rewrite (proj2 (Z.ltb_lt c 128) Hc), IH. reflexivity.
Qed.

(** One character through the encoder and back. *)
Lemma utf8_decode_encoded_char (c : Z) (bs rest : list Z) :
  utf8_encode_char c = Some bs ->
  utf8_decode_replace (bs ++ rest) = c :: utf8_decode_replace rest.
Proof.
  unfold utf8_encode_char. intros H.
  repeat match type of H with
         | (if ?b then _ else _) = _ => destruct b eqn:?
         end; try discriminate; injection H as <-;
    cbn [app utf8_decode_replace]; unfold is_cont;
    repeat (match goal with
            | |- context [if ?b then _ else _] => destruct b eqn:?
            end; zprop; try (exfalso; lia));
    f_equal; lia.
Qed.

(** Decoding the UTF-8 encoding of a text gives the text. *)
Lemma utf8_decode_encode (s bs : list Z) :
  utf8_encode s = Ok bs -> utf8_decode_replace bs = s.
Proof.
  revert bs. induction s as [|c s IH]; intros bs H; cbn [utf8_encode] in H.
  - injection H as <-. reflexivity.
  - destruct (utf8_encode_char c) as [cb|] eqn:Hc; [|discriminate].
    destruct (utf8_encode s) as [rest|]; cbn [bind] in H; [|discriminate].
    injection H as <-. rewrite (utf8_decode_encoded_char c cb rest Hc), (IH rest eq_refl).
    reflexivity.
Qed.

(** ** Entries without title or link in the aggregation *)




Lemma item_lines_normalized bok (items : list (list Z * list Z)) :
  Forall (fun i => is_ok (normalize_weibo_link bok (fst i) (snd i)) = true) items ->
  is_ok (item_lines bok items) = true.
Proof.
  induction 1 as [|[t l] items Hi _ IH]; cbn [item_lines]; [reflexivity|].
  unfold item_line. cbn [fst snd] in Hi.
  destruct (normalize_weibo_link bok t l); [|discriminate]. cbn [bind].
  destruct (item_lines bok items); [reflexivity|discriminate].
Qed.





(** ** The keyword of a normalized link *)

Lemma unquote_to_bytes_search_url (t : list Z) :
  unquote_to_bytes (SEARCH_URL ++ t) = SEARCH_ADDRESS ++ unquote_to_bytes t.
Proof.
  let l := eval vm_compute in SEARCH_URL in change SEARCH_URL with l.
  let l := eval vm_compute in SEARCH_ADDRESS in change SEARCH_ADDRESS with l.
  cbn [app].
  repeat first [ rewrite unquote_to_bytes_cons by discriminate
               | erewrite unquote_to_bytes_escape by reflexivity ].
  reflexivity.
Qed.

Lemma url_char_ascii (c : Z) : url_char c = true -> c < 128.
Proof.
  unfold url_char, ALWAYS_SAFE, is_ascii_alpha, is_ascii_upper, is_ascii_lower,
    is_ascii_digit, char_in, char_eqb.
  intros H. destruct (Z.ltb_spec c 128) as [Hlt|Hge]; [exact Hlt|exfalso].
  revert H. vm_compute (str _). cbn [existsb].
  intros H. zprop; lia.
Qed.

Lemma SEARCH_ADDRESS_ascii : Forall (fun c => c < 128) SEARCH_ADDRESS.
Proof.
  apply List.Forall_forall. intros c Hc. apply Z.ltb_lt. revert c Hc.
  apply forallb_forall. vm_compute. reflexivity.
Qed.

Lemma unquote_ascii (s : list Z) :
  Forall (fun c => c < 128) s -> char_in 37 s = true ->
  unquote s = utf8_decode_replace (unquote_to_bytes s).
Proof.
  intros Ha Hp. unfold unquote. rewrite Hp, unquote_runs_ascii by exact Ha.
  reflexivity.
Qed.

Lemma normalize_weibo_link_decodes bok (title raw_link link : list Z) :
  normalize_weibo_link bok title raw_link = Ok link ->
  exists parsed,
    urlparse bok (remove_ws raw_link) = Ok parsed
    /\ unquote link
       = SEARCH_ADDRESS
         ++ match strip (hd [] (values_of (str "q") (parse_qsl (query parsed)))) with
            | [] => strip title
            | _ :: _ => strip (hd [] (values_of (str "q") (parse_qsl (query parsed))))
            end.
Proof.
  intros H. pose proof (normalize_weibo_link_chars _ _ _ _ H) as Hc.
  rewrite normalize_weibo_link_eq in H. fold (remove_ws raw_link) in H.
  destruct (urlparse bok (remove_ws raw_link)) as [parsed|]; cbn [bind] in H;
    [|discriminate].
  exists parsed. split; [reflexivity|]. cbv zeta in H.
  set (keyword := match strip (hd [] (values_of (str "q") (parse_qsl (query parsed)))) with
                  | [] => strip title
                  | _ :: _ => strip (hd [] (values_of (str "q") (parse_qsl (query parsed))))
                  end) in *.
  destruct (quote keyword []) as [enc|] eqn:Hq; cbn [bind] in H; [|discriminate].
  apply quote_spec in Hq as (bs & He & -> & _).
  assert (E : link = SEARCH_URL ++ percent_encoded bs) by (symmetry; congruence).
  clear H. subst link.
  assert (Hp : char_in 37 (SEARCH_URL ++ percent_encoded bs) = true).
  { unfold char_in. rewrite existsb_app.
    replace (existsb (char_eqb 37) SEARCH_URL) with true by (vm_compute; reflexivity).
    apply orb_true_l. }
  rewrite unquote_ascii;
    [|eapply List.Forall_impl; [|exact Hc]; apply url_char_ascii|exact Hp].
  rewrite unquote_to_bytes_search_url.
  rewrite unquote_to_bytes_percent_encoded by (eapply utf8_encode_bytes; exact He).
  rewrite utf8_decode_ascii_app by apply SEARCH_ADDRESS_ascii.
  rewrite (utf8_decode_encode _ _ He). reflexivity.
Qed.

(** X13: percent-decoding a link [normalize_weibo_link] returned gives the
    search address followed by the keyword itself, character for character:
    the encoding loses nothing of the keyword, which is the stripped value
    of [q] or the stripped title, and neither starts nor ends with
    whitespace. *)
Theorem X13_normalized_link_decodes_to_the_keyword bok (title raw_link link : list Z) :
  normalize_weibo_link bok title raw_link = Ok link ->
  exists keyword,
    unquote link = SEARCH_ADDRESS ++ keyword
    /\ trimmed keyword
    /\ (keyword = strip title
        \/ exists parsed,
            urlparse bok (remove_ws raw_link) = Ok parsed
            /\ keyword = strip (hd [] (values_of (str "q") (parse_qsl (query parsed))))).
Proof.
  intros H. apply normalize_weibo_link_decodes in H as (parsed & Hp & Hu).
  eexists. split; [exact Hu|].
  destruct (strip (hd [] (values_of (str "q") (parse_qsl (query parsed))))) as [|c k] eqn:E.
  - split; [|left; reflexivity].
    destruct (strip_spec title) as (_ & _ & _ & _ & _ & Ht). exact Ht.
  - split; [|right; exists parsed; split; [exact Hp|symmetry; exact E]].
    rewrite <- E.
    destruct (strip_spec (hd [] (values_of (str "q") (parse_qsl (query parsed)))))
      as (_ & _ & _ & _ & _ & Ht).
    exact Ht.
Qed.

Lemma X13_witness :
  exists link keyword,
    normalize_weibo_link no_bracket_check (str "title")
      (str "https://s.weibo.com/weibo?q=%E7%83%AD+%26+%E6%90%9C&Refer=top") = Ok link
    /\ unquote link = SEARCH_ADDRESS ++ keyword
    /\ trimmed keyword
    /\ (keyword = strip (str "title")
        \/ exists parsed,
            urlparse no_bracket_check
              (remove_ws (str "https://s.weibo.com/weibo?q=%E7%83%AD+%26+%E6%90%9C&Refer=top"))
            = Ok parsed
            /\ keyword
               = strip (hd [] (values_of (str "q") (parse_qsl (query parsed))))).
Proof.
  assert (H : exists link,
             normalize_weibo_link no_bracket_check (str "title")
               (str "https://s.weibo.com/weibo?q=%E7%83%AD+%26+%E6%90%9C&Refer=top")
             = Ok link)
    by (eexists; vm_compute; reflexivity).
  destruct H as [link H].
  destruct (X13_normalized_link_decodes_to_the_keyword _ _ _ _ H) as (keyword & Hk).
  exists link, keyword. split; [exact H|exact Hk].
Defined.

(** ** When a run completes *)

Lemma build_description_ok bok (items : list (list Z * list Z)) (capture_time : aware) :
  is_ok (build_description bok items capture_time) = is_ok (item_lines bok items).
Proof. unfold build_description. destruct (item_lines bok items); reflexivity. Qed.

Lemma item_lines_ok_iff bok (items : list (list Z * list Z)) :
  is_ok (item_lines bok items) = true
  <-> Forall (fun i => is_ok (normalize_weibo_link bok (fst i) (snd i)) = true) items.
Proof.
  split; [|apply item_lines_normalized].
  destruct (item_lines bok items) as [lines|] eqn:Hl; [|discriminate].
  intros _. apply item_lines_inv in Hl as (links & Hall & _).
  induction Hall as [|item link items links Hi _ IH]; constructor; [|exact IH].
  rewrite Hi. reflexivity.
Qed.

Lemma aggregate_rss_completes bok now inp outp w :
  (exists w', aggregate_rss bok now inp outp w = (w', Ok tt))
  <-> exists root channel,
      files w !! inp = Some (XmlDocument root)
      /\ find root (str "channel") = Some channel
      /\ is_ok (parse_last_build_date now
                  (Some (get_text (find channel (str "lastBuildDate"))))) = true
      /\ Forall (fun e => is_ok (normalize_weibo_link bok (fst (extract_item e))
                                   (snd (extract_item e))) = true)
                (findall channel (str "item"))
      /\ writable w outp = true.
Proof.
  split.
  - intros [w' H]. apply aggregate_rss_inv in H as (root & out & Hf & Hb & Hw & _).
    apply build_rss_inv in Hb as (channel & bj & gmt & d & Hc & Hp & Hd & _).
    exists root, channel. split; [exact Hf|]. split; [exact Hc|].
    split; [rewrite Hp; reflexivity|]. split; [|exact Hw].
    assert (Hok : is_ok (build_description bok
                           (map extract_item (findall channel (str "item"))) bj) = true)
      by (rewrite Hd; reflexivity).
    rewrite build_description_ok in Hok. apply item_lines_ok_iff in Hok.
    apply Forall_map in Hok. exact Hok.
  - intros (root & channel & Hf & Hc & Hp & Hall & Hw).
    unfold aggregate_rss, parse_file. rewrite Hf. cbn [bind].
    assert (Hb : is_ok (build_rss bok now root) = true).
    { unfold build_rss. rewrite Hc.
      destruct (parse_last_build_date now _) as [[bj gmt]|]; [|discriminate].
      cbn [bind].
      assert (Hd : is_ok (build_description bok
                            (map extract_item (findall channel (str "item"))) bj) = true).
      { rewrite build_description_ok. apply item_lines_ok_iff.
        apply Forall_map. exact Hall. }
      destruct (build_description bok _ bj); [reflexivity|discriminate]. }
    destruct (build_rss bok now root) as [out|]; [|discriminate].
    rewrite Hw. eauto.
Qed.

(** X14: a run of [aggregate_rss] completes exactly when the input path
    holds a document whose root has a [channel] child, the build date can
    be read (the failure X8 describes apart, it always can), the link of
    every entry normalizes, and the output path can be opened for writing.
    Nothing else in the input makes a run fail: no number of entries, no
    missing or blank child of an entry. *)
Theorem X14_a_run_completes_exactly_when bok now inp outp w :
  (exists w', aggregate_rss bok now inp outp w = (w', Ok tt))
  <-> exists root channel,
      files w !! inp = Some (XmlDocument root)
      /\ find root (str "channel") = Some channel
      /\ is_ok (parse_last_build_date now
                  (Some (get_text (find channel (str "lastBuildDate"))))) = true
      /\ Forall (fun e => is_ok (normalize_weibo_link bok (fst (extract_item e))
                                   (snd (extract_item e))) = true)
                (findall channel (str "item"))
      /\ writable w outp = true.
Proof. apply aggregate_rss_completes. Qed.
